(** * MicroSQL: the statement parsers and the WHERE evaluator of [src/index.ts]

    A shallow embedding of the class [MicroSQL] and the properties of its
    quote-aware splitter, logical splitter, leaf-condition evaluator,
    WHERE evaluator and the four statement handlers.

    Modelling conventions.
    - A JavaScript string is a list of code units.  The code units modelled
      are those of Latin-1 (U+0000 to U+00FF), carried by [ascii]; on this
      range the white space of [trim] and of the regular expression class
      [\s] is TAB, LF, VT, FF, CR, SPACE and NBSP, the line terminators
      excluded by [.] are LF and CR, and case-insensitive matching folds
      a-z and the accented letters U+00E0..U+00FE (without U+00F7).
    - Regular expressions are abstract syntax interpreted by a backtracking
      matcher with the priorities of the ECMAScript matcher: alternatives
      left to right, greedy repetition longest first, lazy repetition
      shortest first, and the leftmost start position wins.
    - A number is NaN, an infinity or an exact decimal [m * 10^e]; the
      rounding of IEEE-754 doubles is not modelled.
    - A row is an insertion-ordered association list from field names to
      values (string, number, null, undefined).  Members inherited from
      [Object.prototype], the ascending order that JavaScript gives to
      integer-like keys, and the booleans, arrays and nested objects that a
      hand-written JSON file may hold are not modelled.
    - The directory of JSON files is a function from table names to optional
      row lists ([None] when the file does not exist); [save] and [load] go
      through JSON text, which drops the fields whose value is [undefined]
      and turns NaN and the infinities into null.
    - A thrown exception is a result [Throw e]; a handler returns its
      result together with the store it leaves. *)

From Stdlib Require Import Ascii String DecimalString.
From Stdlib Require Import ZArith Bool Arith Lia List.
Import ListNotations.

Set Implicit Arguments.

(** ** Strings *)

Definition str := list ascii.

Definition lit (s : string) : str := list_ascii_of_string s.

Definition code (c : ascii) : N := N_of_ascii c.

Definition chr_eqb (a b : ascii) : bool := Ascii.eqb a b.

Fixpoint str_eqb (a b : str) : bool :=
  match a, b with
  | [], [] => true
  | x :: a', y :: b' => chr_eqb x y && str_eqb a' b'
  | _, _ => false
  end.

Definition in_range (lo hi : N) (c : ascii) : bool :=
  (lo <=? code c)%N && (code c <=? hi)%N.

(** The class [\s] and the white space removed by [trim]. *)
Definition isSpace (c : ascii) : bool :=
  in_range 9 13 c || (code c =? 32)%N || (code c =? 160)%N.

(** The characters that [.] does not match. *)
Definition isLineTerminator (c : ascii) : bool :=
  (code c =? 10)%N || (code c =? 13)%N.

Definition isDigit (c : ascii) : bool := in_range 48 57 c.

Definition isUpperAZ (c : ascii) : bool := in_range 65 90 c.
Definition isLowerAZ (c : ascii) : bool := in_range 97 122 c.

(** The class [\w]. *)
Definition isWord (c : ascii) : bool :=
  isUpperAZ c || isLowerAZ c || isDigit c || (code c =? 95)%N.

(** The double and the single quote. *)
Definition dquote : ascii := ascii_of_N 34.
Definition squote : ascii := ascii_of_N 39.

Definition isQuote (c : ascii) : bool :=
  chr_eqb c dquote || chr_eqb c squote.

Definition isDot (c : ascii) : bool := negb (isLineTerminator c).
Definition isNonSpace (c : ascii) : bool := negb (isSpace c).

(** Canonicalisation of a code unit under the [i] flag (upper-casing). *)
Definition canon (c : ascii) : ascii :=
  if isLowerAZ c then ascii_of_N (code c - 32)
  else if in_range 224 254 c && negb (code c =? 247)%N
       then ascii_of_N (code c - 32)
  else c.

(** [String.prototype.toUpperCase].  On the modelled range it agrees with
    [canon] except at U+00DF, U+00B5 and U+00FF, whose upper-case forms
    leave the range; they are kept as they are. *)
Definition toUpperCase (s : str) : str := map canon s.

Fixpoint trimStart (s : str) : str :=
  match s with
  | c :: s' => if isSpace c then trimStart s' else s
  | [] => []
  end.

Definition trimEnd (s : str) : str := rev (trimStart (rev s)).

Definition trim (s : str) : str := trimEnd (trimStart s).

Definition startsWithChar (c : ascii) (s : str) : bool :=
  match s with
  | x :: _ => chr_eqb x c
  | [] => false
  end.

Definition endsWithChar (c : ascii) (s : str) : bool :=
  startsWithChar c (rev s).

(** [s.slice(1, -1)] *)
Definition slice_1_m1 (s : str) : str := removelast (tl s).

(** [s.indexOf(c)] for a one-character needle; [None] stands for -1. *)
Fixpoint indexOfChar (c : ascii) (s : str) : option nat :=
  match s with
  | [] => None
  | x :: s' => if chr_eqb x c then Some 0
               else option_map S (indexOfChar c s')
  end.

(** [s.split(",")] *)
Fixpoint splitChar (d : ascii) (cur : str) (s : str) : list str :=
  match s with
  | [] => [cur]
  | x :: s' => if chr_eqb x d then cur :: splitChar d [] s'
               else splitChar d (cur ++ [x]) s'
  end.

(** [s < t] on strings: by code units. *)
Fixpoint str_ltb (a b : str) : bool :=
  match a, b with
  | _, [] => false
  | [], _ :: _ => true
  | x :: a', y :: b' =>
      if (code x <? code y)%N then true
      else if (code y <? code x)%N then false
      else str_ltb a' b'
  end.

(** ** Regular expressions *)

Module Regex.

(** The patterns of the source: a one-character class, sequence,
    alternation, the greedy optional group [(?:a)?], the repetition of a
    one-character class ([p*] greedy, [p*?] lazy), the capture group number
    [i], and the end anchor [$]. *)
Inductive re : Type :=
| Eps
| Cls (p : ascii -> bool)
| Seq (a b : re)
| Alt (a b : re)
| Opt (a : re)
| Star (greedy : bool) (p : ascii -> bool)
| Grp (i : nat) (a : re)
| Eos.

(** The captures set so far, the latest first. *)
Definition caps := list (nat * str).

Fixpoint cap (i : nat) (c : caps) : option str :=
  match c with
  | [] => None
  | (j, v) :: c' => if Nat.eqb i j then Some v else cap i c'
  end.

(** The matcher in continuation-passing style: [k] is the rest of the
    pattern, and [None] makes the caller try its next choice. *)
Section Matcher.
Variable A : Type.

Fixpoint starGreedy (p : ascii -> bool) (s : str)
         (k : str -> option A) : option A :=
  match s with
  | x :: s' =>
      if p x then
        match starGreedy p s' k with
        | Some r => Some r
        | None => k s
        end
      else k s
  | [] => k s
  end.

Fixpoint starLazy (p : ascii -> bool) (s : str)
         (k : str -> option A) : option A :=
  match k s with
  | Some r => Some r
  | None =>
      match s with
      | x :: s' => if p x then starLazy p s' k else None
      | [] => None
      end
  end.

Fixpoint bt (r : re) (s : str) (c : caps)
         (k : str -> caps -> option A) : option A :=
  match r with
  | Eps => k s c
  | Cls p =>
      match s with
      | x :: s' => if p x then k s' c else None
      | [] => None
      end
  | Seq a b => bt a s c (fun s' c' => bt b s' c' k)
  | Alt a b =>
      match bt a s c k with
      | Some x => Some x
      | None => bt b s c k
      end
  | Opt a =>
      match bt a s c k with
      | Some x => Some x
      | None => k s c
      end
  | Star true p => starGreedy p s (fun s' => k s' c)
  | Star false p => starLazy p s (fun s' => k s' c)
  | Grp i a =>
      bt a s c
         (fun s' c' => k s' ((i, firstn (length s - length s') s) :: c'))
  | Eos =>
      match s with
      | [] => k s c
      | _ :: _ => None
      end
  end.
End Matcher.

(** The match object of [RegExp.prototype.exec]. *)
Record result : Type := mkResult
  { index : nat; matched : str; groups : caps }.

(** One run of the matcher from the start of [s]: the text left over and
    the captures of the first successful path. *)
Definition run (r : re) (s : str) : option (str * caps) :=
  bt r s [] (fun s' c => Some (s', c)).

(** One attempt at a fixed start position. *)
Definition matchAt (r : re) (i : nat) (s : str) : option result :=
  match run r s with
  | Some (s', c) => Some (mkResult i (firstn (length s - length s') s) c)
  | None => None
  end.

(** The leftmost match, start positions tried from left to right. *)
Fixpoint searchFrom (r : re) (i : nat) (s : str) : option result :=
  match matchAt r i s with
  | Some m => Some m
  | None =>
      match s with
      | [] => None
      | _ :: s' => searchFrom r (S i) s'
      end
  end.

(** [s.match(r)] for a regular expression without the [g] flag. *)
Definition search (r : re) (s : str) : option result := searchFrom r 0 s.

(** [r.test(s)] for a pattern that starts with [^]. *)
Definition testAnchored (r : re) (s : str) : bool :=
  match run r s with
  | Some _ => true
  | None => false
  end.

Definition group (i : nat) (m : result) : option str := cap i (groups m).

(** Building blocks. *)
Definition chr (c : ascii) : re := Cls (fun x => chr_eqb x c).
Definition chrI (c : ascii) : re := Cls (fun x => chr_eqb (canon x) (canon c)).
Definition plus (greedy : bool) (p : ascii -> bool) : re :=
  Seq (Cls p) (Star greedy p).

Fixpoint cat (l : list re) : re :=
  match l with
  | [] => Eps
  | [r] => r
  | r :: l' => Seq r (cat l')
  end.

Fixpoint alts (l : list re) : re :=
  match l with
  | [] => Eps
  | [r] => r
  | r :: l' => Alt r (alts l')
  end.

(** A literal under the [i] flag. *)
Definition litI (s : string) : re := cat (map chrI (lit s)).

End Regex.
Import Regex.

(** ** Numbers *)

Local Open Scope Z_scope.

(** [Fin m e] is the number [m * 10^e]. *)
Inductive number : Type :=
| NaN
| Inf (negative : bool)
| Fin (m e : Z).

Definition num_compare (a b : number) : option comparison :=
  match a, b with
  | NaN, _ => None
  | _, NaN => None
  | Inf x, Inf y =>
      Some (if Bool.eqb x y then Eq else if x then Lt else Gt)
  | Inf x, Fin _ _ => Some (if x then Lt else Gt)
  | Fin _ _, Inf y => Some (if y then Gt else Lt)
  | Fin m1 e1, Fin m2 e2 =>
      let lo := Z.min e1 e2 in
      Some (Z.compare (m1 * 10 ^ (e1 - lo)) (m2 * 10 ^ (e2 - lo)))
  end.

Definition num_ltb (a b : number) : bool :=
  match num_compare a b with Some Lt => true | _ => false end.
Definition num_gtb (a b : number) : bool :=
  match num_compare a b with Some Gt => true | _ => false end.
Definition num_leb (a b : number) : bool :=
  match num_compare a b with Some Lt | Some Eq => true | _ => false end.
Definition num_geb (a b : number) : bool :=
  match num_compare a b with Some Gt | Some Eq => true | _ => false end.
Definition num_eqb (a b : number) : bool :=
  match num_compare a b with Some Eq => true | _ => false end.

Definition isNaN (a : number) : bool :=
  match a with NaN => true | _ => false end.

Fixpoint takeWhile (p : ascii -> bool) (s : str) : str :=
  match s with
  | c :: s' => if p c then c :: takeWhile p s' else []
  | [] => []
  end.

Fixpoint dropWhile (p : ascii -> bool) (s : str) : str :=
  match s with
  | c :: s' => if p c then dropWhile p s' else s
  | [] => []
  end.

Fixpoint stripPrefix (p s : str) : option str :=
  match p, s with
  | [], _ => Some s
  | x :: p', y :: s' => if chr_eqb x y then stripPrefix p' s' else None
  | _ :: _, [] => None
  end.

(** The value of a digit in a base up to 16, when it is one. *)
Definition digitValue (c : ascii) : option Z :=
  if isDigit c then Some (Z.of_N (code c) - 48)
  else if in_range 97 102 c then Some (Z.of_N (code c) - 87)
  else if in_range 65 70 c then Some (Z.of_N (code c) - 55)
  else None.

Definition isDigitOf (base : Z) (c : ascii) : bool :=
  match digitValue c with
  | Some d => d <? base
  | None => false
  end.

Definition digitsValue (base : Z) (s : str) : Z :=
  fold_left
    (fun acc c => acc * base + match digitValue c with Some d => d | None => 0 end)
    s 0.

(** The optional sign of a numeric literal: the sign and the rest. *)
Definition parseSign (s : str) : bool * str :=
  match s with
  | c :: s' =>
      if chr_eqb c "-"%char then (true, s')
      else if chr_eqb c "+"%char then (false, s')
      else (false, s)
  | [] => (false, s)
  end.

(** The exponent part [e[+-]digits] when it is complete, else nothing. *)
Definition parseExponent (s : str) : Z * str :=
  match s with
  | c :: s' =>
      if chr_eqb c "e"%char || chr_eqb c "E"%char then
        let (neg, s1) := parseSign s' in
        let ds := takeWhile isDigit s1 in
        match ds with
        | [] => (0, s)
        | _ :: _ =>
            let v := digitsValue 10 ds in
            ((if neg then - v else v), dropWhile isDigit s1)
        end
      else (0, s)
  | [] => (0, s)
  end.

(** The longest prefix that is a [StrDecimalLiteral], with the rest. *)
Definition parseDecimalPrefix (s : str) : option (number * str) :=
  let (neg, s0) := parseSign s in
  match stripPrefix (lit "Infinity") s0 with
  | Some rest => Some (Inf neg, rest)
  | None =>
      let ip := takeWhile isDigit s0 in
      let s1 := dropWhile isDigit s0 in
      let '(fp, s2, dot) :=
        match s1 with
        | c :: s1' =>
            if chr_eqb c "."%char
            then (takeWhile isDigit s1', dropWhile isDigit s1', true)
            else ([], s1, false)
        | [] => ([], s1, false)
        end in
      match ip, fp with
      | [], [] => None
      | _, _ =>
          let (ex, s3) := parseExponent s2 in
          let m := digitsValue 10 (ip ++ fp) in
          Some (Fin (if neg then - m else m) (ex - Z.of_nat (length fp)), s3)
      end
  end.

(** [parseFloat(s)] on a string, as the exact decimal value.  The code
    rounds it to the nearest double, which is the same number for the
    integers up to 2^53. *)
Definition parseFloatStr (s : str) : number :=
  match parseDecimalPrefix (trimStart s) with
  | Some (n, _) => n
  | None => NaN
  end.

(** The literals [0x..], [0o..] and [0b..]. *)
Definition parseNonDecimal (s : str) : option number :=
  match s with
  | z :: b :: ds =>
      if chr_eqb z "0"%char then
        let base :=
          if chr_eqb (canon b) "X"%char then Some 16
          else if chr_eqb (canon b) "O"%char then Some 8
          else if chr_eqb (canon b) "B"%char then Some 2
          else None in
        match base, ds with
        | Some n, _ :: _ =>
            if forallb (isDigitOf n) ds
            then Some (Fin (digitsValue n ds) 0) else None
        | _, _ => None
        end
      else None
  | _ => None
  end.

(** [Number(s)] on a string, as the exact decimal value (see
    [parseFloatStr]). *)
Definition toNumberStr (s : str) : number :=
  let t := trim s in
  match t with
  | [] => Fin 0 0
  | _ :: _ =>
      match parseNonDecimal t with
      | Some n => n
      | None =>
          match parseDecimalPrefix t with
          | Some (n, []) => n
          | _ => NaN
          end
      end
  end.

Definition digitsOfZ (z : Z) : str :=
  lit (NilZero.string_of_uint (N.to_uint (Z.to_N z))).

Definition zeros (n : Z) : str := repeat "0"%char (Z.to_nat n).

Definition stripTrailingZeros (ds : str) : str :=
  rev (dropWhile (fun c => chr_eqb c "0"%char) (rev ds)).

(** [String(x)] on a number. *)
Definition numToString (x : number) : str :=
  match x with
  | NaN => lit "NaN"
  | Inf neg => (if neg then lit "-" else []) ++ lit "Infinity"
  | Fin m e =>
      if (m =? 0)%Z then lit "0"
      else
        let all := digitsOfZ (Z.abs m) in
        let ds := stripTrailingZeros all in
        let k := Z.of_nat (length ds) in
        let n := Z.of_nat (length all) + e in
        let sign := if (m <? 0)%Z then lit "-" else [] in
        let body :=
          if (k <=? n)%Z && (n <=? 21)%Z then ds ++ zeros (n - k)
          else if (0 <? n)%Z && (n <=? 21)%Z then
            firstn (Z.to_nat n) ds ++ lit "." ++ skipn (Z.to_nat n) ds
          else if (-6 <? n)%Z && (n <=? 0)%Z then
            lit "0." ++ zeros (- n) ++ ds
          else
            let ex := (if (n - 1 <? 0)%Z then lit "-" else lit "+")
                        ++ digitsOfZ (Z.abs (n - 1)) in
            match ds with
            | [d] => [d] ++ lit "e" ++ ex
            | d :: ds' => [d] ++ lit "." ++ ds' ++ lit "e" ++ ex
            | [] => []
            end in
        sign ++ body
  end.

Local Close Scope Z_scope.

(** ** Values and rows *)

Inductive value : Type :=
| VUndef
| VNull
| VStr (s : str)
| VNum (n : number).

(** [String(v)] *)
Definition toStr (v : value) : str :=
  match v with
  | VUndef => lit "undefined"
  | VNull => lit "null"
  | VStr s => s
  | VNum n => numToString n
  end.

(** [Number(v)] *)
Definition toNumber (v : value) : number :=
  match v with
  | VUndef => NaN
  | VNull => Fin 0 0
  | VStr s => toNumberStr s
  | VNum n => n
  end.

(** [parseFloat(v)], which reads the string form of its argument. *)
Definition parseFloat (v : value) : number := parseFloatStr (toStr v).

(** [v == s] for a string [s]. *)
Definition looseEqStr (v : value) (s : str) : bool :=
  match v with
  | VUndef => false
  | VNull => false
  | VStr t => str_eqb t s
  | VNum n => num_eqb n (toNumberStr s)
  end.

(** [a < b] *)
Definition lessThan (a b : value) : bool :=
  match a, b with
  | VStr s, VStr t => str_ltb s t
  | _, _ => num_ltb (toNumber a) (toNumber b)
  end.

Definition Row := list (str * value).

(** [row[field]] on the fields that the row itself holds.  For a name that
    the row lacks and that Object.prototype defines the code reads the
    inherited member instead; statements about absent fields leave these
    names out. *)
Fixpoint get (row : Row) (field : str) : value :=
  match row with
  | [] => VUndef
  | (k, v) :: row' => if str_eqb k field then v else get row' field
  end.

(** [row[field] = v].  For the name __proto__ the code sets the prototype
    and makes no field, and it enumerates integer-like names first; neither
    is modelled. *)
Fixpoint set (row : Row) (field : str) (v : value) : Row :=
  match row with
  | [] => [(field, v)]
  | (k, w) :: row' =>
      if str_eqb k field then (k, v) :: row' else (k, w) :: set row' field v
  end.

(** [{ ...row, ...updates }] *)
Definition spread (row updates : Row) : Row :=
  fold_left (fun r kv => set r (fst kv) (snd kv)) updates row.

(** ** Errors *)

Inductive error : Type :=
| Error (message : str)
| SyntaxError (pattern : str).

Inductive res (A : Type) : Type :=
| Ok (a : A)
| Throw (e : error).

Arguments Ok {A} a.
Arguments Throw {A} e.

Definition bind {A B : Type} (c : res A) (k : A -> res B) : res B :=
  match c with
  | Ok a => k a
  | Throw e => Throw e
  end.

Notation "x <- c ;; k" := (bind c (fun x => k))
  (at level 61, c at next level, right associativity).

(** [l.some(f)], [l.every(f)] and [l.filter(f)] for a callback that may
    throw; the first two stop at the first decisive element. *)
Fixpoint someM {A : Type} (f : A -> res bool) (l : list A) : res bool :=
  match l with
  | [] => Ok false
  | x :: l' => b <- f x ;; if b then Ok true else someM f l'
  end.

Fixpoint everyM {A : Type} (f : A -> res bool) (l : list A) : res bool :=
  match l with
  | [] => Ok true
  | x :: l' => b <- f x ;; if b then everyM f l' else Ok false
  end.

Fixpoint filterM {A : Type} (f : A -> res bool) (l : list A) : res (list A) :=
  match l with
  | [] => Ok []
  | x :: l' =>
      b <- f x ;;
      r <- filterM f l' ;;
      Ok (if b then x :: r else r)
  end.

(** ** The table files *)

Definition store := str -> option (list Row).

(** What [JSON.parse(JSON.stringify(row))] keeps of a row. *)
Definition jsonValue (v : value) : value :=
  match v with
  | VNum (Fin m e) => VNum (Fin m e)
  | VNum _ => VNull
  | _ => v
  end.

Definition jsonRow (r : Row) : Row :=
  map (fun kv => (fst kv, jsonValue (snd kv)))
      (filter (fun kv => match snd kv with VUndef => false | _ => true end) r).

(** [load]: a missing file reads as the empty table; what is read was
    parsed from JSON text. *)
Definition load (st : store) (table : str) : list Row :=
  match st table with
  | Some data => map jsonRow data
  | None => []
  end.

(** [save]: the file of [table] now holds the serialisation of [data]. *)
Definition save (st : store) (table : str) (data : list Row) : store :=
  fun t => if str_eqb t table then Some (map jsonRow data) else st t.

(** ** [splitRespectingQuotes] *)

Record SplitState : Type := mkSplit
  { sq_result : list str;
    sq_current : str;
    sq_inQuotes : bool;
    sq_quoteChar : option ascii }.

Definition isQuoteChar (q : option ascii) (c : ascii) : bool :=
  match q with
  | Some x => chr_eqb c x
  | None => false
  end.

Definition splitStep (delimiter : ascii) (st : SplitState) (char : ascii)
  : SplitState :=
  if isQuote char && negb (sq_inQuotes st) then
    mkSplit (sq_result st) (sq_current st ++ [char]) true (Some char)
  else if isQuoteChar (sq_quoteChar st) char && sq_inQuotes st then
    mkSplit (sq_result st) (sq_current st ++ [char]) false None
  else if chr_eqb char delimiter && negb (sq_inQuotes st) then
    mkSplit (sq_result st ++ [trim (sq_current st)]) []
            (sq_inQuotes st) (sq_quoteChar st)
  else
    mkSplit (sq_result st) (sq_current st ++ [char])
            (sq_inQuotes st) (sq_quoteChar st).

Definition splitFinish (st : SplitState) : list str :=
  match trim (sq_current st) with
  | [] => sq_result st
  | _ :: _ => sq_result st ++ [trim (sq_current st)]
  end.

Definition splitRespectingQuotesBy (delimiter : ascii) (s : str) : list str :=
  splitFinish (fold_left (splitStep delimiter) s (mkSplit [] [] false None)).

(** The default delimiter. *)
Definition splitRespectingQuotes (s : str) : list str :=
  splitRespectingQuotesBy ","%char s.

(** ** [splitLogicalOperator] *)

Record LogicState : Type := mkLogic
  { lg_parts : list str;
    lg_current : str;
    lg_inQuotes : bool;
    lg_quoteChar : option ascii;
    lg_depth : Z }.

(** [new RegExp(`\\s+${operator}\\s+`, "i")], for the words OR and AND. *)
Definition operatorRe (operator : str) : re :=
  cat [plus true isSpace; cat (map chrI operator); plus true isSpace].

(** [i === 0 || clause[i - 1] !== "\\"] *)
Definition notEscaped (prev : option ascii) : bool :=
  match prev with
  | None => true
  | Some p => negb (chr_eqb p "\"%char)
  end.

(** The update of the quote flag and of the depth by one character. *)
Definition logicScan (prev : option ascii) (char : ascii) (st : LogicState)
  : LogicState :=
  if isQuote char && negb (lg_inQuotes st) && notEscaped prev then
    mkLogic (lg_parts st) (lg_current st) true (Some char) (lg_depth st)
  else if isQuoteChar (lg_quoteChar st) char && lg_inQuotes st
          && notEscaped prev then
    mkLogic (lg_parts st) (lg_current st) false None (lg_depth st)
  else if chr_eqb char "("%char && negb (lg_inQuotes st) then
    mkLogic (lg_parts st) (lg_current st) (lg_inQuotes st) (lg_quoteChar st)
            (lg_depth st + 1)
  else if chr_eqb char ")"%char && negb (lg_inQuotes st) then
    mkLogic (lg_parts st) (lg_current st) (lg_inQuotes st) (lg_quoteChar st)
            (lg_depth st - 1)
  else st.

(** The length of the operator match that starts at the current position,
    when [remaining.match(regex)] succeeds with [match.index === 0]. *)
Definition operatorAt (operator : str) (remaining : str) : option nat :=
  match search (operatorRe operator) remaining with
  | Some m => if Nat.eqb (index m) 0 then Some (length (matched m)) else None
  | None => None
  end.

(** The loop over [clause]: [rest] is [clause.substring(i)], [prev] is
    [clause[i - 1]], and [skip] counts the characters that
    [i += match[0].length - 1] jumps over. *)
Fixpoint logicLoop (operator : str) (rest : str) (prev : option ascii)
         (skip : nat) (st : LogicState) : LogicState :=
  match rest with
  | [] => st
  | char :: rest' =>
      match skip with
      | S n => logicLoop operator rest' (Some char) n st
      | O =>
          let st1 := logicScan prev char st in
          let found :=
            if negb (lg_inQuotes st1) && (lg_depth st1 =? 0)%Z
            then operatorAt operator rest else None in
          match found with
          | Some len =>
              logicLoop operator rest' (Some char) (len - 1)
                (mkLogic (lg_parts st1 ++ [trim (lg_current st1)]) []
                         (lg_inQuotes st1) (lg_quoteChar st1) (lg_depth st1))
          | None =>
              logicLoop operator rest' (Some char) 0
                (mkLogic (lg_parts st1) (lg_current st1 ++ [char])
                         (lg_inQuotes st1) (lg_quoteChar st1) (lg_depth st1))
          end
      end
  end.

Definition splitLogicalOperator (clause : str) (operator : str) : list str :=
  let st := logicLoop operator clause None 0 (mkLogic [] [] false None 0) in
  let parts :=
    match trim (lg_current st) with
    | [] => lg_parts st
    | _ :: _ => lg_parts st ++ [trim (lg_current st)]
    end in
  match parts with
  | [] => [clause]
  | _ :: _ => parts
  end.

(** ** Quote stripping and LIKE patterns *)

(** [v.replace(/^[q]|[q]$/g, empty)], where [q] stands for the double and
    the single quote: the scan removes a quote at index 0, resumes after it,
    and removes a quote that ends the string. *)
Definition stripEndQuote (s : str) : str :=
  match rev s with
  | c :: r => if isQuote c then rev r else s
  | [] => s
  end.

Definition stripQuotes (v : str) : str :=
  match v with
  | c :: v' => if isQuote c then stripEndQuote v' else stripEndQuote v
  | [] => []
  end.

(** [v.replace(/^\(|\)$/g, empty)] *)
Definition stripEndParen (s : str) : str :=
  match rev s with
  | c :: r => if chr_eqb c ")"%char then rev r else s
  | [] => s
  end.

Definition stripListParens (v : str) : str :=
  match v with
  | c :: v' => if chr_eqb c "("%char then stripEndParen v' else stripEndParen v
  | [] => []
  end.

(** The class [[.*+?^${}()|[\]\\]]. *)
Definition isSyntaxChar (c : ascii) : bool :=
  existsb (chr_eqb c) (lit ".*+?^${}()|[]\").

(** [.replace(/[.*+?^${}()|[\]\\]/g, '\\$&')] *)
Definition escapeRegExp (s : str) : str :=
  flat_map (fun c => if isSyntaxChar c then ["\"%char; c] else [c]) s.

(** [.replace(/%/g, ".*")] *)
Definition replacePercent (s : str) : str :=
  flat_map (fun c => if chr_eqb c "%"%char then lit ".*" else [c]) s.

(** [.replace(/_/g, ".")] *)
Definition replaceUnderscore (s : str) : str :=
  flat_map (fun c => if chr_eqb c "_"%char then lit "." else [c]) s.

Definition likePattern (value : str) : str :=
  lit "^" ++ replaceUnderscore (replacePercent (escapeRegExp value)) ++ lit "$".

(** [new RegExp(pattern, "i")] on the fragment of the pattern language made
    of literal characters, escaped syntax characters, [.], [$] and a
    star after a one-character atom.  Any other pattern is rejected, which
    over-approximates the SyntaxError of the constructor. *)
Fixpoint parsePattern (p : str) : option re :=
  match p with
  | [] => Some Eps
  | c :: p1 =>
      if chr_eqb c "\"%char then
        match p1 with
        | e :: p2 =>
            if isSyntaxChar e then
              match p2 with
              | x :: p3 =>
                  if chr_eqb x "*"%char
                  then option_map (Seq (Star true (fun y => chr_eqb (canon y) (canon e))))
                                  (parsePattern p3)
                  else option_map (Seq (chrI e)) (parsePattern p2)
              | [] => option_map (Seq (chrI e)) (parsePattern p2)
              end
            else None
        | [] => None
        end
      else if chr_eqb c "$"%char then option_map (Seq Eos) (parsePattern p1)
      else if isSyntaxChar c && negb (chr_eqb c "."%char) then None
      else
        let cls := if chr_eqb c "."%char then isDot
                   else fun y => chr_eqb (canon y) (canon c) in
        match p1 with
        | x :: p2 =>
            if chr_eqb x "*"%char
            then option_map (Seq (Star true cls)) (parsePattern p2)
            else option_map (Seq (Cls cls)) (parsePattern p1)
        | [] => option_map (Seq (Cls cls)) (parsePattern p1)
        end
  end.

(** A compiled pattern: whether it starts with [^], and its body. *)
Definition compileRegExp (pattern : str) : res (bool * re) :=
  let (anchored, body) :=
    match pattern with
    | c :: p' => if chr_eqb c "^"%char then (true, p') else (false, pattern)
    | [] => (false, pattern)
    end in
  match parsePattern body with
  | Some r => Ok (anchored, r)
  | None => Throw (SyntaxError pattern)
  end.

(** [regex.test(s)] *)
Definition regexTest (compiled : bool * re) (s : str) : bool :=
  if fst compiled then testAnchored (snd compiled) s
  else match search (snd compiled) s with Some _ => true | None => false end.

(** ** [evalCondition] *)

(** [/(\w+)\s*(=|>=|<=|>|<|LIKE|IN)\s*(\([^\)]+\)|[q][^q]*[q]|\S+)/i],
    where [q] stands for the double and the single quote. *)
Definition conditionRe : re :=
  cat [ Grp 1 (plus true isWord);
        Star true isSpace;
        Grp 2 (alts [litI "="; litI ">="; litI "<="; litI ">"; litI "<";
                     litI "LIKE"; litI "IN"]);
        Star true isSpace;
        Grp 3 (alts [ cat [chr "("%char;
                           plus true (fun c => negb (chr_eqb c ")"%char));
                           chr ")"%char];
                      cat [Cls isQuote;
                           Star true (fun c => negb (isQuote c));
                           Cls isQuote];
                      plus true isNonSpace ]) ].

Definition groupOr (i : nat) (m : result) : str :=
  match group i m with
  | Some s => s
  | None => []
  end.

(** The [switch] on the upper-cased operator. *)
Definition evalOperator (op : str) (actual : value) (rawValue : str)
  : res bool :=
  let OP := toUpperCase op in
  if str_eqb OP (lit "=") then
    Ok (looseEqStr actual (stripQuotes rawValue))
  else if str_eqb OP (lit ">") then
    Ok (num_gtb (parseFloat actual) (parseFloatStr rawValue))
  else if str_eqb OP (lit "<") then
    Ok (num_ltb (parseFloat actual) (parseFloatStr rawValue))
  else if str_eqb OP (lit ">=") then
    Ok (num_geb (parseFloat actual) (parseFloatStr rawValue))
  else if str_eqb OP (lit "<=") then
    Ok (num_leb (parseFloat actual) (parseFloatStr rawValue))
  else if str_eqb OP (lit "LIKE") then
    regex <- compileRegExp (likePattern (stripQuotes rawValue)) ;;
    Ok (regexTest regex (toStr actual))
  else if str_eqb OP (lit "IN") then
    let list := map stripQuotes
                    (splitRespectingQuotes (stripListParens rawValue)) in
    Ok (existsb (str_eqb (toStr actual)) list)
  else Ok false.

Definition evalCondition (expr : str) (row : Row) : res bool :=
  match search conditionRe expr with
  | None => Ok false
  | Some m =>
      evalOperator (groupOr 2 m) (get row (groupOr 1 m)) (groupOr 3 m)
  end.

(** ** [evalWhere] *)

(** [while (s.startsWith("(") && s.endsWith(")")) s = s.slice(1, -1).trim()];
    every round shortens the string, so its length bounds the rounds. *)
Fixpoint unwrapLoop (fuel : nat) (s : str) : str :=
  match fuel with
  | O => s
  | S n =>
      if startsWithChar "("%char s && endsWithChar ")"%char s
      then unwrapLoop n (trim (slice_1_m1 s))
      else s
  end.

Definition unwrap (s : str) : str := unwrapLoop (length s) (trim s).

Definition evalAndPart (row : Row) (expr : str) : res bool :=
  evalCondition (unwrap expr) row.

Definition evalOrPart (row : Row) (orPart : str) : res bool :=
  everyM (evalAndPart row) (splitLogicalOperator (unwrap orPart) (lit "AND")).

Definition evalWhere (whereClause : str) (row : Row) : res bool :=
  someM (evalOrPart row) (splitLogicalOperator whereClause (lit "OR")).

(** ** The statement handlers *)

Inductive reply : Type :=
| Rows (rows : list Row)
| Inserted (row : Row)
| Updated (count : nat)
| Undefined.

(** [coerceValue] *)
Definition coerceValue (val : value) : value :=
  match val with
  | VNull => val
  | VUndef => val
  | _ => let num := toNumber val in
         if isNaN num then val else VNum num
  end.

(** The comparison callback of [rows.sort]; [desc] is
    [orderDir?.toUpperCase() === DESC]. *)
Definition compareRows (orderField : str) (desc : bool) (a b : Row) : Z :=
  let aVal := coerceValue (get a orderField) in
  let bVal := coerceValue (get b orderField) in
  if lessThan aVal bVal then (if desc then 1 else -1)%Z
  else if lessThan bVal aVal then (if desc then -1 else 1)%Z
  else 0%Z.

(** [Array.prototype.sort] is stable; it is modelled by the stable
    insertion sort, with which every stable sort agrees when the callback
    is a consistent comparison. *)
Fixpoint insertBy {A : Type} (cmp : A -> A -> Z) (x : A) (l : list A)
  : list A :=
  match l with
  | [] => [x]
  | y :: l' => if (cmp x y <=? 0)%Z then x :: l else y :: insertBy cmp x l'
  end.

Definition sortBy {A : Type} (cmp : A -> A -> Z) (l : list A) : list A :=
  fold_right (insertBy cmp) [] l.

Definition isDesc (orderDir : option str) : bool :=
  match orderDir with
  | Some d => str_eqb (toUpperCase d) (lit "DESC")
  | None => false
  end.

(** [parseInt(limitStr, 10)] on a run of digits. *)
Definition parseInt (s : str) : nat :=
  Z.to_nat (digitsValue 10 (takeWhile isDigit s)).

(** The projection of a row on the selected fields. *)
Definition project (fields : list str) (r : Row) : Row :=
  fold_left (fun obj f => set obj f (get r f)) fields [].

(** [/SELECT (.+?) FROM (\w+)(?: WHERE (.*?))?(?: ORDER BY (\w+)(?: (ASC|DESC))?)?(?: LIMIT (\d+))?$/i] *)
Definition selectRe : re :=
  cat [ litI "SELECT "; Grp 1 (plus false isDot);
        litI " FROM "; Grp 2 (plus true isWord);
        Opt (cat [litI " WHERE "; Grp 3 (Star false isDot)]);
        Opt (cat [litI " ORDER BY "; Grp 4 (plus true isWord);
                  Opt (cat [litI " "; Grp 5 (Alt (litI "ASC") (litI "DESC"))])]);
        Opt (cat [litI " LIMIT "; Grp 6 (plus true isDigit)]);
        Eos ].

Definition select (sql : str) (st : store) : res reply * store :=
  match search selectRe sql with
  | None => (Throw (Error (lit "Invalid SELECT syntax")), st)
  | Some m =>
      let columns := groupOr 1 m in
      let table := groupOr 2 m in
      let rows := load st table in
      let filtered :=
        match group 3 m with
        | Some ((_ :: _) as whereClause) => filterM (evalWhere whereClause) rows
        | _ => Ok rows
        end in
      (rows1 <- filtered ;;
       let rows2 :=
         match group 4 m with
         | Some ((_ :: _) as orderField) =>
             sortBy (compareRows orderField (isDesc (group 5 m))) rows1
         | _ => rows1
         end in
       let rows3 :=
         match group 6 m with
         | Some ((_ :: _) as limitStr) => firstn (parseInt limitStr) rows2
         | _ => rows2
         end in
       let rows4 :=
         if str_eqb (trim columns) (lit "*") then rows3
         else map (project (map trim (splitChar ","%char [] columns))) rows3 in
       Ok (Rows rows4),
       st)
  end.

(** [/INSERT INTO (\w+)\s*\((.+?)\)\s*VALUES\s*\((.+)\)/i] *)
Definition insertRe : re :=
  cat [ litI "INSERT INTO "; Grp 1 (plus true isWord);
        Star true isSpace; chr "("%char; Grp 2 (plus false isDot);
        chr ")"%char; Star true isSpace; litI "VALUES"; Star true isSpace;
        chr "("%char; Grp 3 (plus true isDot); chr ")"%char ].

(** [values[i]] *)
Definition valueAt (values : list str) (i : nat) : value :=
  match nth_error values i with
  | Some v => VStr v
  | None => VUndef
  end.

(** [columns.forEach((c, i) => (row[c] = values[i]))], from index [i]. *)
Fixpoint zipRow (columns values : list str) (i : nat) (row : Row) : Row :=
  match columns with
  | [] => row
  | c :: columns' => zipRow columns' values (S i) (set row c (valueAt values i))
  end.

Definition insert (sql : str) (st : store) : res reply * store :=
  match search insertRe sql with
  | None => (Throw (Error (lit "Invalid INSERT syntax")), st)
  | Some m =>
      let table := groupOr 1 m in
      let columns := splitRespectingQuotes (groupOr 2 m) in
      let values := map stripQuotes (splitRespectingQuotes (groupOr 3 m)) in
      let row := zipRow columns values 0 [] in
      let data := load st table ++ [row] in
      (Ok (Inserted row), save st table data)
  end.

(** [/DELETE FROM (\w+)(?: WHERE (.+))?$/i] *)
Definition deleteRe : re :=
  cat [ litI "DELETE FROM "; Grp 1 (plus true isWord);
        Opt (cat [litI " WHERE "; Grp 2 (plus true isDot)]);
        Eos ].

Definition delete (sql : str) (st : store) : res reply * store :=
  match search deleteRe sql with
  | None => (Throw (Error (lit "Invalid DELETE syntax")), st)
  | Some m =>
      let table := groupOr 1 m in
      let data := load st table in
      let kept :=
        match group 2 m with
        | Some ((_ :: _) as whereClause) =>
            filterM (fun row => b <- evalWhere whereClause row ;; Ok (negb b))
                    data
        | _ => Ok []
        end in
      match kept with
      | Ok data' => (Ok Undefined, save st table data')
      | Throw e => (Throw e, st)
      end
  end.

(** [/UPDATE (\w+)\s+SET\s+(.+?)(?:\s+WHERE\s+(.+))?$/i] *)
Definition updateRe : re :=
  cat [ litI "UPDATE "; Grp 1 (plus true isWord);
        plus true isSpace; litI "SET"; plus true isSpace;
        Grp 2 (plus false isDot);
        Opt (cat [plus true isSpace; litI "WHERE"; plus true isSpace;
                  Grp 3 (plus true isDot)]);
        Eos ].

(** The body of [pairs.forEach]: one assignment of the SET clause. *)
Definition addAssignment (updates : Row) (pair : str) : Row :=
  match indexOfChar "="%char pair with
  | None => updates
  | Some eqIndex =>
      let key := trim (firstn eqIndex pair) in
      let value := stripQuotes (trim (skipn (eqIndex + 1) pair)) in
      set updates key (VStr value)
  end.

(** [data.map(row => ...)] with the counter [count] threaded through. *)
Fixpoint updateRows (whereClause : option str) (updates : Row)
         (data : list Row) (count : nat) : res (list Row * nat) :=
  match data with
  | [] => Ok ([], count)
  | row :: data' =>
      hit <- match whereClause with
             | Some ((_ :: _) as w) => evalWhere w row
             | _ => Ok true
             end ;;
      let row' := if hit then spread row updates else row in
      let count' := if hit then S count else count in
      r <- updateRows whereClause updates data' count' ;;
      Ok (row' :: fst r, snd r)
  end.

Definition update (sql : str) (st : store) : res reply * store :=
  match search updateRe sql with
  | None => (Throw (Error (lit "Invalid UPDATE syntax")), st)
  | Some m =>
      let table := groupOr 1 m in
      let data := load st table in
      let pairs := splitRespectingQuotes (groupOr 2 m) in
      let updates := fold_left addAssignment pairs [] in
      match updateRows (group 3 m) updates data 0 with
      | Ok (data', count) => (Ok (Updated count), save st table data')
      | Throw e => (Throw e, st)
      end
  end.

(** [query] *)
Definition query (sql : str) (st : store) : res reply * store :=
  let sql := trim sql in
  let cmd := takeWhile isNonSpace sql in
  let command := toUpperCase cmd in
  if str_eqb command (lit "SELECT") then select sql st
  else if str_eqb command (lit "INSERT") then insert sql st
  else if str_eqb command (lit "DELETE") then delete sql st
  else if str_eqb command (lit "UPDATE") then update sql st
  else (Throw (Error (lit "Unsupported SQL: " ++ command)), st).

(** ** Specification-level definitions *)

(** A double-quoted literal. *)
Definition quoted (s : string) : str := dquote :: lit s ++ [dquote].

(** The WHERE filter of the mixed AND/OR test:
    (city = [Berlin] AND age > 30) OR city = [Paris], the two city names
    written between double quotes. *)
Definition mixedFilter : str :=
  lit "(city = " ++ quoted "Berlin" ++ lit " AND age > 30) OR city = "
      ++ quoted "Paris".

(** The value of a leaf condition, which never throws (see below). *)
Definition condValue (expr : str) (row : Row) : bool :=
  match evalCondition expr row with
  | Ok b => b
  | Throw _ => false
  end.

(** A row with string fields, as INSERT builds it. *)
Definition rowOf (l : list (string * string)) : Row :=
  map (fun kv => (lit (fst kv), VStr (lit (snd kv)))) l.

(** The matcher that LIKE stands for: one item per character of the
    literal. *)
Definition likeAtom (c : ascii) : re :=
  if chr_eqb c "%"%char then Star true isDot
  else if chr_eqb c "_"%char then Cls isDot
  else chrI c.

Fixpoint likeRe (value : str) : re :=
  match value with
  | [] => Seq Eos Eps
  | c :: v => Seq (likeAtom c) (likeRe v)
  end.

(** The image of one character of the literal in the pattern text. *)
Definition likeChar (c : ascii) : str :=
  if isSyntaxChar c then ["\"%char; c]
  else if chr_eqb c "%"%char then lit ".*"
  else if chr_eqb c "_"%char then lit "."
  else [c].

(** Wildcard matching as the specification words it: [%] stands for any
    run of characters, [_] for any one character, and every other character
    for itself up to case. *)
Fixpoint likeMatch (pattern : str) (s : str) : bool :=
  match pattern with
  | [] => match s with [] => true | _ :: _ => false end
  | c :: p =>
      if chr_eqb c "%"%char then
        (fix anySuffix (t : str) : bool :=
           likeMatch p t
           || match t with
              | [] => false
              | _ :: t' => anySuffix t'
              end) s
      else if chr_eqb c "_"%char then
        match s with
        | _ :: s' => likeMatch p s'
        | [] => false
        end
      else
        match s with
        | x :: s' => chr_eqb (canon x) (canon c) && likeMatch p s'
        | [] => false
        end
  end.

(** Regular expressions without the end anchor. *)
Fixpoint anchorFree (r : re) : bool :=
  match r with
  | Eos => false
  | Seq a b => anchorFree a && anchorFree b
  | Alt a b => anchorFree a && anchorFree b
  | Opt a => anchorFree a
  | Grp _ a => anchorFree a
  | _ => true
  end.

(** The pattern text between [^] and [$]. *)
Definition likeBody (value : str) : str :=
  replaceUnderscore (replacePercent (escapeRegExp value)).

(** Replace a closed term by its value. *)
Ltac eval_closed t :=
  let v := eval vm_compute in t in
  replace t with v by (vm_compute; reflexivity).

(** The value of a WHERE filter: a disjunction over the OR-branches of
    conjunctions over their AND-terms. *)
Definition whereValue (whereClause : str) (row : Row) : bool :=
  existsb
    (fun orPart =>
       forallb (fun expr => condValue (unwrap expr) row)
               (splitLogicalOperator (unwrap orPart) (lit "AND")))
    (splitLogicalOperator whereClause (lit "OR")).

(** ** Invariants of the matcher *)

Definition suffixOf (r s : str) : Prop := exists a, s = a ++ r.

Definition cont := str -> caps -> option (str * caps).

(** What a continuation returns is a suffix of what it was given. *)
Definition kSuffix (k : cont) : Prop :=
  forall s c r c', k s c = Some (r, c') -> suffixOf r s.

(** [k'] acts on a text as [k] acts on that text followed by [b]: a
    success of [k] that leaves exactly [b] is a success of [k'] that leaves
    nothing, and a success of [k'] is a success of [k]. *)
Definition kRel (b : str) (k k' : cont) : Prop :=
  forall t c,
    (forall c', k (t ++ b) c = Some (b, c') -> k' t c = Some ([], c'))
    /\ (k' t c <> None -> k (t ++ b) c <> None).

(** ** Tables of the test suite *)

(** The store that holds one table. *)
Definition tableStore (table : string) (rows : list Row) : store :=
  fun t => if str_eqb t (lit table) then Some rows else None.

Definition testUsers : list Row :=
  [ rowOf [("id", "1"); ("name", "Alice"); ("age", "25"); ("city", "Berlin")];
    rowOf [("id", "2"); ("name", "Bob"); ("age", "30"); ("city", "Paris")];
    rowOf [("id", "3"); ("name", "Carol"); ("age", "35"); ("city", "Berlin")];
    rowOf [("id", "4"); ("name", "Dave"); ("age", "28"); ("city", "London")] ]%string.

(** Evaluate the splits and the searches on closed texts. *)
Ltac eval_splits :=
  repeat match goal with
         | |- context [splitLogicalOperator ?a ?b] =>
             eval_closed (splitLogicalOperator a b)
         end.

Ltac eval_searches :=
  repeat match goal with
         | |- context [search ?r ?x] => eval_closed (search r x)
         end.

(** The start state of the quote-aware scan. *)
Definition splitInit : SplitState := mkSplit [] [] false None.

(** The statement of the quoted-comma test: INSERT INTO users (id, name)
    VALUES (1, [Smith, John]), the name written between double quotes. *)
Definition insertSmith : str :=
  lit "INSERT INTO users (id, name) VALUES (1, " ++ quoted "Smith, John"
      ++ lit ")".


(** One-column tables: the rows hold the given strings under [field]. *)
Definition column (field : string) (values : list string) : list Row :=
  map (fun v => rowOf [(field, v)]) values.

(** The line feed, and a field value of two lines: a, line feed, b. *)
Definition LF : ascii := ascii_of_N 10.

Definition twoLines : str := ["a"%char; LF; "b"%char].

(** The directory without any table file. *)
Definition emptyStore : store := fun _ => None.

(** A session: the statements run in order on one instance; the reply of
    the last one. *)
Fixpoint session (statements : list str) (st : store) : option (res reply) :=
  match statements with
  | [] => None
  | [sql] => Some (fst (query sql st))
  | sql :: rest => session rest (snd (query sql st))
  end.

(** The text of a statement of the test suite; a back quote stands for a
    double quote. *)
Definition sqlText (s : string) : str :=
  map (fun c => if chr_eqb c "`"%char then dquote else c) (lit s).

(** The rows of a reply that is a list of rows. *)
Definition rowsOf (r : option (res reply)) : option (list Row) :=
  match r with
  | Some (Ok (Rows rows)) => Some rows
  | _ => None
  end.

(** ** Definitions for the further properties *)

From Stdlib Require Import Sorted Permutation.

(** Whether a row has the field [k]. *)
Definition hasKey (row : Row) (k : str) : bool :=
  existsb (fun kv => str_eqb (fst kv) k) row.

(** The names of the members that every row inherits from
    Object.prototype. *)
Definition inheritedNames : list str :=
  [ lit "constructor"; lit "__defineGetter__"; lit "__defineSetter__";
    lit "hasOwnProperty"; lit "__lookupGetter__"; lit "__lookupSetter__";
    lit "isPrototypeOf"; lit "propertyIsEnumerable"; lit "toString";
    lit "valueOf"; lit "__proto__"; lit "toLocaleString" ].

Definition inheritedName (k : str) : bool :=
  existsb (str_eqb k) inheritedNames.

(** The largest integer below which every integer is a double: 2^53. *)
Definition maxExact : Z := 9007199254740992.

(** The values that JSON text can hold as they are. *)
Definition jsonValueOk (v : value) : bool :=
  match v with
  | VUndef => false
  | VNum (Fin _ _) => true
  | VNum _ => false
  | _ => true
  end.

Definition jsonOk (r : Row) : bool :=
  forallb (fun kv => jsonValueOk (snd kv)) r.

(** The row that INSERT builds from the captured column and value lists. *)
Definition insertedRow (m : result) : Row :=
  zipRow (splitRespectingQuotes (groupOr 2 m))
         (map stripQuotes (splitRespectingQuotes (groupOr 3 m))) 0 [].

(** The assignments of the SET clause captured by UPDATE. *)
Definition assignments (m : result) : Row :=
  fold_left addAssignment (splitRespectingQuotes (groupOr 2 m)) [].

(** Whether a row passes an optional WHERE clause; an absent or empty
    clause lets every row pass. *)
Definition passes (whereClause : option str) (row : Row) : bool :=
  match whereClause with
  | Some ((_ :: _) as w) => whereValue w row
  | _ => true
  end.

Definition keys (r : Row) : list str := map fst r.

(** The sort key of a row under ORDER BY [field]. *)
Definition sortKey (field : str) (r : Row) : value :=
  coerceValue (get r field).

(** The key is a number other than NaN. *)
Definition numericKey (field : str) (r : Row) : Prop :=
  exists n : number, sortKey field r = VNum n /\ isNaN n = false.

(** The key stayed a string. *)
Definition stringKey (field : str) (r : Row) : Prop :=
  exists s : str, sortKey field r = VStr s.

(** The order of two rows in the result: by number or by string, upwards
    or, with DESC, downwards. *)
Definition keyLe (a b : value) : Prop :=
  match a, b with
  | VNum x, VNum y => num_leb x y = true
  | VStr s, VStr t => str_ltb t s = false
  | _, _ => False
  end.

Definition inOrder (field : str) (desc : bool) (a b : Row) : Prop :=
  if desc then keyLe (sortKey field b) (sortKey field a)
  else keyLe (sortKey field a) (sortKey field b).

(** [s.split(",").map(x => x.trim())] without a last segment that is
    empty. *)
Definition plainSplit (s : str) : list str :=
  let segs := map trim (splitChar ","%char [] s) in
  match last segs [] with
  | [] => removelast segs
  | _ :: _ => segs
  end.

Definition noQuote (s : str) : bool := forallb (fun c => negb (isQuote c)) s.

(** Characters that neither open or close a quote nor a parenthesis, and
    those among them that are no white space. *)
Definition quiet (c : ascii) : bool :=
  negb (isQuote c) && negb (chr_eqb c "("%char) && negb (chr_eqb c ")"%char).

Definition plain (c : ascii) : bool := quiet c && negb (isSpace c).

(** A term without white space, quotes and parentheses, such as a=1. *)
Definition plainText (t : str) : bool := forallb plain t.

(** The logical scan state with [t] added to the current term. *)
Definition addCurrent (st : LogicState) (t : str) : LogicState :=
  mkLogic (lg_parts st) (lg_current st ++ t) (lg_inQuotes st)
          (lg_quoteChar st) (lg_depth st).

(** An operator word that starts with a character other than white
    space. *)
Definition operatorWord (op : str) : bool :=
  match op with
  | o :: _ => negb (isSpace o)
  | [] => false
  end.

(** The character before the position reached after [t]. *)
Definition lastChar (prev : option ascii) (t : str) : option ascii :=
  match rev t with
  | x :: _ => Some x
  | [] => prev
  end.

Definition noBackslash (t : str) : bool :=
  forallb (fun c => negb (chr_eqb c "\"%char)) t.

(** The four comparison operators of a leaf condition. *)
Definition comparisonOps : list str := [lit ">"; lit "<"; lit ">="; lit "<="].

(** A non-empty run of decimal digits. *)
Definition digits (s : str) : bool :=
  match s with
  | [] => false
  | _ :: _ => forallb isDigit s
  end.

(** Text at which [parseFloat] stops reading after integer digits. *)
Definition stopsNumber (rest : str) : bool :=
  match rest with
  | [] => true
  | c :: _ =>
      negb (isDigit c) && negb (chr_eqb c "."%char)
      && negb (chr_eqb c "e"%char || chr_eqb c "E"%char)
  end.

(** A LIKE literal without wildcards. *)
Definition noWildcard (v : str) : bool :=
  forallb (fun c => negb (chr_eqb c "%"%char) && negb (chr_eqb c "_"%char)) v.

(** [t] inside [n] layers of parentheses. *)
Fixpoint wrapped (n : nat) (t : str) : str :=
  match n with
  | O => t
  | S n' => "("%char :: wrapped n' t ++ [")"%char]
  end.

(** * Properties *)

Unset Implicit Arguments.

(** ** Tactics and basic facts *)

Lemma chr_eqb_true (a b : ascii) : chr_eqb a b = true <-> a = b.
Proof. apply Ascii.eqb_eq. Qed.

Lemma chr_eqb_refl (a : ascii) : chr_eqb a a = true.
Proof. apply Ascii.eqb_refl. Qed.

Lemma str_eqb_true (a b : str) : str_eqb a b = true <-> a = b.
Proof.
  revert b; induction a as [|x a IH]; intros [|y b]; simpl;
    try (split; [discriminate | discriminate]); try tauto.
  rewrite andb_true_iff, chr_eqb_true, IH.
  split; [intros [-> ->]; reflexivity | intros H; inversion H; auto].
Qed.

Lemma str_eqb_refl (a : str) : str_eqb a a = true.
Proof. apply str_eqb_true; reflexivity. Qed.

(** ** The WHERE evaluator on the filters of the test suite *)

Lemma splitOr_mixed :
  splitLogicalOperator mixedFilter (lit "OR")
  = [lit "(city = " ++ quoted "Berlin" ++ lit " AND age > 30)";
     lit "city = " ++ quoted "Paris"].
Proof. vm_compute. reflexivity. Qed.

Lemma splitAnd_mixed :
  splitLogicalOperator
    (unwrap (lit "(city = " ++ quoted "Berlin" ++ lit " AND age > 30)"))
    (lit "AND")
  = [lit "city = " ++ quoted "Berlin"; lit "age > 30"].
Proof. vm_compute. reflexivity. Qed.

Lemma cond_city_Berlin (row : Row) :
  evalCondition (unwrap (lit "city = " ++ quoted "Berlin")) row
  = Ok (looseEqStr (get row (lit "city")) (lit "Berlin")).
Proof.
  unfold evalCondition.
  eval_closed (search conditionRe (unwrap (lit "city = " ++ quoted "Berlin"))).
  reflexivity.
Qed.

Lemma cond_city_Paris (row : Row) :
  evalCondition (unwrap (lit "city = " ++ quoted "Paris")) row
  = Ok (looseEqStr (get row (lit "city")) (lit "Paris")).
Proof.
  unfold evalCondition.
  eval_closed (search conditionRe (unwrap (lit "city = " ++ quoted "Paris"))).
  reflexivity.
Qed.

Lemma cond_age (row : Row) :
  evalCondition (unwrap (lit "age > 30")) row
  = Ok (num_gtb (parseFloat (get row (lit "age"))) (Fin 30 0)).
Proof.
  unfold evalCondition.
  eval_closed (search conditionRe (unwrap (lit "age > 30"))).
  reflexivity.
Qed.

Lemma splitAnd_Paris :
  splitLogicalOperator (unwrap (lit "city = " ++ quoted "Paris")) (lit "AND")
  = [lit "city = " ++ quoted "Paris"].
Proof. vm_compute. reflexivity. Qed.

Lemma evalWhere_mixed (row : Row) :
  evalWhere mixedFilter row
  = Ok ((looseEqStr (get row (lit "city")) (lit "Berlin")
         && num_gtb (parseFloat (get row (lit "age"))) (Fin 30 0))
        || looseEqStr (get row (lit "city")) (lit "Paris")).
Proof.
  unfold evalWhere. rewrite splitOr_mixed.
  cbn [someM]. unfold evalOrPart.
  rewrite splitAnd_mixed, splitAnd_Paris.
  cbn [everyM]. unfold evalAndPart.
  rewrite cond_city_Berlin, cond_age, cond_city_Paris.
  cbn [bind].
  destruct (looseEqStr (get row (lit "city")) (lit "Berlin"));
    destruct (num_gtb (parseFloat (get row (lit "age"))) (Fin 30 0));
    destruct (looseEqStr (get row (lit "city")) (lit "Paris")); reflexivity.
Qed.

(** ** LIKE patterns always compile *)

Lemma likeBody_cons (c : ascii) (v : str) :
  likeBody (c :: v) = likeChar c ++ likeBody v.
Proof.
  unfold likeBody, replaceUnderscore, replacePercent, escapeRegExp.
  cbn [flat_map]. rewrite !flat_map_app. f_equal.
  destruct c as [[] [] [] [] [] [] [] []]; vm_compute; reflexivity.
Qed.

(** No item of the pattern text starts with a star. *)
Lemma likeChar_head (c : ascii) :
  exists x r, likeChar c = x :: r /\ chr_eqb x "*"%char = false.
Proof.
  destruct c as [[] [] [] [] [] [] [] []]; vm_compute; eauto.
Qed.

Lemma likeBody_head (v : str) :
  exists x r, likeBody v ++ lit "$" = x :: r /\ chr_eqb x "*"%char = false.
Proof.
  destruct v as [|c v].
  - vm_compute. eauto.
  - rewrite likeBody_cons.
    destruct (likeChar_head c) as (x & r & -> & H).
    exists x, (r ++ likeBody v ++ lit "$").
    split; [cbn [app]; rewrite <- app_assoc; reflexivity | exact H].
Qed.

Lemma parsePattern_unfold (c : ascii) (p1 : str) :
  parsePattern (c :: p1) =
    if chr_eqb c "\"%char then
      match p1 with
      | e :: p2 =>
          if isSyntaxChar e then
            match p2 with
            | x :: p3 =>
                if chr_eqb x "*"%char
                then option_map
                       (Seq (Star true (fun y => chr_eqb (canon y) (canon e))))
                       (parsePattern p3)
                else option_map (Seq (chrI e)) (parsePattern p2)
            | [] => option_map (Seq (chrI e)) (parsePattern p2)
            end
          else None
      | [] => None
      end
    else if chr_eqb c "$"%char then option_map (Seq Eos) (parsePattern p1)
    else if isSyntaxChar c && negb (chr_eqb c "."%char) then None
    else
      let cls := if chr_eqb c "."%char then isDot
                 else fun y => chr_eqb (canon y) (canon c) in
      match p1 with
      | x :: p2 =>
          if chr_eqb x "*"%char
          then option_map (Seq (Star true cls)) (parsePattern p2)
          else option_map (Seq (Cls cls)) (parsePattern p1)
      | [] => option_map (Seq (Cls cls)) (parsePattern p1)
      end.
Proof. reflexivity. Qed.

Lemma parsePattern_likeChar (c x : ascii) (rest : str) (R : re) :
  chr_eqb x "*"%char = false ->
  parsePattern (x :: rest) = Some R ->
  parsePattern (likeChar c ++ x :: rest) = Some (Seq (likeAtom c) R).
Proof.
  intros Hx HR.
  destruct c as [[] [] [] [] [] [] [] []];
    cbn -[parsePattern];
    rewrite parsePattern_unfold;
    cbn -[parsePattern]; rewrite ?Hx, ?HR; try reflexivity.
Qed.

Lemma parsePattern_like (v : str) :
  parsePattern (likeBody v ++ lit "$") = Some (likeRe v).
Proof.
  induction v as [|c v IH].
  - reflexivity.
  - destruct (likeBody_head v) as (x & r & E & Hx).
    rewrite likeBody_cons, <- app_assoc, E.
    apply parsePattern_likeChar; [exact Hx | rewrite <- E; exact IH].
Qed.

(** The pattern that LIKE builds compiles, to the anchored matcher
    [likeRe]. *)
Lemma compileRegExp_like (v : str) :
  compileRegExp (likePattern v) = Ok (true, likeRe v).
Proof.
  unfold compileRegExp, likePattern. fold (likeBody v).
  cbn [lit list_ascii_of_string app chr_eqb Ascii.eqb Bool.eqb].
  rewrite parsePattern_like. reflexivity.
Qed.

(** ** WHERE evaluation never throws *)

Lemma evalOperator_total (op : str) (actual : value) (rawValue : str) :
  exists b, evalOperator op actual rawValue = Ok b.
Proof.
  unfold evalOperator.
  repeat match goal with
         | |- context [if ?c then _ else _] => destruct c; [eauto | ]
         end; eauto.
  - rewrite compileRegExp_like. cbn [bind]. eauto.
Qed.

Lemma evalCondition_total (expr : str) (row : Row) :
  evalCondition expr row = Ok (condValue expr row).
Proof.
  unfold condValue, evalCondition.
  destruct (search conditionRe expr) as [m|]; [|reflexivity].
  destruct (evalOperator_total (groupOr 2 m) (get row (groupOr 1 m))
                               (groupOr 3 m)) as [b ->].
  reflexivity.
Qed.

Lemma someM_pure {A : Type} (f : A -> res bool) (g : A -> bool) (l : list A) :
  (forall x, f x = Ok (g x)) -> someM f l = Ok (existsb g l).
Proof.
  intros H. induction l as [|x l IH]; [reflexivity|].
  cbn [someM existsb]. rewrite H. cbn [bind].
  destruct (g x); [reflexivity | exact IH].
Qed.

Lemma everyM_pure {A : Type} (f : A -> res bool) (g : A -> bool) (l : list A) :
  (forall x, f x = Ok (g x)) -> everyM f l = Ok (forallb g l).
Proof.
  intros H. induction l as [|x l IH]; [reflexivity|].
  cbn [everyM forallb]. rewrite H. cbn [bind].
  destruct (g x); [exact IH | reflexivity].
Qed.

Lemma filterM_pure {A : Type} (f : A -> res bool) (g : A -> bool) (l : list A) :
  (forall x, f x = Ok (g x)) -> filterM f l = Ok (filter g l).
Proof.
  intros H. induction l as [|x l IH]; [reflexivity|].
  cbn [filterM filter]. rewrite H, IH. cbn [bind].
  destruct (g x); reflexivity.
Qed.

Lemma evalWhere_total (whereClause : str) (row : Row) :
  evalWhere whereClause row = Ok (whereValue whereClause row).
Proof.
  unfold evalWhere, whereValue.
  apply someM_pure. intros orPart. unfold evalOrPart.
  apply everyM_pure. intros expr. unfold evalAndPart.
  apply evalCondition_total.
Qed.

(** ** The matcher is local: what lies after a match is not consulted *)

Lemma suffixOf_refl (s : str) : suffixOf s s.
Proof. exists []. reflexivity. Qed.

Lemma suffixOf_cons (x : ascii) (r s : str) :
  suffixOf r s -> suffixOf r (x :: s).
Proof. intros [a ->]. exists (x :: a). reflexivity. Qed.

Lemma suffixOf_trans (r s t : str) :
  suffixOf r s -> suffixOf s t -> suffixOf r t.
Proof.
  intros [a ->] [b ->]. exists (b ++ a). rewrite app_assoc. reflexivity.
Qed.

Lemma suffixOf_length (r s : str) : suffixOf r s -> length r <= length s.
Proof. intros [a ->]. rewrite length_app. lia. Qed.

Lemma suffixOf_tail_absurd (x : ascii) (s : str) : ~ suffixOf (x :: s) s.
Proof. intros H. apply suffixOf_length in H. cbn in H. lia. Qed.

Lemma starLazy_unfold (A : Type) (p : ascii -> bool) (s : str)
      (k : str -> option A) :
  starLazy p s k =
    match k s with
    | Some r => Some r
    | None =>
        match s with
        | x :: s' => if p x then starLazy p s' k else None
        | [] => None
        end
    end.
Proof. destruct s; reflexivity. Qed.

Section StarFacts.
Variable p : ascii -> bool.
Variable K : str -> option (str * caps).
Hypothesis K_suffix : forall s r c', K s = Some (r, c') -> suffixOf r s.

Lemma starGreedy_suffix (s r : str) (c' : caps) :
  starGreedy p s K = Some (r, c') -> suffixOf r s.
Proof.
  induction s as [|x s IH]; cbn [starGreedy]; [apply K_suffix|].
  destruct (p x); [|apply K_suffix].
  destruct (starGreedy p s K) as [[r1 c1]|] eqn:E; [|apply K_suffix].
  intros H; inversion H; subst. apply suffixOf_cons. apply IH. reflexivity.
Qed.

Lemma starLazy_suffix (s r : str) (c' : caps) :
  starLazy p s K = Some (r, c') -> suffixOf r s.
Proof.
  induction s as [|x s IH]; rewrite starLazy_unfold.
  - destruct (K []) as [[r1 c1]|] eqn:E; [|discriminate].
    intros H; inversion H; subst. eapply K_suffix; eauto.
  - destruct (K (x :: s)) as [[r1 c1]|] eqn:E.
    + intros H; inversion H; subst. eapply K_suffix; eauto.
    + destruct (p x); [|discriminate].
      intros H. apply suffixOf_cons. apply IH. exact H.
Qed.

Lemma starGreedy_ne (s : str) : K s <> None -> starGreedy p s K <> None.
Proof.
  intros H. destruct s as [|x s]; cbn [starGreedy]; [exact H|].
  destruct (p x); [|exact H].
  destruct (starGreedy p s K); [discriminate | exact H].
Qed.

Variable b : str.
Variable K' : str -> option (str * caps).
Hypothesis K_rel :
  forall t,
    (forall c', K (t ++ b) = Some (b, c') -> K' t = Some ([], c'))
    /\ (K' t <> None -> K (t ++ b) <> None).

Lemma starGreedy_rel (t : str) :
  (forall c', starGreedy p (t ++ b) K = Some (b, c') ->
              starGreedy p t K' = Some ([], c'))
  /\ (starGreedy p t K' <> None -> starGreedy p (t ++ b) K <> None).
Proof.
  induction t as [|x t [IH1 IH2]].
  - cbn [app]. split.
    + intros c' H. cbn [starGreedy]. apply (proj1 (K_rel [])). cbn [app].
      destruct b as [|y b']; cbn [starGreedy] in H; [exact H|].
      destruct (p y); [|exact H].
      destruct (starGreedy p b' K) as [[r1 c1]|] eqn:E; [|exact H].
      inversion H; subst. apply starGreedy_suffix in E.
      exfalso. eapply suffixOf_tail_absurd; eauto.
    + cbn [starGreedy]. intros H. apply starGreedy_ne.
      apply (proj2 (K_rel [])). exact H.
  - cbn [app starGreedy]. destruct (p x).
    + split.
      * intros c' H.
        destruct (starGreedy p (t ++ b) K) as [[r1 c1]|] eqn:E.
        -- inversion H; subst. rewrite (IH1 c' eq_refl). reflexivity.
        -- destruct (starGreedy p t K') eqn:E'.
           ++ exfalso. apply IH2; [discriminate | reflexivity].
           ++ apply (proj1 (K_rel (x :: t))). exact H.
      * destruct (starGreedy p t K') eqn:E'.
        -- intros _. destruct (starGreedy p (t ++ b) K) eqn:E; [discriminate|].
           exfalso. apply IH2; [discriminate | reflexivity].
        -- intros H. destruct (starGreedy p (t ++ b) K); [discriminate|].
           apply (proj2 (K_rel (x :: t))). exact H.
    + apply (K_rel (x :: t)).
Qed.

Lemma starLazy_rel (t : str) :
  (forall c', starLazy p (t ++ b) K = Some (b, c') ->
              starLazy p t K' = Some ([], c'))
  /\ (starLazy p t K' <> None -> starLazy p (t ++ b) K <> None).
Proof.
  induction t as [|x t [IH1 IH2]].
  - cbn [app]. split.
    + intros c' H. rewrite starLazy_unfold in H. rewrite starLazy_unfold.
      destruct (K b) as [[r1 c1]|] eqn:E.
      * inversion H; subst.
        rewrite (proj1 (K_rel []) c' E). reflexivity.
      * destruct b as [|y b']; [discriminate|].
        destruct (p y); [|discriminate].
        apply starLazy_suffix in H.
        exfalso. eapply suffixOf_tail_absurd; eauto.
    + rewrite starLazy_unfold. rewrite (starLazy_unfold _ p b).
      destruct (K' []) eqn:E'; [|intros H; exfalso; apply H; reflexivity].
      intros _. destruct (K b) eqn:E; [discriminate|].
      exfalso. apply (proj2 (K_rel [])); [rewrite E'; discriminate | exact E].
  - cbn [app]. rewrite (starLazy_unfold _ p (x :: t ++ b)).
    rewrite (starLazy_unfold _ p (x :: t)). split.
    + intros c' H.
      destruct (K (x :: t ++ b)) as [[r1 c1]|] eqn:E.
      * inversion H; subst.
        rewrite (proj1 (K_rel (x :: t)) c' E). reflexivity.
      * destruct (K' (x :: t)) eqn:E'.
        -- exfalso. apply (proj2 (K_rel (x :: t)));
             [rewrite E'; discriminate | exact E].
        -- destruct (p x); [|discriminate]. apply IH1. exact H.
    + destruct (K' (x :: t)) eqn:E'.
      * intros _. destruct (K (x :: t ++ b)) eqn:E; [discriminate|].
        exfalso. apply (proj2 (K_rel (x :: t)));
          [rewrite E'; discriminate | exact E].
      * destruct (K (x :: t ++ b)); [discriminate|].
        destruct (p x); [exact IH2 | intros H; exact H].
Qed.
End StarFacts.

Lemma bt_suffix (r : re) :
  forall k : cont, kSuffix k -> kSuffix (fun s c => bt r s c k).
Proof.
  induction r as [|p|a IHa b IHb|a IHa b IHb|a IHa|g p|i a IHa|];
    intros k Hk s c r0 c' H; cbn [bt] in H.
  - eapply Hk; eauto.
  - destruct s as [|x s]; [discriminate|].
    destruct (p x); [|discriminate].
    apply suffixOf_cons. eapply Hk; eauto.
  - eapply (IHa (fun s' c1 => bt b s' c1 k)); [|exact H].
    apply IHb. exact Hk.
  - destruct (bt a s c k) as [[r1 c1]|] eqn:E.
    + inversion H; subst. eapply IHa; eauto.
    + eapply IHb; eauto.
  - destruct (bt a s c k) as [[r1 c1]|] eqn:E.
    + inversion H; subst. eapply IHa; eauto.
    + eapply Hk; eauto.
  - destruct g.
    + eapply (starGreedy_suffix p (fun s' => k s' c));
        [intros s1 r1 c1 H1; eapply Hk; exact H1 | exact H].
    + eapply (starLazy_suffix p (fun s' => k s' c));
        [intros s1 r1 c1 H1; eapply Hk; exact H1 | exact H].
  - eapply (IHa (fun s' c1 =>
                   k s' ((i, firstn (length s - length s') s) :: c1)));
      [|exact H].
    intros s1 c1 r1 c1' H1. eapply Hk; eauto.
  - destruct s; [|discriminate]. eapply Hk; eauto.
Qed.

Lemma kSuffix_final : kSuffix (fun s c => Some (s, c)).
Proof. intros s c r c' H. inversion H. apply suffixOf_refl. Qed.

Lemma run_suffix (r : re) (s s' : str) (c : caps) :
  run r s = Some (s', c) -> suffixOf s' s.
Proof.
  unfold run. intros H.
  exact (bt_suffix r _ kSuffix_final s [] s' c H).
Qed.

Lemma firstn_app_le (n : nat) (t b : str) :
  n <= length t -> firstn n (t ++ b) = firstn n t.
Proof.
  intros H. rewrite firstn_app.
  replace (n - length t) with 0 by lia.
  cbn [firstn]. apply app_nil_r.
Qed.

Lemma bt_rel (r : re) :
  anchorFree r = true ->
  forall (b : str) (k k' : cont),
    kSuffix k -> kRel b k k' ->
    kRel b (fun s c => bt r s c k) (fun s c => bt r s c k').
Proof.
  induction r as [|p|a IHa b0 IHb|a IHa b0 IHb|a IHa|g p|i a IHa|];
    cbn [anchorFree]; intros AF b k k' Hk HR t c; cbn [bt].
  - apply HR.
  - destruct t as [|x t]; cbn [app].
    + split; [|intros H; exfalso; apply H; reflexivity].
      intros c' H. destruct b as [|y b']; [discriminate|].
      destruct (p y); [|discriminate].
      apply Hk in H. exfalso. eapply suffixOf_tail_absurd; eauto.
    + destruct (p x); [apply HR|].
      split; [discriminate | intros H; exact H].
  - apply andb_true_iff in AF. destruct AF as [AFa AFb].
    apply (IHa AFa b (fun s' c1 => bt b0 s' c1 k)
               (fun s' c1 => bt b0 s' c1 k')).
    + apply bt_suffix. exact Hk.
    + apply IHb; assumption.
  - apply andb_true_iff in AF. destruct AF as [AFa AFb].
    destruct (IHa AFa b k k' Hk HR t c) as [A1 A2].
    destruct (IHb AFb b k k' Hk HR t c) as [B1 B2].
    split.
    + intros c' H.
      destruct (bt a (t ++ b) c k) as [[r1 c1]|] eqn:E.
      * inversion H; subst. rewrite (A1 c' eq_refl). reflexivity.
      * destruct (bt a t c k') eqn:E'.
        -- exfalso. apply A2; [discriminate | reflexivity].
        -- apply B1. exact H.
    + destruct (bt a t c k') eqn:E'.
      * intros _. destruct (bt a (t ++ b) c k) eqn:E; [discriminate|].
        exfalso. apply A2; [discriminate | reflexivity].
      * intros H. destruct (bt a (t ++ b) c k); [discriminate|].
        apply B2. exact H.
  - destruct (IHa AF b k k' Hk HR t c) as [A1 A2].
    destruct (HR t c) as [B1 B2].
    split.
    + intros c' H.
      destruct (bt a (t ++ b) c k) as [[r1 c1]|] eqn:E.
      * inversion H; subst. rewrite (A1 c' eq_refl). reflexivity.
      * destruct (bt a t c k') eqn:E'.
        -- exfalso. apply A2; [discriminate | reflexivity].
        -- apply B1. exact H.
    + destruct (bt a t c k') eqn:E'.
      * intros _. destruct (bt a (t ++ b) c k) eqn:E; [discriminate|].
        exfalso. apply A2; [discriminate | reflexivity].
      * intros H. destruct (bt a (t ++ b) c k); [discriminate|].
        apply B2. exact H.
  - destruct g.
    + apply (starGreedy_rel p (fun s' => k s' c)).
      * intros s r0 c' H. eapply Hk; exact H.
      * intros t0. apply HR.
    + apply (starLazy_rel p (fun s' => k s' c)).
      * intros s r0 c' H. eapply Hk; exact H.
      * intros t0. apply HR.
  - apply (IHa AF b
             (fun s' c1 =>
                k s' ((i, firstn (length (t ++ b) - length s') (t ++ b)) :: c1))
             (fun s' c1 =>
                k' s' ((i, firstn (length t - length s') t) :: c1))).
    + intros s1 c1 r1 c1' H1. eapply Hk; eauto.
    + intros t2 c2.
      replace (firstn (length (t ++ b) - length (t2 ++ b)) (t ++ b))
        with (firstn (length t - length t2) t).
      * apply HR.
      * rewrite !length_app.
        replace (length t + length b - (length t2 + length b))
          with (length t - length t2) by lia.
        symmetry. apply firstn_app_le. lia.
  - discriminate.
Qed.

Lemma kRel_final (b : str) :
  kRel b (fun s c => Some (s, c)) (fun s c => Some (s, c)).
Proof.
  intros t c. split; [|discriminate].
  intros c' H. inversion H as [[E1 E2]].
  assert (L : length (t ++ b) = length b) by (rewrite E1; reflexivity).
  rewrite length_app in L. destruct t; [reflexivity | cbn in L; lia].
Qed.

(** A match that stops before [b] is found again when [b] is cut off. *)
Lemma run_trunc (r : re) (a b : str) (c : caps) :
  anchorFree r = true ->
  run r (a ++ b) = Some (b, c) -> run r a = Some ([], c).
Proof.
  intros AF H. unfold run in *.
  exact (proj1 (bt_rel r AF b _ _ kSuffix_final (kRel_final b) a []) c H).
Qed.

(** A match is still found when more text follows. *)
Lemma run_extend (r : re) (a b : str) :
  anchorFree r = true ->
  run r a <> None -> run r (a ++ b) <> None.
Proof.
  intros AF H. unfold run in *.
  exact (proj2 (bt_rel r AF b _ _ kSuffix_final (kRel_final b) a []) H).
Qed.

(** ** The leftmost search *)

Lemma searchFrom_unfold (r : re) (i : nat) (s : str) :
  searchFrom r i s =
    match matchAt r i s with
    | Some m => Some m
    | None =>
        match s with
        | [] => None
        | _ :: s' => searchFrom r (S i) s'
        end
    end.
Proof. destruct s; reflexivity. Qed.

Lemma matched_prefix (s a s' : str) :
  s = a ++ s' -> firstn (length s - length s') s = a.
Proof.
  intros ->. rewrite length_app.
  replace (length a + length s' - length s') with (length a) by lia.
  rewrite firstn_app_le by lia. apply firstn_all.
Qed.

(** A successful search splits the text into what precedes the match, the
    match and what follows it; no earlier start position matches. *)
Lemma searchFrom_some (r : re) (s : str) :
  forall (i : nat) (m : result),
    searchFrom r i s = Some m ->
    exists pre a post c,
      s = pre ++ a ++ post
      /\ run r (a ++ post) = Some (post, c)
      /\ m = mkResult (i + length pre) a c
      /\ forall j, j < length pre -> run r (skipn j s) = None.
Proof.
  assert (Here : forall (s : str) i m s' c,
             run r s = Some (s', c) ->
             Some (mkResult i (firstn (length s - length s') s) c) = Some m ->
             exists pre a post c,
               s = pre ++ a ++ post
               /\ run r (a ++ post) = Some (post, c)
               /\ m = mkResult (i + length pre) a c
               /\ forall j, j < length pre -> run r (skipn j s) = None).
  { intros s0 i m s' c E H. inversion H; subst; clear H.
    destruct (run_suffix _ _ _ _ E) as [a Ea].
    exists [], a, s', c. cbn [app length].
    repeat split.
    - exact Ea.
    - rewrite <- Ea. exact E.
    - rewrite (matched_prefix _ _ _ Ea). f_equal. lia.
    - intros j Hj. lia. }
  induction s as [|x s IH]; intros i m H; rewrite searchFrom_unfold in H;
    unfold matchAt in H.
  - destruct (run r []) as [[s' c]|] eqn:E; [|discriminate].
    eapply Here; eauto.
  - destruct (run r (x :: s)) as [[s' c]|] eqn:E.
    + eapply Here; eauto.
    + destruct (IH _ _ H) as (pre & a & post & c & E1 & E2 & E3 & E4).
      exists (x :: pre), a, post, c. subst s. cbn [app length].
      repeat split; try assumption.
      * rewrite E3. f_equal. lia.
      * intros [|j] Hj; [exact E | cbn [skipn]; apply E4; lia].
Qed.

Lemma search_some (r : re) (s : str) (m : result) :
  search r s = Some m ->
  exists pre a post c,
    s = pre ++ a ++ post
    /\ run r (a ++ post) = Some (post, c)
    /\ m = mkResult (length pre) a c
    /\ forall j, j < length pre -> run r (skipn j s) = None.
Proof. intros H. apply searchFrom_some in H. exact H. Qed.

Lemma search_at_start (r : re) (a : str) (c : caps) :
  run r a = Some ([], c) -> search r a = Some (mkResult 0 a c).
Proof.
  intros H. unfold search. rewrite searchFrom_unfold. unfold matchAt.
  rewrite H. cbn [length]. rewrite Nat.sub_0_r, firstn_all. reflexivity.
Qed.

(** Searching the matched text alone finds the same match. *)
Lemma search_matched (r : re) (s : str) (m : result) :
  anchorFree r = true ->
  search r s = Some m ->
  search r (matched m) = Some (mkResult 0 (matched m) (groups m)).
Proof.
  intros AF H.
  destruct (search_some _ _ _ H) as (pre & a & post & c & E1 & E2 & E3 & _).
  subst m. cbn [matched groups].
  apply search_at_start. eapply run_trunc; eauto.
Qed.

Lemma searchFrom_extend (r : re) (pre y : str) :
  forall i, run r y <> None -> searchFrom r i (pre ++ y) <> None.
Proof.
  induction pre as [|x pre IH]; intros i H; cbn [app];
    rewrite searchFrom_unfold; unfold matchAt.
  - destruct (run r y) as [[s' c]|]; [discriminate | exfalso; apply H; reflexivity].
  - destruct (run r (x :: pre ++ y)) as [[s' c]|]; [discriminate|].
    apply IH. exact H.
Qed.

(** A text that holds a match somewhere inside still holds one, whatever
    surrounds it. *)
Lemma search_extend (r : re) (pre mid post : str) :
  anchorFree r = true ->
  search r mid <> None -> search r (pre ++ mid ++ post) <> None.
Proof.
  intros AF H.
  destruct (search r mid) as [m|] eqn:E; [clear H | exfalso; apply H; reflexivity].
  destruct (search_some _ _ _ E) as (p0 & a & q0 & c & E1 & E2 & _).
  subst mid.
  replace (pre ++ (p0 ++ a ++ q0) ++ post)
    with ((pre ++ p0) ++ (a ++ q0) ++ post)
    by (rewrite <- !app_assoc; reflexivity).
  apply searchFrom_extend. apply run_extend; [exact AF|].
  rewrite E2. discriminate.
Qed.

(** ** C1: OR of ANDs *)

(** C1. WHERE evaluation is an OR of ANDs: the filter is split on OR and a
    record matches when some branch matches; a branch, once unwrapped, is
    split on AND and matches when all its terms match.  For every record,
    the filter (city = Berlin AND age > 30) OR city = Paris matches exactly
    when one of its two branches holds, and on the four records of the test
    suite it selects Bob and Carol. *)
Theorem C1_where_or_of_ands :
  (forall (whereClause : str) (row : Row),
      evalWhere whereClause row =
        Ok (existsb
              (fun orPart =>
                 forallb (fun expr => condValue (unwrap expr) row)
                         (splitLogicalOperator (unwrap orPart) (lit "AND")))
              (splitLogicalOperator whereClause (lit "OR"))))
  /\ (forall row : Row,
         evalWhere mixedFilter row =
           Ok ((looseEqStr (get row (lit "city")) (lit "Berlin")
                && num_gtb (parseFloat (get row (lit "age"))) (Fin 30 0))
               || looseEqStr (get row (lit "city")) (lit "Paris")))
  /\ fst (select (lit "SELECT name FROM users WHERE " ++ mixedFilter)
                 (tableStore "users" testUsers))
     = Ok (Rows [rowOf [("name", "Bob")]; rowOf [("name", "Carol")]]%string).
Proof.
  split; [exact evalWhere_total|].
  split; [exact evalWhere_mixed|].
  vm_compute. reflexivity.
Qed.

(** ** C5: OR commutes *)

Lemma evalWhere_a_or_b (row : Row) :
  evalWhere (lit "a=1 OR b=2") row
  = Ok (looseEqStr (get row (lit "a")) (lit "1")
        || looseEqStr (get row (lit "b")) (lit "2")).
Proof.
  rewrite evalWhere_total. unfold whereValue.
  eval_splits. cbn [existsb]. eval_splits.
  cbn [forallb]. unfold condValue, evalCondition. eval_searches.
  rewrite !andb_true_r, orb_false_r. reflexivity.
Qed.

Lemma evalWhere_b_or_a (row : Row) :
  evalWhere (lit "b=2 OR a=1") row
  = Ok (looseEqStr (get row (lit "b")) (lit "2")
        || looseEqStr (get row (lit "a")) (lit "1")).
Proof.
  rewrite evalWhere_total. unfold whereValue.
  eval_splits. cbn [existsb]. eval_splits.
  cbn [forallb]. unfold condValue, evalCondition. eval_searches.
  rewrite !andb_true_r, orb_false_r. reflexivity.
Qed.

(** A SELECT, the statement that only evaluates filters, leaves the store
    as it was. *)
Lemma select_store (sql : str) (st : store) : snd (select sql st) = st.
Proof. unfold select. destruct (search selectRe sql); reflexivity. Qed.

(** C5. WHERE evaluation is a function of the filter text and the record
    alone: it reads and writes no state and always returns a boolean, and
    a SELECT that filters with it leaves the store as it was; and OR
    commutes: the filters a=1 OR b=2 and b=2 OR a=1 agree on every
    record. *)
Theorem C5_where_pure_or_commutes :
  (forall (F : str) (R : Row), evalWhere F R = Ok (whereValue F R))
  /\ (forall (sql : str) (st : store), snd (select sql st) = st)
  /\ (forall R : Row,
         evalWhere (lit "a=1 OR b=2") R = evalWhere (lit "b=2 OR a=1") R).
Proof.
  split; [exact evalWhere_total|].
  split; [exact select_store|].
  intros R. rewrite evalWhere_a_or_b, evalWhere_b_or_a.
  f_equal. apply orb_comm.
Qed.

(** ** C2: WHERE evaluation never throws *)

(** C2, the claim as written fails: a filter with three levels of mixed
    AND/OR and a filter with an unclosed parenthesis both evaluate to true
    on a record, not to false. *)
Lemma C2_counterexample :
  evalWhere (lit "((a=1 AND b=2) OR c=3) AND d=4")
            (rowOf [("a", "1"); ("d", "4")]%string) = Ok true
  /\ evalWhere (lit "(a=1") (rowOf [("a", "1")]%string) = Ok true.
Proof. split; vm_compute; reflexivity. Qed.

(** C2, amended.  For every filter and record WHERE evaluation returns a
    boolean and never throws, whatever the parentheses and the nesting of
    the filter, and a leaf text in which the field-operator-value pattern
    occurs nowhere evaluates to false. *)
Theorem C2_where_total :
  (forall (whereClause : str) (row : Row),
      exists b : bool, evalWhere whereClause row = Ok b)
  /\ (forall (expr : str) (row : Row), exists b : bool,
         evalCondition expr row = Ok b)
  /\ (forall (expr : str) (row : Row),
         search conditionRe expr = None -> evalCondition expr row = Ok false).
Proof.
  split; [|split].
  - intros w row. exists (whereValue w row). apply evalWhere_total.
  - intros e row. exists (condValue e row). apply evalCondition_total.
  - intros e row H. unfold evalCondition. rewrite H. reflexivity.
Qed.

(** The text hello world holds no condition and evaluates to false. *)
Lemma C2_where_total_witness :
  search conditionRe (lit "hello world") = None
  /\ evalCondition (lit "hello world") (rowOf [("a", "1")]%string) = Ok false.
Proof.
  split; [vm_compute; reflexivity|].
  apply (proj2 (proj2 C2_where_total)). vm_compute. reflexivity.
Defined.

(** ** C9: the leaf matcher is not anchored *)

Lemma conditionRe_anchorFree : anchorFree conditionRe = true.
Proof. reflexivity. Qed.

Lemma evalCondition_matched (expr : str) (m : result) (row : Row) :
  search conditionRe expr = Some m ->
  evalCondition expr row = evalCondition (matched m) row.
Proof.
  intros H. unfold evalCondition.
  rewrite (search_matched _ _ _ conditionRe_anchorFree H), H. reflexivity.
Qed.

(** C9. The leaf-condition matcher is not anchored.  When the
    field-operator-value pattern occurs in a condition text, the text is
    evaluated as its first occurrence alone, the text around it ignored;
    an occurrence is found whatever surrounds it; and the text
    a=1 OR b=2, taken as one leaf, evaluates as a=1 does, which is true on
    a record whose field a is 1.  The value is that of the first
    occurrence: when its operator is = and its field holds a string, the
    result is whether that string is the captured value with its outer
    quotes stripped; a=1 OR b=2 is true exactly when the field a equals 1,
    so it is false on a record with a 0 and b 2. *)
Theorem C9_leaf_condition_unanchored :
  (forall (expr : str) (m : result) (row : Row),
      search conditionRe expr = Some m ->
      (exists pre post,
          expr = pre ++ matched m ++ post /\ index m = length pre
          /\ forall j, j < length pre ->
                       run conditionRe (skipn j expr) = None)
      /\ evalCondition expr row = evalCondition (matched m) row)
  /\ (forall pre mid post : str,
         search conditionRe mid <> None ->
         search conditionRe (pre ++ mid ++ post) <> None)
  /\ (forall row : Row,
         evalCondition (lit "a=1 OR b=2") row = evalCondition (lit "a=1") row)
  /\ evalCondition (lit "a=1 OR b=2") (rowOf [("a", "1")]%string) = Ok true
  /\ (forall (expr : str) (m : result) (row : Row) (s : str),
         search conditionRe expr = Some m ->
         groupOr 2 m = lit "=" ->
         get row (groupOr 1 m) = VStr s ->
         evalCondition expr row = Ok (str_eqb s (stripQuotes (groupOr 3 m))))
  /\ (forall row : Row,
         evalCondition (lit "a=1 OR b=2") row
         = Ok (looseEqStr (get row (lit "a")) (lit "1")))
  /\ evalCondition (lit "a=1 OR b=2") (rowOf [("a", "0"); ("b", "2")]%string)
     = Ok false.
Proof.
  split; [|split; [|split; [|split; [|split; [|split]]]]].
  - intros expr m row H. split; [|apply evalCondition_matched; exact H].
    destruct (search_some _ _ _ H) as (pre & a & post & c & E1 & E2 & E3 & E4).
    exists pre, post. subst m. cbn [matched index]. auto.
  - intros pre mid post. apply search_extend. exact conditionRe_anchorFree.
  - intros row. unfold evalCondition. eval_searches. reflexivity.
  - vm_compute. reflexivity.
  - intros expr m row s Hm Hop Hv. unfold evalCondition. rewrite Hm, Hop, Hv.
    reflexivity.
  - intros row. unfold evalCondition. eval_searches. reflexivity.
  - vm_compute. reflexivity.
Qed.

(** The text NOT a=1 OR b=2 is evaluated as a=1, found at index 4. *)
Lemma C9_leaf_condition_unanchored_witness :
  search conditionRe (lit "NOT a=1 OR b=2")
  = Some (mkResult 4 (lit "a=1") [(3, lit "1"); (2, lit "="); (1, lit "a")])
  /\ evalCondition (lit "NOT a=1 OR b=2") (rowOf [("a", "1")]%string)
     = evalCondition (lit "a=1") (rowOf [("a", "1")]%string)
  /\ evalCondition (lit "NOT a=1 OR b=2")
                   (rowOf [("a", "0"); ("b", "2")]%string)
     = Ok false.
Proof.
  split; [vm_compute; reflexivity|]. split.
  - apply (proj2 (proj1 C9_leaf_condition_unanchored
                        (lit "NOT a=1 OR b=2")
                        (mkResult 4 (lit "a=1")
                                  [(3, lit "1"); (2, lit "="); (1, lit "a")])
                        (rowOf [("a", "1")]%string)
                        ltac:(vm_compute; reflexivity))).
  - refine (eq_trans
              (proj1 (proj2 (proj2 (proj2 (proj2 C9_leaf_condition_unanchored))))
                 (lit "NOT a=1 OR b=2")
                 (mkResult 4 (lit "a=1")
                           [(3, lit "1"); (2, lit "="); (1, lit "a")])
                 (rowOf [("a", "0"); ("b", "2")]%string) (lit "0")
                 ltac:(vm_compute; reflexivity) ltac:(vm_compute; reflexivity)
                 ltac:(vm_compute; reflexivity)) _).
    vm_compute. reflexivity.
Defined.

(** ** C4: the quote-aware splitter *)

Lemma isQuote_not_space (q : ascii) : isQuote q = true -> isSpace q = false.
Proof.
  destruct q as [[] [] [] [] [] [] [] []]; vm_compute;
    (discriminate || reflexivity).
Qed.

Lemma isSpace_plain (x : ascii) :
  isSpace x = true -> isQuote x = false /\ chr_eqb x ","%char = false.
Proof.
  destruct x as [[] [] [] [] [] [] [] []]; vm_compute;
    (discriminate || auto).
Qed.

(** Inside a quoted span every character, the delimiter included, is
    appended to the current segment. *)
Lemma splitStep_inside (d q : ascii) (t : str) :
  ~ In q t ->
  forall (res : list str) (cur : str),
    fold_left (splitStep d) t (mkSplit res cur true (Some q))
    = mkSplit res (cur ++ t) true (Some q).
Proof.
  induction t as [|x t IH]; intros Hq res cur; cbn [fold_left].
  - rewrite app_nil_r. reflexivity.
  - assert (Hx : chr_eqb x q = false).
    { destruct (chr_eqb x q) eqn:E; [|reflexivity].
      apply chr_eqb_true in E. subst. exfalso. apply Hq. left. reflexivity. }
    unfold splitStep at 2.
    cbn [sq_inQuotes sq_quoteChar sq_result sq_current negb isQuoteChar].
    rewrite Hx, !andb_false_r. cbn [andb].
    rewrite IH by (intros H; apply Hq; right; exact H).
    rewrite <- app_assoc. reflexivity.
Qed.

(** A quoted span met outside quotes is taken whole: no segment is closed
    inside it and the scan leaves it outside quotes. *)
Lemma splitStep_span (d q : ascii) (t : str) (st : SplitState) :
  isQuote q = true -> ~ In q t -> sq_inQuotes st = false ->
  fold_left (splitStep d) (q :: t ++ [q]) st
  = mkSplit (sq_result st) (sq_current st ++ q :: t ++ [q]) false None.
Proof.
  intros Q Hq Hst. cbn [fold_left]. unfold splitStep at 2.
  rewrite Q, Hst. cbn [negb andb].
  rewrite fold_left_app, splitStep_inside by exact Hq.
  cbn [fold_left]. unfold splitStep.
  cbn [sq_inQuotes sq_quoteChar sq_result sq_current negb isQuoteChar].
  rewrite Q, chr_eqb_refl. cbn [andb].
  rewrite <- !app_assoc. reflexivity.
Qed.

Lemma trimStart_nonspace (x : ascii) (s : str) :
  isSpace x = false -> trimStart (x :: s) = x :: s.
Proof. intros H. cbn [trimStart]. rewrite H. reflexivity. Qed.

Lemma trim_between (x y : ascii) (s : str) :
  isSpace x = false -> isSpace y = false ->
  trim (x :: s ++ [y]) = x :: s ++ [y].
Proof.
  intros Hx Hy. unfold trim, trimEnd.
  rewrite trimStart_nonspace by exact Hx.
  change (x :: s ++ [y]) with ((x :: s) ++ [y]).
  rewrite rev_app_distr. cbn [rev app].
  rewrite trimStart_nonspace by exact Hy.
  change (y :: rev s ++ [x]) with ([y] ++ rev (x :: s)).
  rewrite rev_app_distr, rev_involutive. reflexivity.
Qed.

Lemma trimStart_spaces (ws : str) :
  forallb isSpace ws = true -> trimStart ws = [].
Proof.
  induction ws as [|x ws IH]; [reflexivity|].
  cbn [forallb trimStart]. intros H. apply andb_true_iff in H.
  destruct H as [-> H]. apply IH. exact H.
Qed.

Lemma trim_spaces (ws : str) : forallb isSpace ws = true -> trim ws = [].
Proof. intros H. unfold trim. rewrite trimStart_spaces by exact H. reflexivity. Qed.

(** White space after the last delimiter only extends the current
    segment. *)
Lemma splitStep_spaces (ws : str) :
  forallb isSpace ws = true ->
  forall (res : list str) (cur : str) (qc : option ascii),
    fold_left (splitStep ","%char) ws (mkSplit res cur false qc)
    = mkSplit res (cur ++ ws) false qc.
Proof.
  induction ws as [|x ws IH]; intros H res cur qc; cbn [fold_left].
  - rewrite app_nil_r. reflexivity.
  - cbn [forallb] in H. apply andb_true_iff in H. destruct H as [Hx H].
    destruct (isSpace_plain x Hx) as [Q C].
    unfold splitStep at 2.
    cbn [sq_inQuotes sq_quoteChar sq_result sq_current negb].
    rewrite Q, C, andb_false_r. cbn [andb].
    rewrite IH by exact H. rewrite <- app_assoc. reflexivity.
Qed.

(** C4. The quote-aware splitter never splits inside a quoted span: a span
    that opens outside quotes and whose body does not hold its own quote
    character is appended whole to the current segment, whatever
    delimiters it holds, so a quoted span alone is one field; INSERT ...
    VALUES (1, [Smith, John]) stores the quoted name as a single value;
    and the last segment is appended only if it is not empty once trimmed,
    so white space after a final comma adds no field. *)
Theorem C4_quoted_split :
  (forall (d q : ascii) (t : str) (st : SplitState),
      isQuote q = true -> ~ In q t -> sq_inQuotes st = false ->
      fold_left (splitStep d) (q :: t ++ [q]) st
      = mkSplit (sq_result st) (sq_current st ++ q :: t ++ [q]) false None)
  /\ (forall (d q : ascii) (t : str),
         isQuote q = true -> ~ In q t ->
         splitRespectingQuotesBy d (q :: t ++ [q]) = [q :: t ++ [q]])
  /\ (forall st : store,
         insert insertSmith st =
           (Ok (Inserted (rowOf [("id", "1"); ("name", "Smith, John")]%string)),
            save st (lit "users")
                 (load st (lit "users")
                    ++ [rowOf [("id", "1"); ("name", "Smith, John")]%string])))
  /\ (forall (d : ascii) (s : str),
         splitRespectingQuotesBy d s =
           let st := fold_left (splitStep d) s splitInit in
           sq_result st ++ match trim (sq_current st) with
                           | [] => []
                           | _ :: _ => [trim (sq_current st)]
                           end)
  /\ (forall s ws : str,
         sq_inQuotes (fold_left (splitStep ","%char) s splitInit) = false ->
         forallb isSpace ws = true ->
         splitRespectingQuotes (s ++ lit "," ++ ws) =
           let st := fold_left (splitStep ","%char) s splitInit in
           sq_result st ++ [trim (sq_current st)]).
Proof.
  split; [exact splitStep_span|].
  split; [|split; [|split]].
  - intros d q t Q Hq. unfold splitRespectingQuotesBy.
    rewrite splitStep_span by (exact Q || exact Hq || reflexivity).
    unfold splitFinish. cbn [sq_result sq_current app].
    rewrite trim_between by (apply isQuote_not_space; exact Q).
    reflexivity.
  - intros st. vm_compute. reflexivity.
  - intros d s. unfold splitRespectingQuotesBy, splitFinish.
    fold splitInit. cbn zeta.
    destruct (trim (sq_current (fold_left (splitStep d) s splitInit)));
      [rewrite app_nil_r|]; reflexivity.
  - intros s ws Hs Hws.
    unfold splitRespectingQuotes, splitRespectingQuotesBy. fold splitInit.
    rewrite fold_left_app.
    destruct (fold_left (splitStep ","%char) s splitInit)
      as [res cur inq qc] eqn:E.
    cbn [sq_inQuotes] in Hs. subst inq.
    cbn [lit list_ascii_of_string app fold_left].
    unfold splitStep at 2.
    cbn [sq_inQuotes sq_quoteChar sq_result sq_current negb].
    replace (isQuote ","%char) with false by reflexivity.
    rewrite andb_false_r, chr_eqb_refl. cbn [andb].
    rewrite splitStep_spaces by exact Hws.
    unfold splitFinish. cbn [sq_result sq_current app].
    rewrite trim_spaces by exact Hws. reflexivity.
Qed.

(** The quoted name of the test is one field, and white space after a final comma adds none. *)
Lemma C4_quoted_split_witness :
  splitRespectingQuotesBy ","%char (dquote :: lit "Smith, John" ++ [dquote])
  = [dquote :: lit "Smith, John" ++ [dquote]]
  /\ splitRespectingQuotes (lit "a, b" ++ lit "," ++ lit "  ")
     = [lit "a"; lit "b"].
Proof.
  destruct C4_quoted_split as (_ & H2 & _ & _ & H5). split.
  - apply H2; [reflexivity|].
    vm_compute. intuition discriminate.
  - rewrite H5; [reflexivity | reflexivity | reflexivity].
Defined.

(** ** The store *)

Lemma jsonValue_idem (v : value) : jsonValue (jsonValue v) = jsonValue v.
Proof. destruct v as [| |s|[|neg|m e]]; reflexivity. Qed.

Lemma jsonRow_idem (r : Row) : jsonRow (jsonRow r) = jsonRow r.
Proof.
  unfold jsonRow. induction r as [|[k v] r IH]; [reflexivity|].
  cbn [filter snd].
  destruct v as [| |s|[|neg|m e]]; cbn [map filter fst snd jsonValue];
    try rewrite IH; try reflexivity; exact IH.
Qed.

Lemma map_jsonRow_idem (data : list Row) :
  map jsonRow (map jsonRow data) = map jsonRow data.
Proof.
  rewrite map_map. apply map_ext. intros r. apply jsonRow_idem.
Qed.

Lemma load_save (st : store) (table : str) (data : list Row) :
  load (save st table data) table = map jsonRow data.
Proof.
  unfold load, save. rewrite str_eqb_refl. apply map_jsonRow_idem.
Qed.

(** What is loaded is in JSON form already. *)
Lemma load_json (st : store) (table : str) :
  map jsonRow (load st table) = load st table.
Proof.
  unfold load. destruct (st table); [apply map_jsonRow_idem | reflexivity].
Qed.

(** ** C7: DELETE without WHERE, UPDATE without a matching row *)

Lemma updateRows_none (w : str) (x : ascii) (updates : Row) (data : list Row) :
  (forall row, In row data -> evalWhere (x :: w) row = Ok false) ->
  forall count, updateRows (Some (x :: w)) updates data count = Ok (data, count).
Proof.
  induction data as [|row data IH]; intros H count; [reflexivity|].
  cbn [updateRows]. rewrite (H row) by (left; reflexivity). cbn [bind].
  rewrite IH by (intros r Hr; apply H; right; exact Hr).
  reflexivity.
Qed.

Lemma canon_refl (a : ascii) : chr_eqb (canon a) (canon a) = true.
Proof. apply chr_eqb_refl. Qed.

(** A literal under the [i] flag matches its own text. *)
Lemma bt_literal (A : Type) (l rest : str) (c : caps)
      (k : str -> caps -> option A) :
  bt (cat (map chrI l)) (l ++ rest) c k = k rest c.
Proof.
  induction l as [|a l IH]; [reflexivity|].
  destruct l as [|b l].
  - cbn [map cat chrI bt app]. rewrite canon_refl. reflexivity.
  - change (cat (map chrI (a :: b :: l)))
      with (Seq (chrI a) (cat (map chrI (b :: l)))).
    cbn [bt chrI app]. rewrite canon_refl. exact IH.
Qed.

(** A greedy star takes a whole run when the rest of the pattern accepts
    the end of the text. *)
Lemma starGreedy_all (A : Type) (p : ascii -> bool) (t : str)
      (K : str -> option A) (r : A) :
  forallb p t = true -> K [] = Some r -> starGreedy p t K = Some r.
Proof.
  intros Hp HK. induction t as [|x t IH]; [exact HK|].
  cbn [forallb] in Hp. apply andb_true_iff in Hp. destruct Hp as [Hx Hp].
  cbn [starGreedy]. rewrite Hx, (IH Hp). reflexivity.
Qed.

(** DELETE FROM followed by a table name and nothing else. *)
Lemma search_delete_plain (x : ascii) (t : str) :
  forallb isWord (x :: t) = true ->
  search deleteRe (lit "DELETE FROM " ++ x :: t)
  = Some (mkResult 0 (lit "DELETE FROM " ++ x :: t) [(1, x :: t)]).
Proof.
  intros H. cbn [forallb] in H. apply andb_true_iff in H. destruct H as [Hx Ht].
  unfold search. rewrite searchFrom_unfold. unfold matchAt, run, deleteRe.
  cbn [cat]. cbn [bt]. unfold litI at 1. rewrite bt_literal.
  unfold plus. cbn [bt]. rewrite Hx.
  erewrite starGreedy_all; [|exact Ht|reflexivity].
  cbn [length]. rewrite !Nat.sub_0_r, !firstn_all.
  change (S (length t)) with (length (x :: t)). rewrite firstn_all.
  reflexivity.
Qed.

(** C7. DELETE without a WHERE clause leaves the table empty; UPDATE whose
    WHERE clause matches no record returns the count 0 and leaves every
    record of the table as it was. *)
Theorem C7_delete_all_update_none :
  (forall (sql : str) (m : result) (st : store),
      search deleteRe sql = Some m -> group 2 m = None ->
      exists st', delete sql st = (Ok Undefined, st')
                  /\ load st' (groupOr 1 m) = [])
  /\ (forall (x : ascii) (t : str) (st : store),
         forallb isWord (x :: t) = true ->
         exists st', delete (lit "DELETE FROM " ++ x :: t) st
                     = (Ok Undefined, st')
                     /\ load st' (x :: t) = [])
  /\ (forall (sql : str) (m : result) (x : ascii) (w : str) (st : store),
         search updateRe sql = Some m -> group 3 m = Some (x :: w) ->
         (forall row, In row (load st (groupOr 1 m)) ->
                      evalWhere (x :: w) row = Ok false) ->
         exists st', update sql st = (Ok (Updated 0), st')
                     /\ load st' (groupOr 1 m) = load st (groupOr 1 m)).
Proof.
  split; [|split].
  - intros sql m st Hm Hw. unfold delete. rewrite Hm, Hw.
    eexists. split; [reflexivity|]. apply load_save.
  - intros x t st H. unfold delete. rewrite (search_delete_plain x t H).
    eexists. split; [reflexivity|]. apply load_save.
  - intros sql m x w st Hm Hw Hno. unfold update. rewrite Hm, Hw.
    rewrite (updateRows_none w x _ _ Hno).
    eexists. split; [reflexivity|].
    rewrite load_save. apply load_json.
Qed.

(** The two statements of the test suite on the table of four users. *)
Lemma C7_delete_all_update_none_witness :
  (exists st',
      delete (lit "DELETE FROM users") (tableStore "users" testUsers)
      = (Ok Undefined, st')
      /\ load st' (lit "users") = [])
  /\ (exists st',
         update (lit "UPDATE users SET name = 'Bob' WHERE id = 999")
                (tableStore "users" testUsers)
         = (Ok (Updated 0), st')
         /\ load st' (lit "users") = load (tableStore "users" testUsers)
                                          (lit "users")).
Proof.
  destruct C7_delete_all_update_none as (HD & _ & HU). split.
  - apply (HD (lit "DELETE FROM users")
              (mkResult 0 (lit "DELETE FROM users") [(1, lit "users")]));
      vm_compute; reflexivity.
  - apply (HU (lit "UPDATE users SET name = 'Bob' WHERE id = 999")
              (mkResult 0 (lit "UPDATE users SET name = 'Bob' WHERE id = 999")
                        [(3, lit "id = 999"); (2, lit "name = 'Bob'");
                         (1, lit "users")])
              "i"%char (lit "d = 999")).
    + vm_compute. reflexivity.
    + vm_compute. reflexivity.
    + intros row Hrow.
      change (load (tableStore "users" testUsers)
                   (groupOr 1
                      (mkResult 0
                         (lit "UPDATE users SET name = 'Bob' WHERE id = 999")
                         [(3, lit "id = 999"); (2, lit "name = 'Bob'");
                          (1, lit "users")])))
        with testUsers in Hrow.
      cbn [In testUsers] in Hrow.
      destruct Hrow as [<-|[<-|[<-|[<-|[]]]]]; vm_compute; reflexivity.
Defined.

(** ** C8: a statement that does not parse changes nothing *)

Lemma insert_throw (sql : str) (st : store) (e : error) (st' : store) :
  insert sql st = (Throw e, st') -> st' = st.
Proof.
  unfold insert. destruct (search insertRe sql); intros H; inversion H.
  reflexivity.
Qed.

Lemma delete_throw (sql : str) (st : store) (e : error) (st' : store) :
  delete sql st = (Throw e, st') -> st' = st.
Proof.
  unfold delete. destruct (search deleteRe sql) as [m|];
    [|intros H; inversion H; reflexivity].
  match goal with |- context [match ?k with Ok _ => _ | Throw _ => _ end] =>
    destruct k end; intros H; inversion H; reflexivity.
Qed.

Lemma update_throw (sql : str) (st : store) (e : error) (st' : store) :
  update sql st = (Throw e, st') -> st' = st.
Proof.
  unfold update. destruct (search updateRe sql) as [m|];
    [|intros H; inversion H; reflexivity].
  match goal with |- context [match ?k with Ok _ => _ | Throw _ => _ end] =>
    destruct k as [[d c]|] end; intros H; inversion H; reflexivity.
Qed.

(** C8. A parse failure is atomic: a statement whose clauses cannot be
    extracted ends the call with an error and leaves every table file as
    it was; an INSERT that does not parse appends no row and saves
    nothing.  More generally, no call that ends with an error has changed
    the store. *)
Theorem C8_parse_failure_atomic :
  (forall (sql : str) (st : store),
      search insertRe sql = None ->
      insert sql st = (Throw (Error (lit "Invalid INSERT syntax")), st))
  /\ (forall (sql : str) (st : store),
         search selectRe sql = None ->
         select sql st = (Throw (Error (lit "Invalid SELECT syntax")), st))
  /\ (forall (sql : str) (st : store),
         search deleteRe sql = None ->
         delete sql st = (Throw (Error (lit "Invalid DELETE syntax")), st))
  /\ (forall (sql : str) (st : store),
         search updateRe sql = None ->
         update sql st = (Throw (Error (lit "Invalid UPDATE syntax")), st))
  /\ (forall (sql : str) (st st' : store) (e : error),
         query sql st = (Throw e, st') -> st' = st).
Proof.
  repeat split.
  - intros sql st H. unfold insert. rewrite H. reflexivity.
  - intros sql st H. unfold select. rewrite H. reflexivity.
  - intros sql st H. unfold delete. rewrite H. reflexivity.
  - intros sql st H. unfold update. rewrite H. reflexivity.
  - intros sql st st' e. unfold query.
    repeat match goal with
           | |- context [if ?c then _ else _] => destruct c
           end; intros H.
    + rewrite <- (select_store (trim sql) st). rewrite H. reflexivity.
    + eapply insert_throw; eauto.
    + eapply delete_throw; eauto.
    + eapply update_throw; eauto.
    + inversion H. reflexivity.
Qed.

(** An INSERT without its column list does not parse and leaves the table of four users as it was. *)
Lemma C8_parse_failure_atomic_witness :
  search insertRe (lit "INSERT INTO users VALUES (1, 2)") = None
  /\ insert (lit "INSERT INTO users VALUES (1, 2)")
            (tableStore "users" testUsers)
     = (Throw (Error (lit "Invalid INSERT syntax")),
        tableStore "users" testUsers)
  /\ query (lit "INSERT INTO users VALUES (1, 2)")
           (tableStore "users" testUsers)
     = (Throw (Error (lit "Invalid INSERT syntax")),
        tableStore "users" testUsers).
Proof.
  destruct C8_parse_failure_atomic as (HI & _ & _ & _ & HQ).
  assert (N : search insertRe (lit "INSERT INTO users VALUES (1, 2)") = None)
    by (vm_compute; reflexivity).
  split; [exact N|]. split.
  - apply HI. exact N.
  - destruct (query (lit "INSERT INTO users VALUES (1, 2)")
                    (tableStore "users" testUsers)) as [r st'] eqn:E.
    assert (R : r = Throw (Error (lit "Invalid INSERT syntax"))).
    { change r with (fst (r, st')). rewrite <- E.
      unfold query.
      eval_closed (str_eqb (toUpperCase (takeWhile isNonSpace
                     (trim (lit "INSERT INTO users VALUES (1, 2)"))))
                     (lit "SELECT")).
      eval_closed (str_eqb (toUpperCase (takeWhile isNonSpace
                     (trim (lit "INSERT INTO users VALUES (1, 2)"))))
                     (lit "INSERT")).
      cbv iota.
      eval_closed (trim (lit "INSERT INTO users VALUES (1, 2)")).
      fold (lit "INSERT INTO users VALUES (1, 2)").
      rewrite HI by exact N. reflexivity. }
    subst r. rewrite (HQ _ _ _ _ E). reflexivity.
Defined.

(** ** C10: quote stripping *)






(** ** C6: ORDER BY *)

Lemma num_compare_antisym (x y : number) :
  num_compare y x = option_map CompOpp (num_compare x y).
Proof.
  destruct x as [|nx|m1 e1], y as [|ny|m2 e2]; cbn [num_compare option_map];
    try reflexivity.
  - destruct nx, ny; reflexivity.
  - destruct nx; reflexivity.
  - destruct ny; reflexivity.
  - rewrite (Z.min_comm e2 e1), Z.compare_antisym. reflexivity.
Qed.

Lemma num_ltb_flip (x y : number) : num_ltb y x = num_gtb x y.
Proof.
  unfold num_ltb, num_gtb. rewrite num_compare_antisym.
  destruct (num_compare x y) as [[]|]; reflexivity.
Qed.

Lemma coerceValue_number (s : str) :
  isNaN (toNumberStr s) = false -> coerceValue (VStr s) = VNum (toNumberStr s).
Proof. intros H. unfold coerceValue. cbn [toNumber]. rewrite H. reflexivity. Qed.

Lemma coerceValue_string (s : str) :
  isNaN (toNumberStr s) = true -> coerceValue (VStr s) = VStr s.
Proof. intros H. unfold coerceValue. cbn [toNumber]. rewrite H. reflexivity. Qed.

Lemma compareRows_numbers (f : str) (desc : bool) (a b : Row) (s t : str) :
  get a f = VStr s -> get b f = VStr t ->
  isNaN (toNumberStr s) = false -> isNaN (toNumberStr t) = false ->
  compareRows f desc a b =
    match num_compare (toNumberStr s) (toNumberStr t) with
    | Some Lt => if desc then 1%Z else (-1)%Z
    | Some Gt => if desc then (-1)%Z else 1%Z
    | _ => 0%Z
    end.
Proof.
  intros Ha Hb Hs Ht. unfold compareRows.
  rewrite Ha, Hb, !coerceValue_number by assumption.
  cbn [lessThan toNumber].
  rewrite (num_ltb_flip (toNumberStr s) (toNumberStr t)).
  unfold num_ltb, num_gtb.
  destruct (num_compare (toNumberStr s) (toNumberStr t)) as [[]|]; reflexivity.
Qed.

Lemma compareRows_strings (f : str) (desc : bool) (a b : Row) (s t : str) :
  get a f = VStr s -> get b f = VStr t ->
  isNaN (toNumberStr s) = true -> isNaN (toNumberStr t) = true ->
  compareRows f desc a b =
    if str_ltb s t then (if desc then 1%Z else (-1)%Z)
    else if str_ltb t s then (if desc then (-1)%Z else 1%Z)
    else 0%Z.
Proof.
  intros Ha Hb Hs Ht. unfold compareRows.
  rewrite Ha, Hb, !coerceValue_string by assumption.
  reflexivity.
Qed.

(** C6, the claim as written fails: neither [+Infinity] nor [-Infinity]
    parses as a finite number and [+Infinity] comes first in the order of
    strings, yet the ascending ORDER BY puts [-Infinity] first: the keys
    were compared as numbers. *)
Lemma C6_counterexample :
  toNumberStr (lit "+Infinity") = Inf false
  /\ toNumberStr (lit "-Infinity") = Inf true
  /\ str_ltb (lit "+Infinity") (lit "-Infinity") = true
  /\ fst (select (lit "SELECT v FROM t ORDER BY v ASC")
                 (tableStore "t" (column "v" ["+Infinity"; "-Infinity"]%string)))
     = Ok (Rows (column "v" ["-Infinity"; "+Infinity"]%string)).
Proof. repeat split; vm_compute; reflexivity. Qed.

(** C6, amended.  ORDER BY turns a sort key into a number whenever its
    conversion to a number is not NaN (an infinity included) and leaves it
    as it is otherwise; two string keys that both convert are compared as
    numbers, two that both do not are compared as strings by code units;
    the direction is ascending unless DESC is written.  Sorting the values
    100, 20, 5 in descending order yields 100, 20, 5 and sorting Zara,
    Alice, Bob in ascending order yields Alice, Bob, Zara. *)
Theorem C6_order_by :
  (forall s : str,
      isNaN (toNumberStr s) = false ->
      coerceValue (VStr s) = VNum (toNumberStr s))
  /\ (forall s : str,
         isNaN (toNumberStr s) = true -> coerceValue (VStr s) = VStr s)
  /\ (forall (f : str) (desc : bool) (a b : Row) (s t : str),
         get a f = VStr s -> get b f = VStr t ->
         isNaN (toNumberStr s) = false -> isNaN (toNumberStr t) = false ->
         compareRows f desc a b =
           match num_compare (toNumberStr s) (toNumberStr t) with
           | Some Lt => if desc then 1%Z else (-1)%Z
           | Some Gt => if desc then (-1)%Z else 1%Z
           | _ => 0%Z
           end)
  /\ (forall (f : str) (desc : bool) (a b : Row) (s t : str),
         get a f = VStr s -> get b f = VStr t ->
         isNaN (toNumberStr s) = true -> isNaN (toNumberStr t) = true ->
         compareRows f desc a b =
           if str_ltb s t then (if desc then 1%Z else (-1)%Z)
           else if str_ltb t s then (if desc then (-1)%Z else 1%Z)
           else 0%Z)
  /\ (forall st : store,
         select (lit "SELECT price FROM products ORDER BY price") st
         = select (lit "SELECT price FROM products ORDER BY price ASC") st)
  /\ fst (select (lit "SELECT price FROM products ORDER BY price DESC")
                 (tableStore "products"
                    (column "price" ["100"; "20"; "5"]%string)))
     = Ok (Rows (column "price" ["100"; "20"; "5"]%string))
  /\ fst (select (lit "SELECT price FROM products ORDER BY price DESC")
                 (tableStore "products"
                    (column "price" ["5"; "100"; "20"]%string)))
     = Ok (Rows (column "price" ["100"; "20"; "5"]%string))
  /\ fst (select (lit "SELECT name FROM users ORDER BY name ASC")
                 (tableStore "users"
                    (column "name" ["Zara"; "Alice"; "Bob"]%string)))
     = Ok (Rows (column "name" ["Alice"; "Bob"; "Zara"]%string))
  /\ fst (select (lit "SELECT name FROM users ORDER BY name")
                 (tableStore "users"
                    (column "name" ["Zara"; "Alice"; "Bob"]%string)))
     = Ok (Rows (column "name" ["Alice"; "Bob"; "Zara"]%string)).
Proof.
  split; [exact coerceValue_number|].
  split; [exact coerceValue_string|].
  split; [exact compareRows_numbers|].
  split; [exact compareRows_strings|].
  split.
  - intros st. unfold select. eval_searches. reflexivity.
  - repeat split; vm_compute; reflexivity.
Qed.

(** The keys of the two tests: 100 becomes a number, Zara stays a string. *)
Lemma C6_order_by_witness :
  coerceValue (VStr (lit "100")) = VNum (Fin 100 0)
  /\ coerceValue (VStr (lit "Zara")) = VStr (lit "Zara")
  /\ compareRows (lit "price") true
                 (rowOf [("price", "20")]%string)
                 (rowOf [("price", "100")]%string) = 1%Z
  /\ compareRows (lit "name") false
                 (rowOf [("name", "Zara")]%string)
                 (rowOf [("name", "Alice")]%string) = 1%Z.
Proof.
  destruct C6_order_by as (H1 & H2 & H3 & H4 & _).
  split; [|split; [|split]].
  - apply (H1 (lit "100")). reflexivity.
  - apply (H2 (lit "Zara")). reflexivity.
  - rewrite (H3 (lit "price") true _ _ (lit "20") (lit "100"));
      reflexivity.
  - rewrite (H4 (lit "name") false _ _ (lit "Zara") (lit "Alice"));
      reflexivity.
Defined.

(** ** C3: LIKE *)

Lemma bt_likeRe (v : str) :
  forall (s : str) (c : caps),
    forallb isDot s = true ->
    match bt (likeRe v) s c (fun s' c' => Some (s', c')) with
    | Some _ => true
    | None => false
    end = likeMatch v s.
Proof.
  induction v as [|c0 v IH]; intros s c Hs.
  - destruct s; reflexivity.
  - cbn [likeRe likeMatch bt]. unfold likeAtom.
    destruct (chr_eqb c0 "%"%char).
    + cbn [bt]. clear -IH Hs.
      induction s as [|x s IHs].
      * cbn [starGreedy]. rewrite IH by reflexivity.
        rewrite orb_false_r. reflexivity.
      * cbn [forallb] in Hs. apply andb_true_iff in Hs.
        destruct Hs as [Hx Hs]. cbn [starGreedy]. rewrite Hx.
        specialize (IHs Hs).
        destruct (starGreedy isDot s
                    (fun s' => bt (likeRe v) s' c (fun s'0 c' => Some (s'0, c')))).
        -- rewrite <- IHs. rewrite orb_true_r. reflexivity.
        -- rewrite <- IHs, orb_false_r.
           apply IH. cbn [forallb]. rewrite Hx, Hs. reflexivity.
    + destruct (chr_eqb c0 "_"%char).
      * cbn [bt]. destruct s as [|x s]; [reflexivity|].
        cbn [forallb] in Hs. apply andb_true_iff in Hs.
        destruct Hs as [Hx Hs]. rewrite Hx. apply IH. exact Hs.
      * unfold chrI. cbn [bt]. destruct s as [|x s]; [reflexivity|].
        cbn [forallb] in Hs. apply andb_true_iff in Hs.
        destruct Hs as [Hx Hs].
        destruct (chr_eqb (canon x) (canon c0)); [apply IH; exact Hs | reflexivity].
Qed.

(** On a field value without line terminators LIKE is the wildcard match
    of the specification. *)
Lemma like_refines (rawValue : str) (actual : value) :
  forallb isDot (toStr actual) = true ->
  evalOperator (lit "LIKE") actual rawValue
  = Ok (likeMatch (stripQuotes rawValue) (toStr actual)).
Proof.
  intros H. unfold evalOperator.
  eval_closed (toUpperCase (lit "LIKE")).
  cbn [str_eqb chr_eqb Ascii.eqb Bool.eqb andb lit list_ascii_of_string].
  rewrite compileRegExp_like. cbn [bind]. f_equal.
  unfold regexTest, testAnchored, run. cbn [fst snd].
  rewrite <- (bt_likeRe _ _ [] H).
  destruct (bt (likeRe (stripQuotes rawValue)) (toStr actual) []
               (fun s' c => Some (s', c))); reflexivity.
Qed.

(** C3, at the failing input.  The field value is a, line feed, b.  The
    wildcard match of the specification accepts it for the literals a%b
    and a_b, since the percent sign and the underscore stand for any
    character; the code answers false for both, since the pattern it
    compiles uses the dot, which no line terminator matches. *)
Theorem C3_like_line_terminator :
  likeMatch (lit "a%b") twoLines = true
  /\ evalCondition (lit "bio LIKE 'a%b'") [(lit "bio", VStr twoLines)]
     = Ok false
  /\ likeMatch (lit "a_b") twoLines = true
  /\ evalCondition (lit "bio LIKE 'a_b'") [(lit "bio", VStr twoLines)]
     = Ok false
  /\ fst (select (lit "SELECT bio FROM notes WHERE bio LIKE 'a%b'")
                 (tableStore "notes" [[(lit "bio", VStr twoLines)]]))
     = Ok (Rows []).
Proof. repeat split; vm_compute; reflexivity. Qed.

(** ** The parenthesis loop ends *)

Lemma length_trimStart (s : str) : length (trimStart s) <= length s.
Proof.
  induction s as [|x s IH]; [reflexivity|].
  cbn [trimStart]. destruct (isSpace x); cbn [length]; lia.
Qed.

Lemma length_trim (s : str) : length (trim s) <= length s.
Proof.
  unfold trim, trimEnd. rewrite length_rev.
  etransitivity; [apply length_trimStart|].
  rewrite length_rev. apply length_trimStart.
Qed.

Lemma length_slice (x : ascii) (s : str) :
  length (slice_1_m1 (x :: s)) <= length s.
Proof.
  unfold slice_1_m1. cbn [tl].
  induction s as [|y s IH]; [reflexivity|].
  destruct s as [|z s]; [cbn; lia|].
  change (removelast (y :: z :: s)) with (y :: removelast (z :: s)).
  cbn [length] in *. lia.
Qed.

(** With the length of the text as fuel the loop stops because its
    condition fails, not because the fuel is spent. *)
Lemma unwrapLoop_done (n : nat) :
  forall s : str,
    length s <= n ->
    startsWithChar "("%char (unwrapLoop n s)
    && endsWithChar ")"%char (unwrapLoop n s) = false.
Proof.
  induction n as [|n IH]; intros s H.
  - destruct s; [reflexivity | cbn in H; lia].
  - cbn [unwrapLoop].
    destruct (startsWithChar "("%char s && endsWithChar ")"%char s) eqn:E;
      [|exact E].
    apply IH. destruct s as [|x s]; [discriminate|].
    etransitivity; [apply length_trim|].
    etransitivity; [apply length_slice|]. cbn [length] in H. lia.
Qed.

Lemma unwrap_done (s : str) :
  startsWithChar "("%char (unwrap s) && endsWithChar ")"%char (unwrap s)
  = false.
Proof. apply unwrapLoop_done. apply length_trim. Qed.

(** ** The test suite of the repository, run on the model *)

Example test_commas_in_insert :
  rowsOf (session
    [ sqlText "INSERT INTO users (id, name, bio) VALUES (1, `Smith, John`, `Likes: coding, reading`)";
      sqlText "SELECT * FROM users WHERE id = 1" ] emptyStore)
  = Some [rowOf [("id", "1"); ("name", "Smith, John");
                 ("bio", "Likes: coding, reading")]%string].
Proof. vm_compute. reflexivity. Qed.

Example test_commas_in_update :
  rowsOf (session
    [ sqlText "INSERT INTO users (id, name) VALUES (1, `John`)";
      sqlText "UPDATE users SET name = `Smith, John`, bio = `Likes: coding, reading` WHERE id = 1";
      sqlText "SELECT * FROM users WHERE id = 1" ] emptyStore)
  = Some [rowOf [("id", "1"); ("name", "Smith, John");
                 ("bio", "Likes: coding, reading")]%string].
Proof. vm_compute. reflexivity. Qed.

Example test_commas_in_in :
  rowsOf (session
    [ sqlText "INSERT INTO users (id, name) VALUES (1, `Smith, John`)";
      sqlText "INSERT INTO users (id, name) VALUES (2, `Doe, Jane`)";
      sqlText "INSERT INTO users (id, name) VALUES (3, `Bob`)";
      sqlText "SELECT name FROM users WHERE name IN (`Smith, John`, `Doe, Jane`)" ]
    emptyStore)
  = Some (column "name" ["Smith, John"; "Doe, Jane"]%string).
Proof. vm_compute. reflexivity. Qed.

Example test_like_special_characters :
  rowsOf (session
    [ sqlText "INSERT INTO users (id, email) VALUES (1, `user@test.com`)";
      sqlText "INSERT INTO users (id, email) VALUES (2, `admin@example.org`)";
      sqlText "SELECT email FROM users WHERE email LIKE `%@test.%`" ]
    emptyStore)
  = Some (column "email" ["user@test.com"]%string).
Proof. vm_compute. reflexivity. Qed.

Example test_update_multiple_set :
  rowsOf (session
    [ sqlText "INSERT INTO users (id, name, age) VALUES (1, `Alice`, 25)";
      sqlText "UPDATE users SET name = `Alice Smith`, age = 26 WHERE id = 1";
      sqlText "SELECT * FROM users WHERE id = 1" ] emptyStore)
  = Some [rowOf [("id", "1"); ("name", "Alice Smith"); ("age", "26")]%string].
Proof. vm_compute. reflexivity. Qed.

Example test_delete_without_where :
  rowsOf (session
    [ sqlText "INSERT INTO users (id, name) VALUES (1, `Alice`)";
      sqlText "INSERT INTO users (id, name) VALUES (2, `Bob`)";
      sqlText "DELETE FROM users";
      sqlText "SELECT * FROM users" ] emptyStore)
  = Some [].
Proof. vm_compute. reflexivity. Qed.

Example test_empty_table :
  rowsOf (session [sqlText "SELECT * FROM nonexistent"] emptyStore) = Some [].
Proof. vm_compute. reflexivity. Qed.

Example test_limit :
  rowsOf (session
    [ sqlText "INSERT INTO users (id, name) VALUES (1, `Alice`)";
      sqlText "INSERT INTO users (id, name) VALUES (2, `Bob`)";
      sqlText "INSERT INTO users (id, name) VALUES (3, `Carol`)";
      sqlText "SELECT name FROM users LIMIT 2" ] emptyStore)
  = Some (column "name" ["Alice"; "Bob"]%string).
Proof. vm_compute. reflexivity. Qed.

Example test_comparison_operators :
  let inserts :=
    [ sqlText "INSERT INTO products (id, price) VALUES (1, `10`)";
      sqlText "INSERT INTO products (id, price) VALUES (2, `20`)";
      sqlText "INSERT INTO products (id, price) VALUES (3, `30`)" ] in
  rowsOf (session
            (inserts ++ [sqlText "SELECT id FROM products WHERE price >= 20"])
            emptyStore)
  = Some (column "id" ["2"; "3"]%string)
  /\ rowsOf (session
               (inserts ++ [sqlText "SELECT id FROM products WHERE price <= 20"])
               emptyStore)
     = Some (column "id" ["1"; "2"]%string).
Proof. split; vm_compute; reflexivity. Qed.

Example test_like_underscore :
  rowsOf (session
    [ sqlText "INSERT INTO users (id, code) VALUES (1, `A1`)";
      sqlText "INSERT INTO users (id, code) VALUES (2, `A2`)";
      sqlText "INSERT INTO users (id, code) VALUES (3, `B1`)";
      sqlText "SELECT code FROM users WHERE code LIKE `A_`" ] emptyStore)
  = Some (column "code" ["A1"; "A2"]%string).
Proof. vm_compute. reflexivity. Qed.

Example test_update_no_rows :
  session
    [ sqlText "INSERT INTO users (id, name) VALUES (1, `Alice`)";
      sqlText "UPDATE users SET name = `Bob` WHERE id = 999" ] emptyStore
  = Some (Ok (Updated 0))
  /\ rowsOf (session
       [ sqlText "INSERT INTO users (id, name) VALUES (1, `Alice`)";
         sqlText "UPDATE users SET name = `Bob` WHERE id = 999";
         sqlText "SELECT name FROM users WHERE id = 1" ] emptyStore)
     = Some (column "name" ["Alice"]%string).
Proof. split; vm_compute; reflexivity. Qed.

Example test_column_order :
  rowsOf (session
    [ sqlText "INSERT INTO users (id, name, age, city) VALUES (1, `Alice`, 25, `Berlin`)";
      sqlText "SELECT city, name FROM users WHERE id = 1" ] emptyStore)
  = Some [rowOf [("city", "Berlin"); ("name", "Alice")]%string].
Proof. vm_compute. reflexivity. Qed.

Example test_like_case_insensitive :
  rowsOf (session
    [ sqlText "INSERT INTO users (id, name) VALUES (1, `alice`)";
      sqlText "INSERT INTO users (id, name) VALUES (2, `ALICE`)";
      sqlText "INSERT INTO users (id, name) VALUES (3, `Alice`)";
      sqlText "SELECT name FROM users WHERE name LIKE `alice`" ] emptyStore)
  = Some (column "name" ["alice"; "ALICE"; "Alice"]%string).
Proof. vm_compute. reflexivity. Qed.

(** * Further properties of the handlers *)

(** ** Rows *)

Lemma get_set_same (r : Row) (k : str) (v : value) : get (set r k v) k = v.
Proof.
  induction r as [|[k0 w] r IH]; cbn [set get].
  - rewrite str_eqb_refl. reflexivity.
  - destruct (str_eqb k0 k) eqn:E; cbn [get]; rewrite E; [reflexivity | exact IH].
Qed.

Lemma get_set_other (r : Row) (k k' : str) (v : value) :
  k' <> k -> get (set r k v) k' = get r k'.
Proof.
  intros N. induction r as [|[k0 w] r IH]; cbn [set get].
  - destruct (str_eqb k k') eqn:E; [|reflexivity].
    apply str_eqb_true in E. congruence.
  - destruct (str_eqb k0 k) eqn:E; cbn [get].
    + apply str_eqb_true in E. subst k0.
      destruct (str_eqb k k') eqn:E'; [|reflexivity].
      apply str_eqb_true in E'. congruence.
    + destruct (str_eqb k0 k'); [reflexivity | exact IH].
Qed.

Lemma jsonOk_fixed (r : Row) : jsonOk r = true -> jsonRow r = r.
Proof.
  unfold jsonOk, jsonRow. induction r as [|[k v] r IH]; [reflexivity|].
  cbn [forallb snd]. intros H. apply andb_true_iff in H. destruct H as [Hv H].
  cbn [filter snd].
  destruct v as [| |s|[|neg|m e]]; try discriminate;
    cbn [map fst snd jsonValue]; rewrite (IH H); reflexivity.
Qed.

Lemma jsonRow_ok (r : Row) : jsonOk (jsonRow r) = true.
Proof.
  unfold jsonOk, jsonRow. induction r as [|[k v] r IH]; [reflexivity|].
  cbn [filter snd].
  destruct v as [| |s|[|neg|m e]]; cbn [map forallb fst snd jsonValue jsonValueOk];
    try exact IH; rewrite IH; reflexivity.
Qed.

Lemma jsonOk_set (r : Row) (k s : str) :
  jsonOk r = true -> jsonOk (set r k (VStr s)) = true.
Proof.
  unfold jsonOk. induction r as [|[k0 w] r IH]; [reflexivity|].
  cbn [forallb set snd]. intros H. apply andb_true_iff in H.
  destruct H as [Hw H].
  destruct (str_eqb k0 k); cbn [forallb snd jsonValueOk].
  - exact H.
  - rewrite Hw. cbn [andb]. apply IH. exact H.
Qed.

Lemma load_ok (st : store) (table : str) (r : Row) :
  In r (load st table) -> jsonOk r = true.
Proof.
  unfold load. destruct (st table) as [data|]; [|intros []].
  intros H. apply in_map_iff in H. destruct H as (r0 & <- & _).
  apply jsonRow_ok.
Qed.

Lemma map_jsonRow_fixed (l : list Row) :
  (forall r, In r l -> jsonOk r = true) -> map jsonRow l = l.
Proof.
  intros H. induction l as [|r l IH]; [reflexivity|].
  cbn [map]. rewrite (jsonOk_fixed r) by (apply H; left; reflexivity).
  rewrite IH by (intros r' Hr; apply H; right; exact Hr). reflexivity.
Qed.

Lemma load_save_other (st : store) (table t : str) (data : list Row) :
  t <> table -> load (save st table data) t = load st t.
Proof.
  intros N. unfold load, save.
  destruct (str_eqb t table) eqn:E; [|reflexivity].
  apply str_eqb_true in E. congruence.
Qed.

(** ** INSERT *)

Lemma zipRow_other (columns values : list str) (c : str) :
  ~ In c columns ->
  forall (j : nat) (row : Row),
    get (zipRow columns values j row) c = get row c.
Proof.
  induction columns as [|c0 columns IH]; intros N j row; [reflexivity|].
  cbn [zipRow]. rewrite IH by (intros H; apply N; right; exact H).
  apply get_set_other. intros E. apply N. left. symmetry. exact E.
Qed.

Lemma zipRow_get (columns values : list str) :
  NoDup columns ->
  forall (i j : nat) (c : str) (row : Row),
    nth_error columns i = Some c ->
    get (zipRow columns values j row) c = valueAt values (j + i).
Proof.
  induction columns as [|c0 columns IH]; intros ND i j c row H.
  - destruct i; discriminate.
  - inversion ND as [|? ? N0 ND']; subst. cbn [zipRow].
    destruct i as [|i]; cbn [nth_error] in H.
    + inversion H; subst c0. rewrite zipRow_other by exact N0.
      rewrite get_set_same, Nat.add_0_r. reflexivity.
    + rewrite (IH ND' i (S j) c _ H). f_equal. lia.
Qed.

Lemma zipRow_ok (columns values : list str) :
  forall (j : nat) (row : Row),
    jsonOk row = true -> j + length columns <= length values ->
    jsonOk (zipRow columns values j row) = true.
Proof.
  induction columns as [|c0 columns IH]; intros j row Hr Hl; [exact Hr|].
  cbn [zipRow length] in *. apply IH; [|lia].
  unfold valueAt. destruct (nth_error values j) as [v|] eqn:E.
  - apply jsonOk_set. exact Hr.
  - apply nth_error_None in E. lia.
Qed.

(** X1. INSERT returns the row built from its column and value lists,
    appends that row, as JSON keeps it, at the end of its table and leaves
    every other table as it was; when there is a value for every column the
    stored row is the returned row. *)
Theorem X1_insert_appends (sql : str) (m : result) (st : store) :
  search insertRe sql = Some m ->
  fst (insert sql st) = Ok (Inserted (insertedRow m))
  /\ load (snd (insert sql st)) (groupOr 1 m)
     = load st (groupOr 1 m) ++ [jsonRow (insertedRow m)]
  /\ (forall t : str, t <> groupOr 1 m ->
                      load (snd (insert sql st)) t = load st t)
  /\ (length (splitRespectingQuotes (groupOr 2 m))
      <= length (splitRespectingQuotes (groupOr 3 m)) ->
      jsonRow (insertedRow m) = insertedRow m).
Proof.
  intros H. unfold insert. rewrite H. cbn [fst snd]. fold (insertedRow m).
  split; [reflexivity|]. split; [|split].
  - rewrite load_save, map_app, load_json. reflexivity.
  - intros t N. apply load_save_other. exact N.
  - intros L. apply jsonOk_fixed. unfold insertedRow.
    apply zipRow_ok; [reflexivity|]. rewrite length_map. cbn [plus]. exact L.
Qed.

(** The INSERT of the quoted-comma test on the table of four users. *)
Lemma X1_insert_appends_witness :
  load (snd (insert insertSmith (tableStore "users" testUsers))) (lit "users")
  = testUsers ++ [rowOf [("id", "1"); ("name", "Smith, John")]%string].
Proof.
  destruct (X1_insert_appends insertSmith
              (mkResult 0 insertSmith
                 [(3, lit "1, " ++ quoted "Smith, John");
                  (2, lit "id, name"); (1, lit "users")])
              (tableStore "users" testUsers)
              ltac:(vm_compute; reflexivity)) as (_ & H & _).
  refine (eq_trans H _). vm_compute. reflexivity.
Defined.

(** X2. INSERT pairs columns and values by position: with distinct column
    names, the field named by the i-th column, unless it is __proto__,
    holds the i-th value, or undefined when there are fewer values, and a
    name that is no column and that rows do not inherit is absent. *)
Theorem X2_insert_zips_by_position (columns values : list str) :
  NoDup columns ->
  (forall (i : nat) (c : str),
      nth_error columns i = Some c -> c <> lit "__proto__" ->
      get (zipRow columns values 0 []) c = valueAt values i)
  /\ (forall c : str, ~ In c columns -> inheritedName c = false ->
                      get (zipRow columns values 0 []) c = VUndef).
Proof.
  intros ND. split.
  - intros i c H _. apply (zipRow_get columns values ND i 0 c [] H).
  - intros c N _. rewrite zipRow_other by exact N. reflexivity.
Qed.

Lemma X2_insert_zips_by_position_witness :
  get (zipRow [lit "id"; lit "name"; lit "age"] [lit "1"; lit "Bob"] 0 [])
      (lit "name") = VStr (lit "Bob")
  /\ get (zipRow [lit "id"; lit "name"; lit "age"] [lit "1"; lit "Bob"] 0 [])
         (lit "age") = VUndef
  /\ get (zipRow [lit "id"; lit "name"; lit "age"] [lit "1"; lit "Bob"] 0 [])
         (lit "city") = VUndef.
Proof.
  assert (ND : NoDup [lit "id"; lit "name"; lit "age"]).
  { repeat constructor; cbn; intuition discriminate. }
  destruct (X2_insert_zips_by_position
              [lit "id"; lit "name"; lit "age"] [lit "1"; lit "Bob"] ND)
    as [H H'].
  split; [|split].
  - apply (H 1); [reflexivity | discriminate].
  - apply (H 2); [reflexivity | discriminate].
  - apply H'; [cbn; intuition discriminate | reflexivity].
Defined.

(** ** DELETE, UPDATE and SELECT against the filter *)

Lemma filterM_where (w : str) (data : list Row) :
  filterM (evalWhere w) data = Ok (filter (whereValue w) data).
Proof. apply filterM_pure. intros r. apply evalWhere_total. Qed.

Lemma filterM_not_where (w : str) (data : list Row) :
  filterM (fun row => b <- evalWhere w row ;; Ok (negb b)) data
  = Ok (filter (fun r => negb (whereValue w r)) data).
Proof.
  apply filterM_pure. intros r. rewrite evalWhere_total. reflexivity.
Qed.

Lemma filter_load_fixed (st : store) (table : str) (P : Row -> bool) :
  map jsonRow (filter P (load st table)) = filter P (load st table).
Proof.
  apply map_jsonRow_fixed. intros r H. apply filter_In in H.
  destruct H as [H _]. eapply load_ok; eauto.
Qed.

(** X3. DELETE with a WHERE clause keeps exactly the rows of its table that
    do not satisfy the filter, in their order: no row that is left
    satisfies the filter, and no other table changes. *)
Theorem X3_delete_where (sql : str) (m : result) (x : ascii) (w : str)
        (st : store) :
  search deleteRe sql = Some m -> group 2 m = Some (x :: w) ->
  fst (delete sql st) = Ok Undefined
  /\ load (snd (delete sql st)) (groupOr 1 m)
     = filter (fun r => negb (whereValue (x :: w) r)) (load st (groupOr 1 m))
  /\ (forall r : Row, In r (load (snd (delete sql st)) (groupOr 1 m)) ->
                      evalWhere (x :: w) r = Ok false)
  /\ (forall t : str, t <> groupOr 1 m ->
                      load (snd (delete sql st)) t = load st t).
Proof.
  intros Hm Hw. unfold delete. rewrite Hm, Hw, filterM_not_where.
  cbn [fst snd]. split; [reflexivity|].
  assert (L : load (save st (groupOr 1 m)
                      (filter (fun r => negb (whereValue (x :: w) r))
                              (load st (groupOr 1 m)))) (groupOr 1 m)
              = filter (fun r => negb (whereValue (x :: w) r))
                       (load st (groupOr 1 m))).
  { rewrite load_save. apply filter_load_fixed. }
  split; [exact L|]. split.
  - intros r Hr. rewrite L in Hr. apply filter_In in Hr.
    destruct Hr as [_ Hr]. rewrite evalWhere_total.
    destruct (whereValue (x :: w) r); [discriminate | reflexivity].
  - intros t N. apply load_save_other. exact N.
Qed.

(** DELETE FROM users WHERE city = 'Berlin' on the four users leaves Bob
    and Dave. *)
Lemma X3_delete_where_witness :
  map (fun r => get r (lit "name"))
      (load (snd (delete (lit "DELETE FROM users WHERE city = 'Berlin'")
                         (tableStore "users" testUsers))) (lit "users"))
  = [VStr (lit "Bob"); VStr (lit "Dave")].
Proof.
  destruct (X3_delete_where
              (lit "DELETE FROM users WHERE city = 'Berlin'")
              (mkResult 0 (lit "DELETE FROM users WHERE city = 'Berlin'")
                        [(2, lit "city = 'Berlin'"); (1, lit "users")])
              "c"%char (lit "ity = 'Berlin'")
              (tableStore "users" testUsers)
              ltac:(vm_compute; reflexivity) ltac:(vm_compute; reflexivity))
    as (_ & H & _).
  refine (eq_trans (f_equal (map (fun r => get r (lit "name"))) H) _).
  vm_compute. reflexivity.
Defined.

Lemma updateRows_spec (wc : option str) (updates : Row) (data : list Row) :
  forall count : nat,
    updateRows wc updates data count
    = Ok (map (fun r => if passes wc r then spread r updates else r) data,
          count + length (filter (passes wc) data)).
Proof.
  induction data as [|row data IH]; intros count; cbn [updateRows map filter].
  - cbn [length]. rewrite Nat.add_0_r. reflexivity.
  - assert (E : match wc with
                | Some ((_ :: _) as w) => evalWhere w row
                | _ => Ok true
                end = Ok (passes wc row)).
    { destruct wc as [[|y w]|]; try reflexivity. apply evalWhere_total. }
    rewrite E. cbn [bind]. rewrite IH. cbn [bind fst snd].
    destruct (passes wc row); cbn [length]; f_equal; f_equal; lia.
Qed.

Lemma jsonOk_set_value (r : Row) (k : str) (v : value) :
  jsonValueOk v = true -> jsonOk r = true -> jsonOk (set r k v) = true.
Proof.
  intros Hv. unfold jsonOk. induction r as [|[k0 w] r IH].
  - intros _. cbn [set forallb snd]. rewrite Hv. reflexivity.
  - cbn [forallb set snd]. intros H. apply andb_true_iff in H.
    destruct H as [Hw H].
    destruct (str_eqb k0 k); cbn [forallb snd].
    + rewrite Hv. exact H.
    + rewrite Hw. cbn [andb]. apply IH. exact H.
Qed.

Lemma jsonOk_spread (updates row : Row) :
  jsonOk updates = true -> jsonOk row = true ->
  jsonOk (spread row updates) = true.
Proof.
  unfold spread. revert row.
  induction updates as [|[k v] updates IH]; intros row Hu Hr; [exact Hr|].
  cbn [fold_left fst snd]. unfold jsonOk in Hu. cbn [forallb snd] in Hu.
  apply andb_true_iff in Hu. destruct Hu as [Hv Hu].
  apply IH; [exact Hu|]. apply jsonOk_set_value; assumption.
Qed.

Lemma jsonOk_assignments (pairs : list str) :
  forall u : Row, jsonOk u = true ->
                  jsonOk (fold_left addAssignment pairs u) = true.
Proof.
  induction pairs as [|p pairs IH]; intros u H; [exact H|].
  cbn [fold_left]. apply IH. unfold addAssignment.
  destruct (indexOfChar "="%char p); [|exact H].
  apply jsonOk_set_value; [reflexivity | exact H].
Qed.

(** X4. UPDATE returns the number of rows of its table that satisfy the
    filter (all rows without a WHERE clause), merges the assignments into
    exactly those rows, keeps the other rows and the order, and leaves
    every other table as it was. *)
Theorem X4_update_count_and_rows (sql : str) (m : result) (st : store) :
  search updateRe sql = Some m ->
  fst (update sql st)
  = Ok (Updated (length (filter (passes (group 3 m))
                                (load st (groupOr 1 m)))))
  /\ load (snd (update sql st)) (groupOr 1 m)
     = map (fun r => if passes (group 3 m) r
                     then spread r (assignments m) else r)
           (load st (groupOr 1 m))
  /\ (forall t : str, t <> groupOr 1 m ->
                      load (snd (update sql st)) t = load st t).
Proof.
  intros Hm. unfold update. rewrite Hm, updateRows_spec.
  fold (assignments m). cbn [fst snd plus]. split; [reflexivity|]. split.
  - rewrite load_save. apply map_jsonRow_fixed.
    intros r H. apply in_map_iff in H. destruct H as (r0 & <- & H0).
    destruct (passes (group 3 m) r0).
    + apply jsonOk_spread; [|eapply load_ok; eauto].
      unfold assignments. apply jsonOk_assignments. reflexivity.
    + eapply load_ok; eauto.
  - intros t N. apply load_save_other. exact N.
Qed.

(** UPDATE users SET city = 'Rome' WHERE age > 28 on the four users
    touches Bob and Carol. *)
Lemma X4_update_count_and_rows_witness :
  fst (update (lit "UPDATE users SET city = 'Rome' WHERE age > 28")
              (tableStore "users" testUsers))
  = Ok (Updated 2).
Proof.
  destruct (X4_update_count_and_rows
              (lit "UPDATE users SET city = 'Rome' WHERE age > 28")
              (mkResult 0 (lit "UPDATE users SET city = 'Rome' WHERE age > 28")
                        [(3, lit "age > 28"); (2, lit "city = 'Rome'");
                         (1, lit "users")])
              (tableStore "users" testUsers)
              ltac:(vm_compute; reflexivity)) as (H & _).
  refine (eq_trans H _). vm_compute. reflexivity.
Defined.

Lemma hasKey_set (r : Row) (k k' : str) (v : value) :
  hasKey (set r k v) k' = str_eqb k k' || hasKey r k'.
Proof.
  unfold hasKey. induction r as [|[k0 w] r IH]; cbn [set existsb fst].
  - rewrite orb_false_r. reflexivity.
  - destruct (str_eqb k0 k) eqn:E; cbn [existsb fst].
    + apply str_eqb_true in E. subst k0.
      destruct (str_eqb k k'); reflexivity.
    + rewrite IH. destruct (str_eqb k0 k'), (str_eqb k k'); reflexivity.
Qed.

Lemma get_no_key (r : Row) (k : str) : hasKey r k = false -> get r k = VUndef.
Proof.
  unfold hasKey. induction r as [|[k0 w] r IH]; [reflexivity|].
  cbn [existsb fst get]. intros H. apply orb_false_iff in H.
  destruct H as [-> H]. apply IH. exact H.
Qed.

Lemma NoDup_keys_set (r : Row) (k : str) (v : value) :
  NoDup (keys r) -> NoDup (keys (set r k v)).
Proof.
  unfold keys. induction r as [|[k0 w] r IH]; intros ND; cbn [set map fst].
  - constructor; [intros [] | constructor].
  - inversion ND as [|? ? N0 ND']; subst.
    destruct (str_eqb k0 k) eqn:E; cbn [map fst].
    + constructor; assumption.
    + constructor; [|apply IH; exact ND'].
      intros H. apply in_map_iff in H. destruct H as ([k1 w1] & E1 & H1).
      cbn [fst] in E1. subst k1.
      assert (K : hasKey (set r k v) k0 = true).
      { unfold hasKey. apply existsb_exists. exists (k0, w1).
        split; [exact H1 | apply str_eqb_refl]. }
      rewrite hasKey_set in K. apply orb_true_iff in K.
      destruct K as [K|K].
      * apply str_eqb_true in K. subst k. rewrite str_eqb_refl in E.
        discriminate.
      * apply N0. unfold hasKey in K. apply existsb_exists in K.
        destruct K as ([k2 w2] & H2 & E2). cbn [fst] in E2.
        apply str_eqb_true in E2. subst k2.
        apply in_map_iff. exists (k0, w2). split; [reflexivity | exact H2].
Qed.

Lemma NoDup_keys_assignments (pairs : list str) :
  forall u : Row, NoDup (keys u) ->
                  NoDup (keys (fold_left addAssignment pairs u)).
Proof.
  induction pairs as [|p pairs IH]; intros u H; [exact H|].
  cbn [fold_left]. apply IH. unfold addAssignment.
  destruct (indexOfChar "="%char p); [|exact H].
  apply NoDup_keys_set. exact H.
Qed.

Lemma get_spread (updates : Row) :
  NoDup (keys updates) ->
  forall (row : Row) (k : str),
    get (spread row updates) k
    = if hasKey updates k then get updates k else get row k.
Proof.
  unfold spread.
  induction updates as [|[k0 v] updates IH]; intros ND row k; [reflexivity|].
  inversion ND as [|? ? N0 ND']; subst.
  cbn [fold_left fst snd]. rewrite (IH ND').
  unfold hasKey at 2. cbn [existsb fst get]. fold (hasKey updates k).
  destruct (str_eqb k0 k) eqn:E; cbn [orb].
  - apply str_eqb_true in E. subst k0.
    destruct (hasKey updates k) eqn:K.
    + exfalso. apply N0. unfold hasKey in K. apply existsb_exists in K.
      destruct K as ([k2 w2] & H2 & E2). cbn [fst] in E2.
      apply str_eqb_true in E2. subst k2.
      apply in_map_iff. exists (k, w2). split; [reflexivity | exact H2].
    + apply get_set_same.
  - destruct (hasKey updates k); [reflexivity|].
    apply get_set_other. intros E'. subst k0. rewrite str_eqb_refl in E.
    discriminate.
Qed.

(** X5. In a row that UPDATE touches, a field named in the SET clause reads
    as the value assigned to it and every other field reads as before. *)
Theorem X5_update_merges_assignments (pairs : list str) (row : Row) (k : str) :
  get (spread row (fold_left addAssignment pairs [])) k
  = if hasKey (fold_left addAssignment pairs []) k
    then get (fold_left addAssignment pairs []) k
    else get row k.
Proof.
  apply get_spread. apply NoDup_keys_assignments. constructor.
Qed.

(** X6. A SELECT * without ORDER BY and LIMIT returns exactly the rows of
    its table that satisfy the filter (all rows without a WHERE clause), in
    stored order, and changes nothing. *)
Theorem X6_select_filters (sql : str) (m : result) (st : store) :
  search selectRe sql = Some m ->
  trim (groupOr 1 m) = lit "*" -> group 4 m = None -> group 6 m = None ->
  select sql st
  = (Ok (Rows (filter (passes (group 3 m)) (load st (groupOr 2 m)))), st).
Proof.
  intros Hm Hc Ho Hl. unfold select. rewrite Hm, Hc, Ho, Hl.
  replace (str_eqb (lit "*") (lit "*")) with true by reflexivity.
  destruct (group 3 m) as [[|x w]|]; cbn [passes].
  - cbn [bind]. rewrite forallb_filter_id by (apply forallb_forall; auto).
    reflexivity.
  - rewrite filterM_where. reflexivity.
  - cbn [bind]. rewrite forallb_filter_id by (apply forallb_forall; auto).
    reflexivity.
Qed.

Lemma X6_select_filters_witness :
  select (lit "SELECT * FROM users WHERE age > 28")
         (tableStore "users" testUsers)
  = (Ok (Rows (filter (whereValue (lit "age > 28")) testUsers)),
     tableStore "users" testUsers).
Proof.
  refine (eq_trans
            (X6_select_filters
               (lit "SELECT * FROM users WHERE age > 28")
               (mkResult 0 (lit "SELECT * FROM users WHERE age > 28")
                         [(3, lit "age > 28"); (2, lit "users"); (1, lit "*")])
               (tableStore "users" testUsers)
               ltac:(vm_compute; reflexivity) ltac:(vm_compute; reflexivity)
               ltac:(vm_compute; reflexivity) ltac:(vm_compute; reflexivity))
            _).
  vm_compute. reflexivity.
Defined.

Lemma indexOfChar_first (c : ascii) (k v : str) :
  ~ In c k -> indexOfChar c (k ++ c :: v) = Some (length k).
Proof.
  induction k as [|x k IH]; intros N; cbn [app indexOfChar length].
  - rewrite chr_eqb_refl. reflexivity.
  - destruct (chr_eqb x c) eqn:E.
    + apply chr_eqb_true in E. exfalso. apply N. left. exact E.
    + rewrite IH by (intros H; apply N; right; exact H). reflexivity.
Qed.

Lemma indexOfChar_none (c : ascii) (s : str) :
  ~ In c s -> indexOfChar c s = None.
Proof.
  induction s as [|x s IH]; intros N; [reflexivity|].
  cbn [indexOfChar]. destruct (chr_eqb x c) eqn:E.
  - apply chr_eqb_true in E. exfalso. apply N. left. exact E.
  - rewrite IH by (intros H; apply N; right; exact H). reflexivity.
Qed.

(** X7. An assignment of the SET clause is cut at its first equals sign:
    the trimmed text before it is the field and the trimmed text after it,
    quotes stripped, is the value, which may hold further equals signs; a
    pair without an equals sign assigns nothing. *)
Theorem X7_assignment_cut_at_first_equals (updates : Row) :
  (forall k v : str,
      ~ In "="%char k ->
      addAssignment updates (k ++ "="%char :: v)
      = set updates (trim k) (VStr (stripQuotes (trim v))))
  /\ (forall pair : str,
         ~ In "="%char pair -> addAssignment updates pair = updates).
Proof.
  split.
  - intros k v N. unfold addAssignment. rewrite (indexOfChar_first _ k v N).
    rewrite firstn_app, Nat.sub_diag, firstn_all. cbn [firstn].
    rewrite app_nil_r.
    replace (length k + 1) with (length (k ++ ["="%char]))
      by (rewrite length_app; reflexivity).
    change (k ++ "="%char :: v) with (k ++ ["="%char] ++ v).
    rewrite app_assoc, skipn_app, skipn_all, Nat.sub_diag. reflexivity.
  - intros pair N. unfold addAssignment.
    rewrite (indexOfChar_none _ pair N). reflexivity.
Qed.

Lemma X7_assignment_cut_at_first_equals_witness :
  addAssignment [] (lit "note " ++ "="%char :: lit " 'a=b'")
  = [(lit "note", VStr (lit "a=b"))]
  /\ addAssignment [] (lit "note") = [].
Proof.
  destruct (X7_assignment_cut_at_first_equals []) as [H1 H2]. split.
  - refine (eq_trans (H1 (lit "note ") (lit " 'a=b'") _) _).
    + vm_compute. intuition discriminate.
    + vm_compute. reflexivity.
  - apply H2. vm_compute. intuition discriminate.
Defined.

(** X8. A SELECT with LIMIT n returns at most n rows and never more rows
    than its table holds. *)
Theorem X8_select_limit_bound (sql : str) (m : result) (x : ascii)
        (l : str) (st : store) :
  search selectRe sql = Some m -> group 6 m = Some (x :: l) ->
  exists rows : list Row,
    select sql st = (Ok (Rows rows), st)
    /\ length rows <= parseInt (x :: l)
    /\ length rows <= length (load st (groupOr 2 m)).
Proof.
  intros Hm Hl. unfold select. rewrite Hm, Hl.
  assert (F : exists rows1,
             match group 3 m with
             | Some ((_ :: _) as w) =>
                 filterM (evalWhere w) (load st (groupOr 2 m))
             | _ => Ok (load st (groupOr 2 m))
             end = Ok rows1
             /\ length rows1 <= length (load st (groupOr 2 m))).
  { destruct (group 3 m) as [[|y w]|]; try (eexists; split; [reflexivity|lia]).
    rewrite filterM_where. eexists. split; [reflexivity|].
    apply filter_length_le. }
  destruct F as (rows1 & -> & L1). cbn [bind].
  set (rows2 := match group 4 m with
                | Some ((_ :: _) as orderField) =>
                    sortBy (compareRows orderField (isDesc (group 5 m))) rows1
                | _ => rows1
                end).
  assert (L2 : length rows2 = length rows1).
  { subst rows2. destruct (group 4 m) as [[|y f]|]; try reflexivity.
    unfold sortBy. generalize (compareRows (y :: f) (isDesc (group 5 m))).
    intros cmp. clear. induction rows1 as [|r rows IH]; [reflexivity|].
    cbn [fold_right length]. rewrite <- IH.
    generalize (fold_right (insertBy cmp) [] rows). intros s.
    induction s as [|y s IHs]; [reflexivity|].
    cbn [insertBy]. destruct (cmp r y <=? 0)%Z; cbn [length]; [reflexivity|].
    rewrite IHs. reflexivity. }
  eexists. split; [reflexivity|].
  destruct (str_eqb (trim (groupOr 1 m)) (lit "*"));
    rewrite ?length_map, length_firstn; lia.
Qed.

Lemma X8_select_limit_bound_witness :
  exists rows : list Row,
    select (lit "SELECT * FROM users ORDER BY age LIMIT 3")
           (tableStore "users" testUsers)
    = (Ok (Rows rows), tableStore "users" testUsers)
    /\ length rows <= 3.
Proof.
  destruct (X8_select_limit_bound
              (lit "SELECT * FROM users ORDER BY age LIMIT 3")
              (mkResult 0 (lit "SELECT * FROM users ORDER BY age LIMIT 3")
                        [(6, lit "3"); (4, lit "age"); (2, lit "users");
                         (1, lit "*")])
              "3"%char [] (tableStore "users" testUsers)
              ltac:(vm_compute; reflexivity) ltac:(vm_compute; reflexivity))
    as (rows & H1 & H2 & _).
  exists rows. split; [exact H1 | exact H2].
Defined.

(** ** ORDER BY *)

Lemma insertBy_perm (A : Type) (cmp : A -> A -> Z) (x : A) (l : list A) :
  Permutation (insertBy cmp x l) (x :: l).
Proof.
  induction l as [|y l IH]; [apply Permutation_refl|].
  cbn [insertBy]. destruct (cmp x y <=? 0)%Z; [apply Permutation_refl|].
  eapply Permutation_trans; [apply perm_skip; exact IH | apply perm_swap].
Qed.

Lemma sortBy_perm (A : Type) (cmp : A -> A -> Z) (l : list A) :
  Permutation (sortBy cmp l) l.
Proof.
  unfold sortBy. induction l as [|x l IH]; [apply Permutation_refl|].
  cbn [fold_right].
  eapply Permutation_trans; [apply insertBy_perm | apply perm_skip; exact IH].
Qed.

Section InsertionSort.
Variable A : Type.
Variable cmp : A -> A -> Z.
Variable P : A -> Prop.
Variable le : A -> A -> Prop.
Hypothesis le_cmp : forall x y, P x -> P y -> (cmp x y <= 0)%Z -> le x y.
Hypothesis le_flip : forall x y, P x -> P y -> (0 < cmp x y)%Z -> le y x.
Hypothesis le_trans :
  forall x y z, P x -> P y -> P z -> le x y -> le y z -> le x z.

Lemma insertBy_sorted (x : A) (l : list A) :
  P x -> Forall P l -> StronglySorted le l ->
  StronglySorted le (insertBy cmp x l).
Proof.
  intros Px Pl S. induction S as [|y l S IH Hy].
  - constructor; constructor.
  - inversion Pl as [|? ? Py Pl']; subst. cbn [insertBy].
    destruct (cmp x y <=? 0)%Z eqn:E.
    + apply Z.leb_le in E.
      constructor; [constructor; assumption|].
      constructor; [apply le_cmp; assumption|].
      rewrite Forall_forall in *. intros z Hz.
      apply (le_trans x y z); auto.
    + apply Z.leb_gt in E. constructor; [apply IH; exact Pl'|].
      rewrite Forall_forall. intros z Hz.
      apply (Permutation_in _ (insertBy_perm A cmp x l)) in Hz.
      destruct Hz as [<-|Hz]; [apply le_flip; assumption|].
      rewrite Forall_forall in Hy. apply Hy. exact Hz.
Qed.

Lemma sortBy_sorted (l : list A) :
  Forall P l -> StronglySorted le (sortBy cmp l).
Proof.
  unfold sortBy. induction l as [|x l IH]; intros H; [constructor|].
  inversion H as [|? ? Px Pl]; subst. cbn [fold_right].
  apply insertBy_sorted; [exact Px | | apply IH; exact Pl].
  rewrite Forall_forall in *. intros z Hz. apply Pl.
  apply (Permutation_in _ (sortBy_perm A cmp l)). exact Hz.
Qed.
End InsertionSort.

Lemma str_ltb_asym (s t : str) : str_ltb s t = true -> str_ltb t s = false.
Proof.
  revert t. induction s as [|x s IH]; intros [|y t]; cbn [str_ltb];
    try discriminate; try reflexivity.
  destruct (N.ltb_spec (code x) (code y)), (N.ltb_spec (code y) (code x));
    try lia; try discriminate; try reflexivity.
  apply IH.
Qed.

Lemma str_le_trans (s t u : str) :
  str_ltb t s = false -> str_ltb u t = false -> str_ltb u s = false.
Proof.
  revert t u. induction s as [|x s IH]; intros t u H1 H2.
  - destruct u; reflexivity.
  - destruct t as [|y t]; [discriminate|].
    destruct u as [|z u]; [discriminate|].
    cbn [str_ltb] in *.
    destruct (N.ltb_spec (code y) (code x)); [discriminate|].
    destruct (N.ltb_spec (code z) (code y)); [discriminate|].
    destruct (N.ltb_spec (code z) (code x)); [lia|].
    destruct (N.ltb_spec (code x) (code z)); [reflexivity|].
    destruct (N.ltb_spec (code x) (code y)); [lia|].
    destruct (N.ltb_spec (code y) (code z)); [lia|].
    eapply IH; eauto.
Qed.

Lemma Zcompare_mul_pos (a b p : Z) :
  (0 < p)%Z -> (a * p ?= b * p)%Z = (a ?= b)%Z.
Proof.
  intros Hp. destruct (Z.compare_spec a b) as [->|H|H].
  - apply Z.compare_refl.
  - apply Z.compare_lt_iff. nia.
  - apply Z.compare_gt_iff. nia.
Qed.

Lemma fin_compare_scaled (L m1 e1 m2 e2 : Z) :
  (L <= e1)%Z -> (L <= e2)%Z ->
  (m1 * 10 ^ (e1 - Z.min e1 e2) ?= m2 * 10 ^ (e2 - Z.min e1 e2))%Z
  = (m1 * 10 ^ (e1 - L) ?= m2 * 10 ^ (e2 - L))%Z.
Proof.
  intros H1 H2. set (lo := Z.min e1 e2).
  assert (Hlo : (L <= lo /\ lo <= e1 /\ lo <= e2)%Z) by (subst lo; lia).
  replace (e1 - L)%Z with ((e1 - lo) + (lo - L))%Z by lia.
  replace (e2 - L)%Z with ((e2 - lo) + (lo - L))%Z by lia.
  rewrite !Z.pow_add_r by lia. rewrite !Z.mul_assoc.
  symmetry. apply Zcompare_mul_pos. apply Z.pow_pos_nonneg; lia.
Qed.

Lemma num_leb_trans (x y z : number) :
  num_leb x y = true -> num_leb y z = true -> num_leb x z = true.
Proof.
  unfold num_leb.
  destruct x as [|bx|m1 e1], y as [|by_|m2 e2], z as [|bz|m3 e3];
    cbn [num_compare]; try discriminate;
    try (destruct bx); try (destruct by_); try (destruct bz);
    cbn [Bool.eqb]; try discriminate; try reflexivity.
  set (L := Z.min e1 (Z.min e2 e3)).
  rewrite (fin_compare_scaled L m1 e1 m2 e2) by (subst L; lia).
  rewrite (fin_compare_scaled L m2 e2 m3 e3) by (subst L; lia).
  rewrite (fin_compare_scaled L m1 e1 m3 e3) by (subst L; lia).
  destruct (Z.compare_spec (m1 * 10 ^ (e1 - L)) (m2 * 10 ^ (e2 - L)));
    try discriminate;
    destruct (Z.compare_spec (m2 * 10 ^ (e2 - L)) (m3 * 10 ^ (e3 - L)));
    try discriminate;
    destruct (Z.compare_spec (m1 * 10 ^ (e1 - L)) (m3 * 10 ^ (e3 - L)));
    try reflexivity; lia.
Qed.

Lemma num_compare_defined (x y : number) :
  isNaN x = false -> isNaN y = false ->
  exists c, num_compare x y = Some c.
Proof.
  destruct x, y; cbn [isNaN num_compare]; try discriminate; eauto.
Qed.

(** Two numbers other than NaN are comparable. *)
Lemma num_not_ltb (x y : number) :
  isNaN x = false -> isNaN y = false ->
  num_ltb y x = false -> num_leb x y = true.
Proof.
  intros Hx Hy. unfold num_ltb, num_leb. rewrite (num_compare_antisym x y).
  destruct (num_compare_defined x y Hx Hy) as [c ->].
  destruct c; cbn [option_map CompOpp]; (discriminate || reflexivity).
Qed.

Lemma num_ltb_leb (x y : number) : num_ltb x y = true -> num_leb x y = true.
Proof.
  unfold num_ltb, num_leb.
  destruct (num_compare x y) as [[]|]; (discriminate || reflexivity).
Qed.

Lemma compareRows_keys (f : str) (desc : bool) (a b : Row) :
  compareRows f desc a b
  = if lessThan (sortKey f a) (sortKey f b) then (if desc then 1 else -1)%Z
    else if lessThan (sortKey f b) (sortKey f a)
         then (if desc then -1 else 1)%Z
         else 0%Z.
Proof. reflexivity. Qed.

(** X9. On rows whose sort keys are all numbers (strings that convert, or
    stored numbers, NaN apart) ORDER BY returns the rows in numerical
    order of their keys, upwards, or downwards with DESC. *)
Theorem X9_order_by_numeric_sorted (f : str) (desc : bool) (rows : list Row) :
  (forall r : Row, In r rows -> numericKey f r) ->
  StronglySorted (inOrder f desc) (sortBy (compareRows f desc) rows).
Proof.
  intros H.
  apply (sortBy_sorted Row (compareRows f desc) (numericKey f)
                       (inOrder f desc)).
  - intros x y (nx & Ex & Nx) (ny & Ey & Ny). rewrite compareRows_keys.
    unfold inOrder. rewrite Ex, Ey. cbn [lessThan toNumber keyLe].
    destruct desc.
    + destruct (num_ltb nx ny) eqn:L; [lia|]. intros _.
      apply num_not_ltb; assumption.
    + destruct (num_ltb nx ny) eqn:L; [intros _; apply num_ltb_leb; exact L|].
      destruct (num_ltb ny nx) eqn:L'; [lia|]. intros _.
      apply num_not_ltb; assumption.
  - intros x y (nx & Ex & Nx) (ny & Ey & Ny). rewrite compareRows_keys.
    unfold inOrder. rewrite Ex, Ey. cbn [lessThan toNumber keyLe].
    destruct desc.
    + destruct (num_ltb nx ny) eqn:L; [intros _; apply num_ltb_leb; exact L|].
      destruct (num_ltb ny nx); lia.
    + destruct (num_ltb nx ny) eqn:L; [lia|].
      destruct (num_ltb ny nx) eqn:L'; [|lia]. intros _.
      apply num_ltb_leb. exact L'.
  - intros x y z (nx & Ex & Nx) (ny & Ey & Ny) (nz & Ez & Nz).
    unfold inOrder. rewrite Ex, Ey, Ez. cbn [keyLe].
    destruct desc; intros A B; eapply num_leb_trans; eauto.
  - apply Forall_forall. exact H.
Qed.

(** The prices of the test, inserted as 5, 100, 20, come out as 5, 20, 100. *)
Lemma X9_order_by_numeric_sorted_witness :
  StronglySorted (inOrder (lit "price") false)
    (sortBy (compareRows (lit "price") false)
            (column "price" ["5"; "100"; "20"]%string)).
Proof.
  apply X9_order_by_numeric_sorted.
  intros r H. cbn [In column map] in H.
  destruct H as [<-|[<-|[<-|[]]]]; eexists; split;
    vm_compute; reflexivity.
Defined.

(** X10. On rows whose sort keys all stay strings (strings that do not
    convert to a number) ORDER BY returns the rows in the order of their
    keys as strings of code units, upwards, or downwards with DESC. *)
Theorem X10_order_by_string_sorted (f : str) (desc : bool) (rows : list Row) :
  (forall r : Row, In r rows -> stringKey f r) ->
  StronglySorted (inOrder f desc) (sortBy (compareRows f desc) rows).
Proof.
  intros H.
  apply (sortBy_sorted Row (compareRows f desc) (stringKey f)
                       (inOrder f desc)).
  - intros x y (sx & Ex) (sy & Ey). rewrite compareRows_keys.
    unfold inOrder. rewrite Ex, Ey. cbn [lessThan keyLe].
    destruct desc.
    + destruct (str_ltb sx sy) eqn:L; [lia | reflexivity].
    + destruct (str_ltb sx sy) eqn:L;
        [intros _; apply str_ltb_asym; exact L|].
      destruct (str_ltb sy sx) eqn:L'; [lia | reflexivity].
  - intros x y (sx & Ex) (sy & Ey). rewrite compareRows_keys.
    unfold inOrder. rewrite Ex, Ey. cbn [lessThan keyLe].
    destruct desc.
    + destruct (str_ltb sx sy) eqn:L;
        [intros _; apply str_ltb_asym; exact L|].
      destruct (str_ltb sy sx); lia.
    + destruct (str_ltb sx sy) eqn:L; [lia | reflexivity].
  - intros x y z (sx & Ex) (sy & Ey) (sz & Ez).
    unfold inOrder. rewrite Ex, Ey, Ez. cbn [keyLe].
    destruct desc; intros A B; eapply str_le_trans; eauto.
  - apply Forall_forall. exact H.
Qed.

Lemma X10_order_by_string_sorted_witness :
  StronglySorted (inOrder (lit "name") true)
    (sortBy (compareRows (lit "name") true)
            (column "name" ["Zara"; "Alice"; "Bob"]%string)).
Proof.
  apply X10_order_by_string_sorted.
  intros r H. cbn [In column map] in H.
  destruct H as [<-|[<-|[<-|[]]]]; eexists; vm_compute; reflexivity.
Defined.

(** X11. A SELECT * with ORDER BY and without LIMIT returns the rows that
    satisfy the filter, each exactly once: ordering neither drops nor
    repeats a row. *)
Theorem X11_order_by_permutes (sql : str) (m : result) (st : store) :
  search selectRe sql = Some m ->
  trim (groupOr 1 m) = lit "*" -> group 6 m = None ->
  exists rows : list Row,
    select sql st = (Ok (Rows rows), st)
    /\ Permutation rows (filter (passes (group 3 m)) (load st (groupOr 2 m))).
Proof.
  intros Hm Hc Hl. unfold select. rewrite Hm, Hc, Hl.
  replace (str_eqb (lit "*") (lit "*")) with true by reflexivity.
  assert (F : match group 3 m with
              | Some ((_ :: _) as w) =>
                  filterM (evalWhere w) (load st (groupOr 2 m))
              | _ => Ok (load st (groupOr 2 m))
              end = Ok (filter (passes (group 3 m)) (load st (groupOr 2 m)))).
  { destruct (group 3 m) as [[|y w]|]; cbn [passes];
      try (rewrite forallb_filter_id by (apply forallb_forall; auto);
           reflexivity).
    apply filterM_where. }
  rewrite F. cbn [bind]. eexists. split; [reflexivity|].
  destruct (group 4 m) as [[|y f]|]; try apply Permutation_refl.
  apply sortBy_perm.
Qed.

Lemma X11_order_by_permutes_witness :
  exists rows : list Row,
    select (lit "SELECT * FROM users ORDER BY age DESC")
           (tableStore "users" testUsers)
    = (Ok (Rows rows), tableStore "users" testUsers)
    /\ Permutation rows testUsers.
Proof.
  destruct (X11_order_by_permutes
              (lit "SELECT * FROM users ORDER BY age DESC")
              (mkResult 0 (lit "SELECT * FROM users ORDER BY age DESC")
                        [(5, lit "DESC"); (4, lit "age"); (2, lit "users");
                         (1, lit "*")])
              (tableStore "users" testUsers)
              ltac:(vm_compute; reflexivity) ltac:(vm_compute; reflexivity)
              ltac:(vm_compute; reflexivity))
    as (rows & H1 & H2).
  exists rows. split; [exact H1 | exact H2].
Defined.

(** ** The quote-aware splitter without quotes, and with an open quote *)

Lemma splitChar_cons (d : ascii) (s cur : str) :
  exists seg segs, splitChar d cur s = seg :: segs.
Proof.
  revert cur. induction s as [|x s IH]; intros cur; cbn [splitChar];
    [eauto|]. destruct (chr_eqb x d); [eauto | apply IH].
Qed.

Lemma splitStep_noquote (s : str) :
  noQuote s = true ->
  forall (res : list str) (cur : str) (qc : option ascii),
    fold_left (splitStep ","%char) s (mkSplit res cur false qc)
    = mkSplit (res ++ map trim (removelast (splitChar ","%char cur s)))
              (last (splitChar ","%char cur s) []) false qc.
Proof.
  unfold noQuote.
  induction s as [|x s IH]; intros H res cur qc; cbn [fold_left splitChar].
  - cbn [removelast map last]. rewrite app_nil_r. reflexivity.
  - cbn [forallb] in H. apply andb_true_iff in H. destruct H as [Hx H].
    apply negb_true_iff in Hx.
    unfold splitStep at 2.
    cbn [sq_inQuotes sq_quoteChar sq_result sq_current negb].
    rewrite Hx, andb_false_r. cbn [andb]. rewrite andb_true_r.
    destruct (chr_eqb x ","%char).
    + rewrite (IH H).
      destruct (splitChar_cons ","%char s []) as (seg & segs & E).
      rewrite E. cbn [removelast map last]. rewrite <- app_assoc.
      reflexivity.
    + apply (IH H).
Qed.

Lemma removelast_map (A B : Type) (f : A -> B) (l : list A) :
  removelast (map f l) = map f (removelast l).
Proof.
  induction l as [|x l IH]; [reflexivity|].
  destruct l as [|y l]; [reflexivity|].
  cbn [map removelast] in *. rewrite IH. reflexivity.
Qed.

Lemma last_map (A B : Type) (f : A -> B) (l : list A) (d : A) (d' : B) :
  l <> [] -> last (map f l) d' = f (last l d).
Proof.
  induction l as [|x l IH]; [congruence|]. intros _.
  destruct l as [|y l]; [reflexivity|].
  cbn [map last] in *. apply IH. discriminate.
Qed.

(** X12. On a text without quote characters the quote-aware splitter is
    the plain split on commas with every segment trimmed, except that a
    last segment that is empty once trimmed is left out; empty segments
    elsewhere are kept. *)
Theorem X12_split_without_quotes (s : str) :
  noQuote s = true -> splitRespectingQuotes s = plainSplit s.
Proof.
  intros H. unfold splitRespectingQuotes, splitRespectingQuotesBy, plainSplit.
  rewrite (splitStep_noquote s H). unfold splitFinish.
  cbn [sq_result sq_current app].
  destruct (splitChar_cons ","%char s []) as (seg & segs & E).
  assert (N : splitChar ","%char [] s <> []) by (rewrite E; discriminate).
  rewrite (last_map _ _ trim _ [] [] N).
  destruct (trim (last (splitChar ","%char [] s) [])) eqn:T.
  - rewrite removelast_map. reflexivity.
  - rewrite <- T.
    rewrite <- (last_map _ _ trim _ [] [] N), <- removelast_map.
    symmetry. apply app_removelast_last.
    intros E'. apply map_eq_nil in E'. contradiction.
Qed.

Lemma X12_split_without_quotes_witness :
  splitRespectingQuotes (lit " a ,, b c , ")
  = [lit "a"; []; lit "b c"].
Proof.
  refine (eq_trans (X12_split_without_quotes (lit " a ,, b c , ") _) _);
    vm_compute; reflexivity.
Defined.

Lemma trimStart_snoc_nonspace (l : str) (q : ascii) :
  isSpace q = false -> trimStart (l ++ [q]) <> [].
Proof.
  intros Q. induction l as [|x l IH]; cbn [app trimStart].
  - rewrite Q. discriminate.
  - destruct (isSpace x); [exact IH | discriminate].
Qed.

Lemma trim_head_nonspace (q : ascii) (t : str) :
  isSpace q = false -> trim (q :: t) <> [].
Proof.
  intros Q. unfold trim, trimEnd. rewrite trimStart_nonspace by exact Q.
  cbn [rev]. intros E.
  apply (f_equal (@rev ascii)) in E. rewrite rev_involutive in E.
  cbn [rev] in E. revert E. apply trimStart_snoc_nonspace. exact Q.
Qed.

(** X13. A quote that is never closed raises no error: from the opening
    quote on, the rest of the text, delimiters included, is one segment. *)
Theorem X13_split_open_quote (d q : ascii) (pre t : str) :
  isQuote q = true -> ~ In q t ->
  sq_inQuotes (fold_left (splitStep d) pre splitInit) = false ->
  splitRespectingQuotesBy d (pre ++ q :: t)
  = sq_result (fold_left (splitStep d) pre splitInit)
    ++ [trim (sq_current (fold_left (splitStep d) pre splitInit) ++ q :: t)].
Proof.
  intros Q N Hpre. unfold splitRespectingQuotesBy. fold splitInit.
  rewrite fold_left_app.
  destruct (fold_left (splitStep d) pre splitInit) as [res cur inq qc].
  cbn [sq_inQuotes sq_result sq_current] in *. subst inq.
  cbn [fold_left]. unfold splitStep at 2.
  cbn [sq_inQuotes sq_quoteChar sq_result sq_current negb].
  rewrite Q. cbn [andb].
  rewrite (splitStep_inside d q t N). unfold splitFinish.
  cbn [sq_result sq_current]. rewrite <- app_assoc. cbn [app].
  destruct (trim (cur ++ q :: t)) eqn:T; [|reflexivity].
  exfalso. revert T. unfold trim, trimEnd. intros T.
  apply (f_equal (@rev ascii)) in T. rewrite rev_involutive in T.
  cbn [rev] in T. revert T.
  assert (R : exists l, rev (trimStart (cur ++ q :: t)) = l ++ [q] \/
                        exists y, isSpace y = false
                                  /\ rev (trimStart (cur ++ q :: t)) = l ++ [y]).
  { induction cur as [|x cur IH]; cbn [app trimStart].
    - rewrite (isQuote_not_space q Q). cbn [rev].
      exists (rev t). left. reflexivity.
    - destruct (isSpace x) eqn:X; [exact IH|].
      cbn [rev]. exists (rev (cur ++ q :: t)). right. exists x. auto. }
  destruct R as (l & [-> | (y & Y & ->)]).
  - apply trimStart_snoc_nonspace. apply isQuote_not_space. exact Q.
  - apply trimStart_snoc_nonspace. exact Y.
Qed.

Lemma X13_split_open_quote_witness :
  splitRespectingQuotesBy ","%char (lit "1, " ++ squote :: lit "abc, 2")
  = [lit "1"; squote :: lit "abc, 2"].
Proof.
  refine (eq_trans
            (X13_split_open_quote ","%char squote (lit "1, ") (lit "abc, 2")
                                  _ _ _) _).
  - reflexivity.
  - vm_compute. intuition discriminate.
  - reflexivity.
  - vm_compute. reflexivity.
Defined.

(** ** The logical splitter *)

Lemma logicScan_quiet (prev : option ascii) (x : ascii) (st : LogicState) :
  quiet x = true -> lg_inQuotes st = false -> logicScan prev x st = st.
Proof.
  unfold quiet. intros H Q. apply andb_true_iff in H. destruct H as [H H3].
  apply andb_true_iff in H. destruct H as [H1 H2].
  apply negb_true_iff in H1, H2, H3.
  unfold logicScan. rewrite H1, H2, H3, Q. cbn [andb negb].
  rewrite andb_false_r. reflexivity.
Qed.

Lemma searchFrom_index (r : re) (s : str) :
  forall (i : nat) (m : result), searchFrom r i s = Some m -> i <= index m.
Proof.
  intros i m H. apply searchFrom_some in H.
  destruct H as (pre & a & post & c & _ & _ & -> & _). cbn [index]. lia.
Qed.

Lemma operatorAt_none (op s : str) :
  run (operatorRe op) s = None -> operatorAt op s = None.
Proof.
  intros H. unfold operatorAt, search. rewrite searchFrom_unfold.
  unfold matchAt. rewrite H.
  destruct s as [|x s]; [reflexivity|].
  destruct (searchFrom (operatorRe op) 1 s) as [m|] eqn:E; [|reflexivity].
  apply searchFrom_index in E.
  destruct (index m) as [|n]; [lia | reflexivity].
Qed.

Lemma operatorRe_unfold (op : str) :
  operatorRe op
  = Seq (plus true isSpace) (Seq (cat (map chrI op)) (plus true isSpace)).
Proof. reflexivity. Qed.

Lemma run_operator_nonspace (op : str) (x : ascii) (s : str) :
  isSpace x = false -> run (operatorRe op) (x :: s) = None.
Proof.
  intros H. unfold run. rewrite operatorRe_unfold. unfold plus at 1.
  cbn [bt]. rewrite H. reflexivity.
Qed.

Lemma run_operator_empty (op : str) : run (operatorRe op) [] = None.
Proof. reflexivity. Qed.

(** One character that is no split point joins the current term. *)
Lemma logicLoop_quiet (op : str) (x : ascii) (rest : str)
      (prev : option ascii) (st : LogicState) :
  quiet x = true -> lg_inQuotes st = false ->
  run (operatorRe op) (x :: rest) = None \/ lg_depth st <> 0%Z ->
  logicLoop op (x :: rest) prev 0 st
  = logicLoop op rest (Some x) 0 (addCurrent st [x]).
Proof.
  intros Hx Hq Hn. cbn [logicLoop]. rewrite (logicScan_quiet prev x st Hx Hq).
  destruct st as [ps cur inq qc d]. cbn [lg_inQuotes lg_depth] in *.
  subst inq. cbn [negb andb lg_inQuotes lg_depth].
  assert (F : (if (d =? 0)%Z then operatorAt op (x :: rest) else None) = None).
  { destruct (Z.eqb_spec d 0) as [E|E]; [|reflexivity].
    destruct Hn as [Hn|Hn]; [apply operatorAt_none; exact Hn | contradiction]. }
  rewrite F. reflexivity.
Qed.

Lemma plain_quiet (x : ascii) : plain x = true -> quiet x = true.
Proof. unfold plain. intros H. apply andb_true_iff in H. tauto. Qed.

Lemma plain_nonspace (x : ascii) : plain x = true -> isSpace x = false.
Proof.
  unfold plain. intros H. apply andb_true_iff in H.
  destruct H as [_ H]. apply negb_true_iff in H. exact H.
Qed.

Lemma isSpace_quiet (x : ascii) : isSpace x = true -> quiet x = true.
Proof.
  destruct x as [[] [] [] [] [] [] [] []]; vm_compute;
    (discriminate || reflexivity).
Qed.

Lemma addCurrent_app (st : LogicState) (a b : str) :
  addCurrent (addCurrent st a) b = addCurrent st (a ++ b).
Proof. unfold addCurrent. cbn. rewrite <- app_assoc. reflexivity. Qed.

(** A term without white space, quotes and parentheses joins the current
    term whole. *)
Lemma logicLoop_plain (op : str) (t : str) :
  plainText t = true ->
  forall (rest : str) (prev : option ascii) (st : LogicState),
    lg_inQuotes st = false ->
    exists prev',
      logicLoop op (t ++ rest) prev 0 st
      = logicLoop op rest prev' 0 (addCurrent st t).
Proof.
  unfold plainText.
  induction t as [|x t IH]; intros H rest prev st Hq.
  - exists prev. unfold addCurrent. rewrite app_nil_r.
    destruct st; reflexivity.
  - cbn [forallb] in H. apply andb_true_iff in H. destruct H as [Hx H].
    cbn [app]. rewrite logicLoop_quiet;
      [ | apply plain_quiet; exact Hx | exact Hq
        | left; apply run_operator_nonspace; apply plain_nonspace; exact Hx ].
    destruct (IH H rest (Some x) (addCurrent st [x]) Hq) as [prev' E].
    exists prev'. rewrite E, addCurrent_app. reflexivity.
Qed.

(** The characters that a match jumps over leave the state as it is. *)
Lemma logicLoop_skip (op : str) (t : str) :
  forall (rest : str) (prev : option ascii) (st : LogicState),
    exists prev',
      logicLoop op (t ++ rest) prev (length t) st
      = logicLoop op rest prev' 0 st.
Proof.
  induction t as [|x t IH]; intros rest prev st.
  - exists prev. reflexivity.
  - cbn [app length logicLoop]. apply IH.
Qed.

(** The operator word between two white-space characters, followed by a
    character that is no white space, is a split point of that length. *)
Lemma operatorAt_here (op : str) (w1 w2 y : ascii) (b : str) :
  operatorWord op = true ->
  isSpace w1 = true -> isSpace w2 = true -> isSpace y = false ->
  operatorAt op (w1 :: op ++ w2 :: y :: b) = Some (length op + 2).
Proof.
  intros Hop W1 W2 Hy.
  destruct op as [|o op']; [discriminate|].
  cbn [operatorWord] in Hop. apply negb_true_iff in Hop.
  unfold operatorAt, search. rewrite searchFrom_unfold.
  unfold matchAt, run. rewrite operatorRe_unfold. unfold plus.
  cbn [bt]. rewrite W1. cbn [app starGreedy]. rewrite Hop.
  change (o :: op' ++ w2 :: y :: b) with ((o :: op') ++ w2 :: y :: b).
  rewrite bt_literal. rewrite W2. cbn [starGreedy]. rewrite Hy.
  cbn [index matched Nat.eqb]. f_equal.
  rewrite length_firstn. cbn [length]. rewrite !length_app. cbn [length].
  lia.
Qed.

Lemma trim_plain (t : str) : plainText t = true -> trim t = t.
Proof.
  intros H. destruct t as [|x t]; [reflexivity|].
  assert (L : exists t' y, x :: t = t' ++ [y] /\ isSpace y = false).
  { assert (N : x :: t <> []) by discriminate.
    destruct (exists_last N) as (t' & y & E). exists t', y.
    split; [exact E|].
    unfold plainText in H. rewrite E, forallb_app in H.
    apply andb_true_iff in H. destruct H as [_ H]. cbn [forallb] in H.
    apply andb_true_iff in H. destruct H as [H _].
    apply plain_nonspace. exact H. }
  destruct L as (t' & y & E & Y).
  cbn [plainText forallb] in H. apply andb_true_iff in H.
  destruct H as [Hx _]. apply plain_nonspace in Hx.
  unfold trim, trimEnd. rewrite trimStart_nonspace by exact Hx.
  rewrite E, rev_app_distr. cbn [rev app].
  rewrite trimStart_nonspace by exact Y.
  change (y :: rev t') with (rev [y] ++ rev t').
  rewrite <- rev_app_distr, rev_involutive. reflexivity.
Qed.

Lemma split_two_terms (op a b : str) (w1 w2 : ascii) :
  operatorWord op = true ->
  plainText a = true -> plainText b = true -> b <> [] ->
  isSpace w1 = true -> isSpace w2 = true ->
  splitLogicalOperator (a ++ w1 :: op ++ w2 :: b) op = [a; b].
Proof.
  intros Hop Ha Hb Nb W1 W2.
  destruct b as [|y b]; [congruence|].
  assert (Hy : isSpace y = false).
  { cbn [plainText forallb] in Hb. apply andb_true_iff in Hb.
    apply plain_nonspace. tauto. }
  unfold splitLogicalOperator.
  destruct (logicLoop_plain op a Ha (w1 :: op ++ w2 :: y :: b) None
                            (mkLogic [] [] false None 0) eq_refl)
    as [p1 ->].
  unfold addCurrent.
  cbn [lg_parts lg_current lg_inQuotes lg_quoteChar lg_depth app].
  cbn [logicLoop].
  rewrite logicScan_quiet by (apply isSpace_quiet; exact W1) || reflexivity.
  cbn [lg_parts lg_current lg_inQuotes lg_quoteChar lg_depth negb andb Z.eqb].
  rewrite (operatorAt_here op w1 w2 y b Hop W1 W2 Hy).
  replace (length op + 2 - 1) with (length (op ++ [w2]))
    by (rewrite length_app; cbn [length]; lia).
  change (op ++ w2 :: y :: b) with (op ++ [w2] ++ y :: b).
  rewrite app_assoc.
  destruct (logicLoop_skip op (op ++ [w2]) (y :: b) (Some w1)
              (mkLogic ([] ++ [trim a]) [] false None 0)) as [p2 ->].
  destruct (logicLoop_plain op (y :: b) Hb [] p2
              (mkLogic ([] ++ [trim a]) [] false None 0) eq_refl) as [p3 E].
  rewrite app_nil_r in E. rewrite E. unfold addCurrent.
  cbn [lg_parts lg_current lg_inQuotes lg_quoteChar lg_depth app logicLoop].
  rewrite (trim_plain a Ha), (trim_plain (y :: b) Hb). reflexivity.
Qed.

(** X14. Two terms without white space, quotes and parentheses, joined by
    the operator word between two white-space characters, are split into
    exactly these two terms. *)
Theorem X14_split_two_terms (op a b : str) (w1 w2 : ascii) :
  operatorWord op = true ->
  plainText a = true -> plainText b = true -> b <> [] ->
  isSpace w1 = true -> isSpace w2 = true ->
  splitLogicalOperator (a ++ w1 :: op ++ w2 :: b) op = [a; b].
Proof. apply split_two_terms. Qed.

Lemma X14_split_two_terms_witness :
  splitLogicalOperator (lit "price>=20" ++ " "%char :: lit "AND" ++ " "%char
                            :: lit "stock<5") (lit "AND")
  = [lit "price>=20"; lit "stock<5"].
Proof.
  apply X14_split_two_terms; try reflexivity. discriminate.
Defined.

(** A matcher whose continuation fails on every suffix fails. *)
Lemma starGreedy_fail (A : Type) (p : ascii -> bool) (K : str -> option A)
      (s : str) :
  (forall s', suffixOf s' s -> K s' = None) -> starGreedy p s K = None.
Proof.
  induction s as [|x s IH]; intros H; cbn [starGreedy].
  - apply H. apply suffixOf_refl.
  - rewrite IH by (intros s' Hs; apply H; apply suffixOf_cons; exact Hs).
    rewrite (H (x :: s) (suffixOf_refl _)). destruct (p x); reflexivity.
Qed.

Lemma starLazy_fail (A : Type) (p : ascii -> bool) (K : str -> option A)
      (s : str) :
  (forall s', suffixOf s' s -> K s' = None) -> starLazy p s K = None.
Proof.
  induction s as [|x s IH]; intros H; rewrite starLazy_unfold.
  - rewrite (H [] (suffixOf_refl _)). reflexivity.
  - rewrite (H (x :: s) (suffixOf_refl _)).
    rewrite IH by (intros s' Hs; apply H; apply suffixOf_cons; exact Hs).
    destruct (p x); reflexivity.
Qed.

Lemma bt_fail (A : Type) (r : re) :
  forall (s : str) (c : caps) (k : str -> caps -> option A),
    (forall s' c', suffixOf s' s -> k s' c' = None) -> bt r s c k = None.
Proof.
  induction r as [|p|a IHa b IHb|a IHa b IHb|a IHa|g p|i a IHa|];
    intros s c k H; cbn [bt].
  - apply H. apply suffixOf_refl.
  - destruct s as [|x s]; [reflexivity|].
    rewrite (H s c) by (apply suffixOf_cons; apply suffixOf_refl).
    destruct (p x); reflexivity.
  - apply IHa. intros s' c' Hs. apply IHb. intros s'' c'' Hs'.
    apply H. eapply suffixOf_trans; eauto.
  - rewrite IHa by exact H. apply IHb. exact H.
  - rewrite IHa by exact H. apply H. apply suffixOf_refl.
  - destruct g; [apply starGreedy_fail | apply starLazy_fail];
      intros s' Hs; apply H; exact Hs.
  - apply IHa. intros s' c' Hs. apply H. exact Hs.
  - destruct s; [|reflexivity]. apply H. apply suffixOf_refl.
Qed.

Lemma plainText_suffix (s' s : str) :
  suffixOf s' s -> plainText s = true -> plainText s' = true.
Proof.
  intros [a ->]. unfold plainText. rewrite forallb_app.
  intros H. apply andb_true_iff in H. tauto.
Qed.

(** After one white-space character and a term without white space no
    operator can match: its second white space is missing. *)
Lemma run_operator_one_space (op : str) (w : ascii) (b : str) :
  isSpace w = true -> plainText b = true ->
  run (operatorRe op) (w :: b) = None.
Proof.
  intros W Hb. unfold run. rewrite operatorRe_unfold. unfold plus at 1.
  cbn [bt]. rewrite W.
  assert (K : forall s c, suffixOf s b ->
                bt (Seq (cat (map chrI op)) (plus true isSpace)) s c
                   (fun s' c' => Some (s', c')) = None).
  { intros s c Hs. cbn [bt]. apply bt_fail. intros s' c' Hs'.
    assert (P : plainText s' = true).
    { eapply plainText_suffix; [|exact Hb]. eapply suffixOf_trans; eauto. }
    unfold plus. cbn [bt]. destruct s' as [|x s']; [reflexivity|].
    cbn [plainText forallb] in P. apply andb_true_iff in P.
    destruct P as [P _]. rewrite (plain_nonspace x P). reflexivity. }
  destruct b as [|y b]; cbn [starGreedy].
  - apply K. apply suffixOf_refl.
  - cbn [plainText forallb] in Hb. apply andb_true_iff in Hb.
    destruct Hb as [Hy Hb']. rewrite (plain_nonspace y Hy).
    apply K. apply suffixOf_refl.
Qed.

Lemma split_plain (op a : str) :
  plainText a = true -> splitLogicalOperator a op = [a].
Proof.
  intros Ha. unfold splitLogicalOperator.
  destruct (logicLoop_plain op a Ha [] None (mkLogic [] [] false None 0)
                            eq_refl) as [p E].
  rewrite app_nil_r in E. rewrite E. unfold addCurrent.
  cbn [lg_parts lg_current lg_inQuotes lg_quoteChar lg_depth app logicLoop].
  rewrite (trim_plain a Ha). destruct a; reflexivity.
Qed.

Lemma unwrap_plain (a : str) : plainText a = true -> unwrap a = a.
Proof.
  intros Ha. unfold unwrap. rewrite (trim_plain a Ha).
  destruct a as [|x a]; [reflexivity|].
  cbn [length unwrapLoop startsWithChar].
  cbn [plainText forallb] in Ha. apply andb_true_iff in Ha.
  destruct Ha as [Hx _]. apply plain_quiet in Hx. unfold quiet in Hx.
  apply andb_true_iff in Hx. destruct Hx as [Hx _].
  apply andb_true_iff in Hx. destruct Hx as [_ Hx].
  apply negb_true_iff in Hx. rewrite Hx. reflexivity.
Qed.

Lemma operatorWord_OR : operatorWord (lit "OR") = true.
Proof. reflexivity. Qed.

Lemma operatorWord_AND : operatorWord (lit "AND") = true.
Proof. reflexivity. Qed.

Lemma whereValue_or (a b : str) (row : Row) :
  plainText a = true -> plainText b = true -> b <> [] ->
  whereValue (a ++ lit " OR " ++ b) row = condValue a row || condValue b row.
Proof.
  intros Ha Hb Nb. unfold whereValue.
  change (a ++ lit " OR " ++ b) with (a ++ " "%char :: lit "OR" ++ " "%char :: b).
  rewrite (split_two_terms (lit "OR") a b " " " " operatorWord_OR Ha Hb Nb
                           eq_refl eq_refl).
  cbn [existsb]. rewrite !unwrap_plain by assumption.
  rewrite !split_plain by assumption. cbn [forallb].
  rewrite !unwrap_plain by assumption.
  rewrite !andb_true_r, orb_false_r. reflexivity.
Qed.

(** X15. A filter made of two terms without white space, quotes and
    parentheses joined by OR holds exactly when one of the two leaf
    conditions holds. *)
Theorem X15_where_or_of_two (a b : str) (row : Row) :
  plainText a = true -> plainText b = true -> b <> [] ->
  evalWhere (a ++ lit " OR " ++ b) row
  = Ok (condValue a row || condValue b row).
Proof.
  intros Ha Hb Nb. rewrite evalWhere_total, whereValue_or by assumption.
  reflexivity.
Qed.

Lemma X15_where_or_of_two_witness :
  evalWhere (lit "age>=30" ++ lit " OR " ++ lit "city=Paris")
            (rowOf [("age", "25"); ("city", "Paris")]%string)
  = Ok true.
Proof.
  refine (eq_trans (X15_where_or_of_two (lit "age>=30") (lit "city=Paris") _
                                        _ _ _) _);
    try reflexivity. discriminate.
Defined.

(** X16. OR commutes on every pair of terms without white space, quotes
    and parentheses: swapping the two sides of the OR never changes which
    records match. *)
Theorem X16_or_commutes (a b : str) (row : Row) :
  plainText a = true -> plainText b = true -> a <> [] -> b <> [] ->
  evalWhere (a ++ lit " OR " ++ b) row = evalWhere (b ++ lit " OR " ++ a) row.
Proof.
  intros Ha Hb Na Nb.
  rewrite !evalWhere_total, !whereValue_or by assumption.
  rewrite orb_comm. reflexivity.
Qed.

Lemma X16_or_commutes_witness :
  evalWhere (lit "age>=30" ++ lit " OR " ++ lit "city=Paris")
            (rowOf [("age", "25"); ("city", "Paris")]%string)
  = evalWhere (lit "city=Paris" ++ lit " OR " ++ lit "age>=30")
              (rowOf [("age", "25"); ("city", "Paris")]%string).
Proof.
  apply X16_or_commutes; try reflexivity; discriminate.
Defined.

Lemma trim_ends (s : str) (x y : ascii) (a' b' : str) :
  s = x :: a' -> s = b' ++ [y] ->
  isSpace x = false -> isSpace y = false -> trim s = s.
Proof.
  intros E1 E2 Hx Hy.
  destruct b' as [|z b'].
  - cbn [app] in E2. rewrite E2. unfold trim, trimEnd.
    cbn [trimStart rev app]. rewrite Hy. cbn [rev app trimStart].
    rewrite Hy. reflexivity.
  - assert (Ez : z = x) by (rewrite E1 in E2; inversion E2; reflexivity).
    subst z. rewrite E2. cbn [app]. apply trim_between; assumption.
Qed.

Lemma plainText_ends (a : str) :
  plainText a = true -> a <> [] ->
  (exists x a', a = x :: a' /\ isSpace x = false)
  /\ (exists y b', a = b' ++ [y] /\ isSpace y = false).
Proof.
  intros H N. split.
  - destruct a as [|x a]; [congruence|]. exists x, a. split; [reflexivity|].
    cbn [plainText forallb] in H. apply andb_true_iff in H.
    apply plain_nonspace. tauto.
  - destruct (exists_last N) as (b' & y & E). exists y, b'.
    split; [exact E|]. unfold plainText in H. rewrite E, forallb_app in H.
    apply andb_true_iff in H. destruct H as [_ H]. cbn [forallb] in H.
    apply andb_true_iff in H. apply plain_nonspace. tauto.
Qed.

(** The text of two terms around a word, as one piece. *)
Lemma trim_joined (a b mid : str) :
  plainText a = true -> plainText b = true -> a <> [] -> b <> [] ->
  trim (a ++ mid ++ b) = a ++ mid ++ b.
Proof.
  intros Ha Hb Na Nb.
  destruct (proj1 (plainText_ends a Ha Na)) as (x & a' & Ea & Hx).
  destruct (proj2 (plainText_ends b Hb Nb)) as (y & b' & Eb & Hy).
  apply (trim_ends _ x y (a' ++ mid ++ b) (a ++ mid ++ b')); try assumption.
  - rewrite Ea. reflexivity.
  - rewrite Eb. rewrite <- !app_assoc. reflexivity.
Qed.

Lemma unwrap_id (s : str) :
  trim s = s -> startsWithChar "("%char s = false -> unwrap s = s.
Proof.
  intros T H. unfold unwrap. rewrite T.
  destruct s as [|x s]; [reflexivity|].
  cbn [length unwrapLoop]. rewrite H. reflexivity.
Qed.

Lemma plainText_not_open (a : str) :
  plainText a = true -> a <> [] -> forall rest,
  startsWithChar "("%char (a ++ rest) = false.
Proof.
  intros H N rest. destruct a as [|x a]; [congruence|].
  cbn [app startsWithChar].
  cbn [plainText forallb] in H. apply andb_true_iff in H.
  destruct H as [Hx _]. apply plain_quiet in Hx. unfold quiet in Hx.
  apply andb_true_iff in Hx. destruct Hx as [Hx _].
  apply andb_true_iff in Hx. destruct Hx as [_ Hx].
  apply negb_true_iff in Hx. exact Hx.
Qed.

(** Two terms joined by a word that is not the operator are not split. *)
Lemma split_other_word (op word a b : str) (w1 w2 : ascii) :
  plainText a = true -> plainText word = true -> plainText b = true ->
  a <> [] -> b <> [] -> isSpace w1 = true -> isSpace w2 = true ->
  run (operatorRe op) (w1 :: word ++ w2 :: b) = None ->
  splitLogicalOperator (a ++ w1 :: word ++ w2 :: b) op
  = [a ++ w1 :: word ++ w2 :: b].
Proof.
  intros Ha Hw Hb Na Nb W1 W2 Hrun. unfold splitLogicalOperator.
  destruct (logicLoop_plain op a Ha (w1 :: word ++ w2 :: b) None
                            (mkLogic [] [] false None 0) eq_refl)
    as [p1 ->].
  rewrite logicLoop_quiet;
    [ | apply isSpace_quiet; exact W1 | reflexivity | left; exact Hrun ].
  destruct (logicLoop_plain op word Hw (w2 :: b) (Some w1)
              (addCurrent (addCurrent (mkLogic [] [] false None 0) a) [w1])
              eq_refl) as [p2 ->].
  rewrite logicLoop_quiet;
    [ | apply isSpace_quiet; exact W2 | reflexivity
      | left; apply run_operator_one_space; assumption ].
  destruct (logicLoop_plain op b Hb [] (Some w2)
              (addCurrent
                 (addCurrent
                    (addCurrent (addCurrent (mkLogic [] [] false None 0) a)
                                [w1]) word) [w2])
              eq_refl) as [p3 E].
  rewrite app_nil_r in E. rewrite E. rewrite !addCurrent_app.
  unfold addCurrent.
  cbn [lg_parts lg_current lg_inQuotes lg_quoteChar lg_depth app logicLoop].
  replace (a ++ w1 :: word ++ w2 :: b) with (a ++ (w1 :: word ++ [w2]) ++ b)
    by (cbn [app]; rewrite <- app_assoc; reflexivity).
  replace ((((a ++ [w1]) ++ word) ++ [w2]) ++ b)
    with (a ++ (w1 :: word ++ [w2]) ++ b)
    by (cbn [app]; rewrite <- !app_assoc; reflexivity).
  rewrite (trim_joined a b _ Ha Hb Na Nb).
  destruct (proj1 (plainText_ends a Ha Na)) as (x & a' & -> & _).
  reflexivity.
Qed.

Lemma whereValue_and (a b : str) (row : Row) :
  plainText a = true -> plainText b = true -> a <> [] -> b <> [] ->
  whereValue (a ++ lit " AND " ++ b) row = condValue a row && condValue b row.
Proof.
  intros Ha Hb Na Nb. unfold whereValue.
  change (a ++ lit " AND " ++ b)
    with (a ++ " "%char :: lit "AND" ++ " "%char :: b).
  rewrite (split_other_word (lit "OR") (lit "AND") a b " " " " Ha eq_refl Hb
                            Na Nb eq_refl eq_refl) by reflexivity.
  cbn [existsb].
  assert (U : unwrap (a ++ " "%char :: lit "AND" ++ " "%char :: b)
              = a ++ " "%char :: lit "AND" ++ " "%char :: b).
  { apply unwrap_id; [|apply plainText_not_open; assumption].
    change (a ++ " "%char :: lit "AND" ++ " "%char :: b)
      with (a ++ lit " AND " ++ b).
    apply trim_joined; assumption. }
  rewrite U.
  rewrite (split_two_terms (lit "AND") a b " " " " operatorWord_AND Ha Hb Nb
                           eq_refl eq_refl).
  cbn [forallb]. rewrite !unwrap_plain by assumption.
  rewrite andb_true_r, orb_false_r. reflexivity.
Qed.

(** X17. A filter made of two terms without white space, quotes and
    parentheses joined by AND holds exactly when both leaf conditions
    hold. *)
Theorem X17_where_and_of_two (a b : str) (row : Row) :
  plainText a = true -> plainText b = true -> a <> [] -> b <> [] ->
  evalWhere (a ++ lit " AND " ++ b) row
  = Ok (condValue a row && condValue b row).
Proof.
  intros Ha Hb Na Nb. rewrite evalWhere_total, whereValue_and by assumption.
  reflexivity.
Qed.

Lemma X17_where_and_of_two_witness :
  evalWhere (lit "age>=30" ++ lit " AND " ++ lit "city=Paris")
            (rowOf [("age", "25"); ("city", "Paris")]%string)
  = Ok false.
Proof.
  refine (eq_trans (X17_where_and_of_two (lit "age>=30") (lit "city=Paris") _
                                         _ _ _ _) _);
    try reflexivity; discriminate.
Defined.

(** Inside parentheses no character is a split point. *)
Lemma logicLoop_deep (op : str) (t : str) :
  forallb quiet t = true ->
  forall (rest : str) (prev : option ascii) (st : LogicState),
    lg_inQuotes st = false -> lg_depth st <> 0%Z ->
    exists prev',
      logicLoop op (t ++ rest) prev 0 st
      = logicLoop op rest prev' 0 (addCurrent st t).
Proof.
  induction t as [|x t IH]; intros H rest prev st Hq Hd.
  - exists prev. unfold addCurrent. rewrite app_nil_r.
    destruct st; reflexivity.
  - cbn [forallb] in H. apply andb_true_iff in H. destruct H as [Hx H].
    cbn [app]. rewrite logicLoop_quiet;
      [ | exact Hx | exact Hq | right; exact Hd ].
    destruct (IH H rest (Some x) (addCurrent st [x]) Hq Hd) as [prev' E].
    exists prev'. rewrite E, addCurrent_app. reflexivity.
Qed.

Lemma split_wrapped (op t : str) :
  forallb quiet t = true ->
  splitLogicalOperator ("("%char :: t ++ [")"%char]) op
  = ["("%char :: t ++ [")"%char]].
Proof.
  intros H. unfold splitLogicalOperator.
  change (logicLoop op ("("%char :: t ++ [")"%char]) None 0
                    (mkLogic [] [] false None 0))
    with (logicLoop op (t ++ [")"%char]) (Some "("%char) 0
                    (mkLogic [] ["("%char] false None 1)).
  destruct (logicLoop_deep op t H [")"%char] (Some "("%char)
              (mkLogic [] ["("%char] false None 1) eq_refl
              ltac:(discriminate)) as [p E].
  rewrite E. unfold addCurrent.
  cbn [lg_parts lg_current lg_inQuotes lg_quoteChar lg_depth app].
  cbn [logicLoop].
  replace (logicScan p ")"%char (mkLogic [] ("("%char :: t) false None 1))
    with (mkLogic [] ("("%char :: t) false None 0)
    by (destruct p; reflexivity).
  cbn [lg_parts lg_current lg_inQuotes lg_quoteChar lg_depth negb andb Z.eqb].
  rewrite (operatorAt_none op [")"%char])
    by (apply run_operator_nonspace; reflexivity).
  cbn [lg_parts lg_current app].
  rewrite (trim_between "("%char ")"%char t eq_refl eq_refl).
  reflexivity.
Qed.

(** X18. An operator word inside one pair of parentheses is no split
    point: a text without quotes and inner parentheses that is wrapped in
    parentheses is a single term of the split, whatever operator words it
    holds. *)
Theorem X18_split_keeps_parenthesised (op t : str) :
  forallb quiet t = true ->
  splitLogicalOperator ("("%char :: t ++ [")"%char]) op
  = ["("%char :: t ++ [")"%char]].
Proof. apply split_wrapped. Qed.

Lemma X18_split_keeps_parenthesised_witness :
  splitLogicalOperator ("("%char :: lit "a=1 OR b=2 AND c=3" ++ [")"%char])
                       (lit "OR")
  = ["("%char :: lit "a=1 OR b=2 AND c=3" ++ [")"%char]].
Proof.
  apply X18_split_keeps_parenthesised. reflexivity.
Defined.

Lemma endsWithChar_snoc (c : ascii) (l : str) :
  endsWithChar c (l ++ [c]) = true.
Proof.
  unfold endsWithChar. rewrite rev_app_distr. cbn [rev app startsWithChar].
  apply chr_eqb_refl.
Qed.

(** One layer of parentheses around a trimmed text that does not start
    with a parenthesis is stripped, and no more. *)
Lemma unwrap_wrapped (t : str) :
  trim t = t -> startsWithChar "("%char t = false -> t <> [] ->
  unwrap ("("%char :: t ++ [")"%char]) = t.
Proof.
  intros T H N. unfold unwrap.
  rewrite (trim_between "("%char ")"%char _ eq_refl eq_refl).
  cbn [length]. cbn [unwrapLoop].
  change ("("%char :: t ++ [")"%char]) with (("("%char :: t) ++ [")"%char]).
  rewrite endsWithChar_snoc. cbn [app startsWithChar].
  replace (chr_eqb "("%char "("%char) with true by reflexivity. cbn [andb].
  unfold slice_1_m1. cbn [tl]. rewrite removelast_last, T.
  rewrite length_app. cbn [length]. rewrite Nat.add_1_r.
  cbn [unwrapLoop]. rewrite H. reflexivity.
Qed.

Lemma plainText_quiet (a : str) : plainText a = true -> forallb quiet a = true.
Proof.
  unfold plainText. intros H. apply forallb_forall. intros x Hx.
  apply plain_quiet. rewrite forallb_forall in H. apply H. exact Hx.
Qed.

(** X19. A filter that is one parenthesised pair of terms joined by OR is
    not split at that OR: the whole inner text is handed to the leaf
    evaluator as one condition. *)
Theorem X19_where_parenthesised_or (a b : str) (row : Row) :
  plainText a = true -> plainText b = true -> a <> [] -> b <> [] ->
  evalWhere ("("%char :: (a ++ lit " OR " ++ b) ++ [")"%char]) row
  = evalCondition (a ++ lit " OR " ++ b) row.
Proof.
  intros Ha Hb Na Nb. rewrite evalWhere_total. unfold whereValue.
  assert (Q : forallb quiet (a ++ lit " OR " ++ b) = true).
  { rewrite !forallb_app, (plainText_quiet a Ha), (plainText_quiet b Hb).
    reflexivity. }
  rewrite (split_wrapped (lit "OR") _ Q). cbn [existsb].
  assert (T : trim (a ++ lit " OR " ++ b) = a ++ lit " OR " ++ b)
    by (apply trim_joined; assumption).
  assert (U : unwrap ("("%char :: (a ++ lit " OR " ++ b) ++ [")"%char])
              = a ++ lit " OR " ++ b).
  { apply unwrap_wrapped; [exact T | apply plainText_not_open; assumption|].
    destruct a; [congruence | discriminate]. }
  rewrite U.
  change (a ++ lit " OR " ++ b)
    with (a ++ " "%char :: lit "OR" ++ " "%char :: b).
  rewrite (split_other_word (lit "AND") (lit "OR") a b " " " " Ha eq_refl Hb
                            Na Nb eq_refl eq_refl) by reflexivity.
  cbn [forallb].
  change (a ++ " "%char :: lit "OR" ++ " "%char :: b)
    with (a ++ lit " OR " ++ b).
  rewrite (unwrap_id _ T (plainText_not_open a Ha Na _)).
  rewrite andb_true_r, orb_false_r. symmetry. apply evalCondition_total.
Qed.

(** The filter (a=1 OR b=2) is evaluated as its first condition alone: a
    record whose b is 2 and whose a is not 1 does not match. *)
Lemma X19_where_parenthesised_or_witness :
  evalWhere ("("%char :: (lit "a=1" ++ lit " OR " ++ lit "b=2") ++ [")"%char])
            (rowOf [("a", "0"); ("b", "2")]%string)
  = Ok false.
Proof.
  refine (eq_trans (X19_where_parenthesised_or (lit "a=1") (lit "b=2") _
                                               _ _ _ _) _);
    try reflexivity; discriminate.
Defined.

(** ** Quoted values in the logical splitter *)

Lemma lastChar_cons (prev : option ascii) (x : ascii) (t : str) :
  lastChar prev (x :: t) = lastChar (Some x) t.
Proof.
  unfold lastChar. cbn [rev]. destruct (rev t); reflexivity.
Qed.

Lemma logicLoop_plain_prev (op : str) (t : str) :
  plainText t = true ->
  forall (rest : str) (prev : option ascii) (st : LogicState),
    lg_inQuotes st = false ->
    logicLoop op (t ++ rest) prev 0 st
    = logicLoop op rest (lastChar prev t) 0 (addCurrent st t).
Proof.
  unfold plainText.
  induction t as [|x t IH]; intros H rest prev st Hq.
  - unfold addCurrent, lastChar. cbn [rev app]. rewrite app_nil_r.
    destruct st; reflexivity.
  - cbn [forallb] in H. apply andb_true_iff in H. destruct H as [Hx H].
    cbn [app]. rewrite logicLoop_quiet;
      [ | apply plain_quiet; exact Hx | exact Hq
        | left; apply run_operator_nonspace; apply plain_nonspace; exact Hx ].
    rewrite (IH H rest (Some x) (addCurrent st [x]) Hq).
    rewrite addCurrent_app, lastChar_cons. reflexivity.
Qed.

(** Inside a quoted span every character joins the current term. *)
Lemma logicLoop_inside (op : str) (q : ascii) (t : str) :
  ~ In q t ->
  forall (rest : str) (prev : option ascii) (ps : list str) (cur : str)
         (d : Z),
    logicLoop op (t ++ rest) prev 0 (mkLogic ps cur true (Some q) d)
    = logicLoop op rest (lastChar prev t) 0
                (mkLogic ps (cur ++ t) true (Some q) d).
Proof.
  induction t as [|x t IH]; intros N rest prev ps cur d.
  - unfold lastChar. cbn [rev app]. rewrite app_nil_r. reflexivity.
  - assert (Hx : chr_eqb x q = false).
    { destruct (chr_eqb x q) eqn:E; [|reflexivity].
      apply chr_eqb_true in E. subst. exfalso. apply N. left. reflexivity. }
    cbn [app logicLoop]. unfold logicScan.
    cbn [lg_inQuotes lg_quoteChar lg_parts lg_current lg_depth negb
         isQuoteChar].
    rewrite Hx, !andb_false_r. cbn [andb].
    cbn [lg_inQuotes lg_quoteChar lg_parts lg_current lg_depth negb andb].
    rewrite IH by (intros H; apply N; right; exact H).
    rewrite <- app_assoc, lastChar_cons. reflexivity.
Qed.

Lemma notEscaped_last (prev : option ascii) (t : str) :
  notEscaped prev = true -> noBackslash t = true ->
  notEscaped (lastChar prev t) = true.
Proof.
  intros Hp Ht. unfold lastChar. destruct (rev t) as [|x r] eqn:E; [exact Hp|].
  assert (I : In x t) by (apply in_rev; rewrite E; left; reflexivity).
  unfold noBackslash in Ht. rewrite forallb_forall in Ht.
  cbn [notEscaped]. apply Ht. exact I.
Qed.

Lemma isQuote_facts (q : ascii) :
  isQuote q = true ->
  chr_eqb q "\"%char = false /\ chr_eqb q "("%char = false.
Proof.
  destruct q as [[] [] [] [] [] [] [] []]; vm_compute;
    (discriminate || auto).
Qed.

Lemma logicLoop_open (op : str) (q : ascii) (rest : str)
      (prev : option ascii) (ps : list str) (cur : str) (d : Z) :
  isQuote q = true -> notEscaped prev = true ->
  logicLoop op (q :: rest) prev 0 (mkLogic ps cur false None d)
  = logicLoop op rest (Some q) 0 (mkLogic ps (cur ++ [q]) true (Some q) d).
Proof.
  intros Q E. cbn [logicLoop]. unfold logicScan.
  cbn [lg_inQuotes lg_quoteChar lg_parts lg_current lg_depth negb].
  rewrite Q, E. cbn [andb].
  cbn [lg_inQuotes lg_quoteChar lg_parts lg_current lg_depth negb andb].
  reflexivity.
Qed.

Lemma logicLoop_close (op : str) (q : ascii) (prev : option ascii)
      (ps : list str) (cur : str) :
  isQuote q = true -> notEscaped prev = true ->
  logicLoop op [q] prev 0 (mkLogic ps cur true (Some q) 0)
  = mkLogic ps (cur ++ [q]) false None 0.
Proof.
  intros Q E. cbn [logicLoop]. unfold logicScan.
  cbn [lg_inQuotes lg_quoteChar lg_parts lg_current lg_depth negb
       isQuoteChar].
  rewrite Q, E, chr_eqb_refl. cbn [andb].
  cbn [lg_inQuotes lg_quoteChar lg_parts lg_current lg_depth negb andb Z.eqb].
  rewrite (operatorAt_none op [q])
    by (apply run_operator_nonspace; apply isQuote_not_space; exact Q).
  reflexivity.
Qed.

Lemma trim_quoted_value (a t : str) (q : ascii) :
  plainText a = true -> isQuote q = true ->
  trim (a ++ q :: t ++ [q]) = a ++ q :: t ++ [q].
Proof.
  intros Ha Q. destruct a as [|x a'].
  - cbn [app]. apply trim_between; apply isQuote_not_space; exact Q.
  - cbn [app]. replace (a' ++ q :: t ++ [q]) with ((a' ++ q :: t) ++ [q])
      by (rewrite <- app_assoc; reflexivity).
    apply trim_between; [|apply isQuote_not_space; exact Q].
    unfold plainText in Ha. cbn [forallb] in Ha. apply andb_true_iff in Ha.
    apply plain_nonspace. tauto.
Qed.

Lemma split_quoted_value (op a t : str) (q : ascii) :
  plainText a = true -> noBackslash a = true ->
  isQuote q = true -> ~ In q t -> noBackslash t = true ->
  splitLogicalOperator (a ++ q :: t ++ [q]) op = [a ++ q :: t ++ [q]].
Proof.
  intros Ha Ba Q N Bt. unfold splitLogicalOperator.
  rewrite (logicLoop_plain_prev op a Ha (q :: t ++ [q]) None
                                (mkLogic [] [] false None 0) eq_refl).
  unfold addCurrent.
  cbn [lg_parts lg_current lg_inQuotes lg_quoteChar lg_depth app].
  rewrite logicLoop_open;
    [ | exact Q | apply notEscaped_last; [reflexivity | exact Ba] ].
  rewrite (logicLoop_inside op q t N).
  rewrite logicLoop_close;
    [ | exact Q
      | apply notEscaped_last; [|exact Bt]; cbn [notEscaped];
        rewrite (proj1 (isQuote_facts q Q)); reflexivity ].
  cbn [lg_parts lg_current app].
  replace (((a ++ [q]) ++ t) ++ [q]) with (a ++ q :: t ++ [q])
    by (rewrite <- !app_assoc; reflexivity).
  rewrite (trim_quoted_value a t q Ha Q). destruct a; reflexivity.
Qed.

(** X20. An operator word inside a quoted value is no split point: a term
    without white space followed by a quoted span, neither holding a
    backslash, is one term of the split whatever the span holds, and as a
    filter it is evaluated as that one leaf condition. *)
Theorem X20_quoted_value_not_split (op a t : str) (q : ascii) (row : Row) :
  plainText a = true -> noBackslash a = true ->
  isQuote q = true -> ~ In q t -> noBackslash t = true ->
  splitLogicalOperator (a ++ q :: t ++ [q]) op = [a ++ q :: t ++ [q]]
  /\ evalWhere (a ++ q :: t ++ [q]) row
     = evalCondition (a ++ q :: t ++ [q]) row.
Proof.
  intros Ha Ba Q N Bt. split; [apply split_quoted_value; assumption|].
  rewrite evalWhere_total. unfold whereValue.
  rewrite (split_quoted_value (lit "OR") a t q Ha Ba Q N Bt).
  cbn [existsb].
  assert (T : trim (a ++ q :: t ++ [q]) = a ++ q :: t ++ [q])
    by (apply trim_quoted_value; assumption).
  assert (S : startsWithChar "("%char (a ++ q :: t ++ [q]) = false).
  { destruct a as [|x a'].
    - cbn [app startsWithChar]. apply (proj2 (isQuote_facts q Q)).
    - apply plainText_not_open; [exact Ha | discriminate]. }
  rewrite (unwrap_id _ T S).
  rewrite (split_quoted_value (lit "AND") a t q Ha Ba Q N Bt).
  cbn [forallb]. rewrite (unwrap_id _ T S).
  rewrite andb_true_r, orb_false_r. symmetry. apply evalCondition_total.
Qed.

Lemma X20_quoted_value_not_split_witness :
  splitLogicalOperator (lit "title=" ++ squote :: lit "War AND Peace" ++ [squote])
                       (lit "AND")
  = [lit "title=" ++ squote :: lit "War AND Peace" ++ [squote]].
Proof.
  apply (X20_quoted_value_not_split (lit "AND") (lit "title=")
           (lit "War AND Peace") squote []); try reflexivity.
  vm_compute. intuition discriminate.
Defined.

(** ** The operators of a leaf condition *)

Lemma evalOperator_compare (actual : value) (rawValue : str) :
  evalOperator (lit ">") actual rawValue
  = Ok (num_gtb (parseFloat actual) (parseFloatStr rawValue))
  /\ evalOperator (lit "<") actual rawValue
     = Ok (num_ltb (parseFloat actual) (parseFloatStr rawValue))
  /\ evalOperator (lit ">=") actual rawValue
     = Ok (num_geb (parseFloat actual) (parseFloatStr rawValue))
  /\ evalOperator (lit "<=") actual rawValue
     = Ok (num_leb (parseFloat actual) (parseFloatStr rawValue)).
Proof. repeat split; reflexivity. Qed.

Lemma parseFloat_quote (q : ascii) (t : str) :
  isQuote q = true -> parseFloatStr (q :: t) = NaN.
Proof.
  intros Q. destruct q as [[] [] [] [] [] [] [] []];
    try (vm_compute in Q; discriminate Q); reflexivity.
Qed.

Lemma num_compare_nan (a : number) : num_compare a NaN = None.
Proof. destruct a; reflexivity. Qed.

(** X21. The comparison operators do not strip quotes: against a value
    that is written with a leading quote, the literal reads as no number
    and each of the four comparisons is false, whatever the field holds. *)
Theorem X21_comparison_with_quoted_literal (op : str) (actual : value)
        (q : ascii) (t : str) :
  In op comparisonOps -> isQuote q = true ->
  evalOperator op actual (q :: t) = Ok false.
Proof.
  intros H Q.
  destruct (evalOperator_compare actual (q :: t)) as (E1 & E2 & E3 & E4).
  unfold comparisonOps in H. cbn [In] in H.
  destruct H as [<-|[<-|[<-|[<-|[]]]]];
    [rewrite E1 | rewrite E2 | rewrite E3 | rewrite E4];
    unfold num_gtb, num_ltb, num_geb, num_leb;
    rewrite (parseFloat_quote q t Q), num_compare_nan; reflexivity.
Qed.

Lemma X21_comparison_with_quoted_literal_witness :
  evalOperator (lit ">=") (VStr (lit "30")) (squote :: lit "18'") = Ok false.
Proof.
  apply (X21_comparison_with_quoted_literal (lit ">=") (VStr (lit "30"))
           squote (lit "18'")).
  - right. right. left. reflexivity.
  - reflexivity.
Defined.

Lemma parseFloat_absent (v : value) :
  v = VUndef \/ v = VNull -> parseFloat v = NaN.
Proof. intros [->| ->]; vm_compute; reflexivity. Qed.

(** X22. A field that the row lacks, or that holds null, satisfies no
    equality and no comparison: for a field name that rows do not inherit,
    the leaf condition is false unless its operator is LIKE or IN. *)
Theorem X22_absent_field (expr : str) (m : result) (row : Row) :
  search conditionRe expr = Some m ->
  inheritedName (groupOr 1 m) = false ->
  get row (groupOr 1 m) = VUndef \/ get row (groupOr 1 m) = VNull ->
  toUpperCase (groupOr 2 m) <> lit "LIKE" ->
  toUpperCase (groupOr 2 m) <> lit "IN" ->
  evalCondition expr row = Ok false.
Proof.
  intros Hm _ Hv NL NI. unfold evalCondition. rewrite Hm.
  unfold evalOperator.
  assert (P := parseFloat_absent _ Hv).
  destruct (str_eqb (toUpperCase (groupOr 2 m)) (lit "=")).
  { destruct Hv as [-> | ->]; reflexivity. }
  unfold num_gtb, num_ltb, num_geb, num_leb. rewrite P. cbn [num_compare].
  repeat match goal with
         | |- context [str_eqb ?a ?b] =>
             let E := fresh "E" in
             destruct (str_eqb a b) eqn:E;
             [ try reflexivity; apply str_eqb_true in E; congruence | ]
         end.
  reflexivity.
Qed.

Lemma X22_absent_field_witness :
  evalCondition (lit "age >= 18") (rowOf [("name", "Bob")]%string) = Ok false.
Proof.
  refine (X22_absent_field (lit "age >= 18") _ _ _ _ _ _ _).
  - vm_compute. reflexivity.
  - vm_compute. reflexivity.
  - left. vm_compute. reflexivity.
  - vm_compute. discriminate.
  - vm_compute. discriminate.
Defined.

(** ** Numbers in comparisons *)

Lemma takeWhile_stop (p : ascii -> bool) (ds rest : str) :
  forallb p ds = true ->
  match rest with [] => true | c :: _ => negb (p c) end = true ->
  takeWhile p (ds ++ rest) = ds /\ dropWhile p (ds ++ rest) = rest.
Proof.
  intros H R. induction ds as [|d ds IH].
  - destruct rest as [|c r]; [split; reflexivity|].
    cbn [app takeWhile dropWhile]. apply negb_true_iff in R. rewrite R.
    split; reflexivity.
  - cbn [forallb] in H. apply andb_true_iff in H. destruct H as [Hd H].
    cbn [app takeWhile dropWhile]. rewrite Hd.
    destruct (IH H) as [-> ->]. split; reflexivity.
Qed.

Lemma digit_facts (d : ascii) :
  isDigit d = true ->
  isSpace d = false /\ chr_eqb d "-"%char = false
  /\ chr_eqb d "+"%char = false /\ chr_eqb "I"%char d = false.
Proof.
  destruct d as [[] [] [] [] [] [] [] []]; vm_compute;
    (discriminate || auto).
Qed.

(** [parseFloat] reads a run of digits as the integer it spells and
    ignores what follows it. *)
Lemma parseFloat_digits (ds rest : str) :
  digits ds = true -> stopsNumber rest = true ->
  parseFloatStr (ds ++ rest) = Fin (digitsValue 10 ds) 0.
Proof.
  intros D R. destruct ds as [|d ds]; [discriminate|].
  cbn [digits] in D.
  assert (D' := D). cbn [forallb] in D'. apply andb_true_iff in D'.
  destruct D' as [Hd _].
  destruct (digit_facts d Hd) as (F1 & F2 & F3 & F4).
  assert (S : match rest with [] => true | c :: _ => negb (isDigit c) end
              = true).
  { destruct rest as [|c r]; [reflexivity|]. cbn [stopsNumber] in R.
    apply andb_true_iff in R. destruct R as [R _].
    apply andb_true_iff in R. tauto. }
  destruct (takeWhile_stop isDigit (d :: ds) rest D S) as [T W].
  unfold parseFloatStr. cbn [app]. rewrite (trimStart_nonspace d _ F1).
  unfold parseDecimalPrefix, parseSign. rewrite F2, F3.
  cbn [lit list_ascii_of_string stripPrefix]. rewrite F4.
  change (d :: ds ++ rest) with ((d :: ds) ++ rest). rewrite T, W.
  destruct rest as [|c r].
  - cbn [parseExponent app length]. rewrite app_nil_r. reflexivity.
  - cbn [stopsNumber] in R. apply andb_true_iff in R. destruct R as [R R3].
    apply andb_true_iff in R. destruct R as [_ R2].
    apply negb_true_iff in R2, R3. rewrite R2.
    cbn [parseExponent]. rewrite R3. cbn [app length]. rewrite app_nil_r.
    reflexivity.
Qed.

Lemma fin_compare_units (x y : Z) :
  num_compare (Fin x 0) (Fin y 0) = Some (Z.compare x y).
Proof.
  cbn [num_compare]. change (Z.min 0 0) with 0%Z. change (0 - 0)%Z with 0%Z.
  change (10 ^ 0)%Z with 1%Z. rewrite !Z.mul_1_r. reflexivity.
Qed.

(** X23. Comparisons are numeric, not textual: when the field holds a run
    of digits and the literal starts with one, each spelling an integer of
    at most 2^53 and followed by nothing or by text that no number
    continues into, the four operators compare the integers that the digits
    spell and ignore the text after them. *)
Theorem X23_comparison_of_digits (a ra b rb : str) :
  digits a = true -> stopsNumber ra = true ->
  digits b = true -> stopsNumber rb = true ->
  (digitsValue 10 a <= maxExact)%Z -> (digitsValue 10 b <= maxExact)%Z ->
  evalOperator (lit ">") (VStr (a ++ ra)) (b ++ rb)
  = Ok (digitsValue 10 b <? digitsValue 10 a)%Z
  /\ evalOperator (lit "<") (VStr (a ++ ra)) (b ++ rb)
     = Ok (digitsValue 10 a <? digitsValue 10 b)%Z
  /\ evalOperator (lit ">=") (VStr (a ++ ra)) (b ++ rb)
     = Ok (digitsValue 10 b <=? digitsValue 10 a)%Z
  /\ evalOperator (lit "<=") (VStr (a ++ ra)) (b ++ rb)
     = Ok (digitsValue 10 a <=? digitsValue 10 b)%Z.
Proof.
  intros Da Ra Db Rb _ _.
  destruct (evalOperator_compare (VStr (a ++ ra)) (b ++ rb))
    as (E1 & E2 & E3 & E4).
  rewrite E1, E2, E3, E4.
  unfold parseFloat, num_gtb, num_ltb, num_geb, num_leb. cbn [toStr].
  rewrite (parseFloat_digits a ra Da Ra), (parseFloat_digits b rb Db Rb).
  rewrite fin_compare_units.
  generalize (digitsValue 10 a) (digitsValue 10 b). intros x y.
  repeat split; f_equal;
    destruct (Z.compare_spec x y);
    match goal with
    | |- _ = (?u <? ?v)%Z => destruct (Z.ltb_spec u v)
    | |- _ = (?u <=? ?v)%Z => destruct (Z.leb_spec u v)
    end; try reflexivity; lia.
Qed.

Lemma X23_comparison_of_digits_witness :
  evalOperator (lit "<") (VStr (lit "9")) (lit "10") = Ok true
  /\ evalOperator (lit ">") (VStr (lit "30kg")) (lit "4abc") = Ok true.
Proof.
  split.
  - refine (eq_trans
              (proj1 (proj2 (X23_comparison_of_digits
                               (lit "9") [] (lit "10") [] _ _ _ _ _ _))) _);
      try reflexivity; vm_compute; discriminate.
  - refine (eq_trans
              (proj1 (X23_comparison_of_digits
                        (lit "30") (lit "kg") (lit "4") (lit "abc")
                        _ _ _ _ _ _)) _);
      try reflexivity; vm_compute; discriminate.
Defined.

(** ** LIKE without wildcards *)

Lemma bt_likeRe_plain (v : str) :
  noWildcard v = true ->
  forall (s : str) (c : caps),
    match bt (likeRe v) s c (fun s' c' => Some (s', c')) with
    | Some _ => true
    | None => false
    end = str_eqb (map canon s) (map canon v).
Proof.
  induction v as [|c0 v IH]; intros H s c.
  - destruct s; reflexivity.
  - unfold noWildcard in H. cbn [forallb] in H. apply andb_true_iff in H.
    destruct H as [H0 H]. apply andb_true_iff in H0. destruct H0 as [P U].
    apply negb_true_iff in P, U.
    cbn [likeRe bt]. unfold likeAtom. rewrite P, U. unfold chrI. cbn [bt].
    destruct s as [|x s]; [reflexivity|].
    cbn [map str_eqb].
    destruct (chr_eqb (canon x) (canon c0)); [apply IH; exact H | reflexivity].
Qed.

(** X24. LIKE with a literal that holds no wildcard is equality up to
    letter case: the field's text and the literal, its outer quotes
    stripped, must agree character by character once both are
    upper-cased. *)
Theorem X24_like_without_wildcards (rawValue : str) (actual : value) :
  noWildcard (stripQuotes rawValue) = true ->
  evalOperator (lit "LIKE") actual rawValue
  = Ok (str_eqb (map canon (toStr actual)) (map canon (stripQuotes rawValue))).
Proof.
  intros H. unfold evalOperator.
  eval_closed (toUpperCase (lit "LIKE")).
  cbn [str_eqb chr_eqb Ascii.eqb Bool.eqb andb lit list_ascii_of_string].
  rewrite compileRegExp_like. cbn [bind]. f_equal.
  unfold regexTest, testAnchored, run. cbn [fst snd].
  rewrite <- (bt_likeRe_plain _ H (toStr actual) []).
  destruct (bt (likeRe (stripQuotes rawValue)) (toStr actual) []
               (fun s' c => Some (s', c))); reflexivity.
Qed.

Lemma X24_like_without_wildcards_witness :
  evalOperator (lit "LIKE") (VStr (lit "alice")) (lit "'ALICE'") = Ok true
  /\ evalOperator (lit "LIKE") (VStr (lit "alice b")) (lit "'ALICE'")
     = Ok false.
Proof.
  split.
  - refine (eq_trans (X24_like_without_wildcards (lit "'ALICE'")
                        (VStr (lit "alice")) _) _);
      vm_compute; reflexivity.
  - refine (eq_trans (X24_like_without_wildcards (lit "'ALICE'")
                        (VStr (lit "alice b")) _) _);
      vm_compute; reflexivity.
Defined.

(** ** The column list of SELECT *)

Lemma project_get (r : Row) (f : str) (fields : list str) :
  forall acc : Row,
    get (fold_left (fun obj f => set obj f (get r f)) fields acc) f
    = if existsb (str_eqb f) fields then get r f else get acc f.
Proof.
  induction fields as [|a fields IH]; intros acc; [reflexivity|].
  cbn [fold_left existsb]. rewrite IH.
  destruct (existsb (str_eqb f) fields); [rewrite orb_true_r; reflexivity|].
  rewrite orb_false_r. destruct (str_eqb f a) eqn:E.
  - apply str_eqb_true in E. subst a. apply get_set_same.
  - apply get_set_other. intros ->. rewrite str_eqb_refl in E. discriminate.
Qed.

(** X25. For a field name that rows do not inherit, the projection of a
    row on a column list holds the value the field has in the row when the
    field is listed, undefined when the row lacks it, and does not hold the
    field when it is not listed. *)
Theorem X25_projection (fields : list str) (r : Row) (f : str) :
  inheritedName f = false ->
  get (project fields r) f
  = if existsb (str_eqb f) fields then get r f else VUndef.
Proof. intros _. unfold project. apply project_get. Qed.

Lemma X25_projection_witness :
  get (project [lit "name"; lit "zip"]
               (rowOf [("id", "1"); ("name", "Bob")]%string)) (lit "name")
  = VStr (lit "Bob")
  /\ get (project [lit "name"; lit "zip"]
                  (rowOf [("id", "1"); ("name", "Bob")]%string)) (lit "id")
     = VUndef.
Proof.
  split.
  - refine (eq_trans (X25_projection _ _ (lit "name") _) _); reflexivity.
  - refine (eq_trans (X25_projection _ _ (lit "id") _) _); reflexivity.
Defined.

(** ** Tables without a file *)

Lemma load_missing (st : store) (table : str) :
  st table = None -> load st table = [].
Proof. intros H. unfold load. rewrite H. reflexivity. Qed.

Lemma updateRows_nil (w : option str) (updates : Row) (count : nat) :
  updateRows w updates [] count = Ok ([], count).
Proof. reflexivity. Qed.

(** X26. On a table that has no file, SELECT returns no row and creates
    nothing, while UPDATE reports zero rows and DELETE returns, each
    leaving behind a file that holds the empty table. *)
Theorem X26_missing_table (st : store) :
  (forall (sql : str) (m : result),
      search selectRe sql = Some m -> st (groupOr 2 m) = None ->
      select sql st = (Ok (Rows []), st))
  /\ (forall (sql : str) (m : result),
         search updateRe sql = Some m -> st (groupOr 1 m) = None ->
         fst (update sql st) = Ok (Updated 0)
         /\ snd (update sql st) (groupOr 1 m) = Some [])
  /\ (forall (sql : str) (m : result),
         search deleteRe sql = Some m -> st (groupOr 1 m) = None ->
         fst (delete sql st) = Ok Undefined
         /\ snd (delete sql st) (groupOr 1 m) = Some []).
Proof.
  split; [|split].
  - intros sql m Hm Hn. unfold select. rewrite Hm.
    rewrite (load_missing st _ Hn).
    destruct (group 3 m) as [[|x w]|]; cbn [filterM bind];
      destruct (group 4 m) as [[|y o]|]; cbn [sortBy fold_right];
      destruct (group 6 m) as [[|z l]|]; rewrite ?firstn_nil;
      destruct (str_eqb (trim (groupOr 1 m)) (lit "*")); reflexivity.
  - intros sql m Hm Hn. unfold update. rewrite Hm.
    rewrite (load_missing st _ Hn), updateRows_nil.
    cbn [fst snd]. split; [reflexivity|].
    unfold save. rewrite str_eqb_refl. reflexivity.
  - intros sql m Hm Hn. unfold delete. rewrite Hm.
    rewrite (load_missing st _ Hn).
    destruct (group 2 m) as [[|x w]|]; cbn [filterM fst snd];
      (split; [reflexivity|]); unfold save; rewrite str_eqb_refl;
      reflexivity.
Qed.

Lemma X26_missing_table_witness :
  select (lit "SELECT name FROM orders WHERE total > 5 ORDER BY total LIMIT 2")
         (tableStore "users" testUsers)
  = (Ok (Rows []), tableStore "users" testUsers)
  /\ fst (update (lit "UPDATE orders SET total = 0")
                 (tableStore "users" testUsers)) = Ok (Updated 0)
  /\ snd (update (lit "UPDATE orders SET total = 0")
                 (tableStore "users" testUsers)) (lit "orders") = Some []
  /\ snd (delete (lit "DELETE FROM orders WHERE total > 5")
                 (tableStore "users" testUsers)) (lit "orders") = Some [].
Proof.
  destruct (X26_missing_table (tableStore "users" testUsers))
    as (S & U & D).
  split; [|split; [|split]].
  - refine (S _ _ _ _); vm_compute; reflexivity.
  - refine (eq_trans (proj1 (U _ _ _ _)) _); vm_compute; reflexivity.
  - assert (E : exists m, search updateRe (lit "UPDATE orders SET total = 0")
                           = Some m /\ groupOr 1 m = lit "orders")
      by (eexists; split; vm_compute; reflexivity).
    destruct E as (m & E & G). rewrite <- G.
    apply (U _ m E). rewrite G. vm_compute. reflexivity.
  - assert (E : exists m, search deleteRe
                                 (lit "DELETE FROM orders WHERE total > 5")
                           = Some m /\ groupOr 1 m = lit "orders")
      by (eexists; split; vm_compute; reflexivity).
    destruct E as (m & E & G). rewrite <- G.
    apply (D _ m E). rewrite G. vm_compute. reflexivity.
Defined.

(** ** White space around a statement *)

Lemma trimStart_lead (pre s : str) :
  forallb isSpace pre = true -> trimStart (pre ++ s) = trimStart s.
Proof.
  induction pre as [|x pre IH]; [reflexivity|].
  cbn [forallb app trimStart]. intros H. apply andb_true_iff in H.
  destruct H as [-> H]. apply IH. exact H.
Qed.

Lemma forallb_rev (p : ascii -> bool) (l : str) :
  forallb p l = true -> forallb p (rev l) = true.
Proof.
  rewrite !forallb_forall. intros H x I. apply H. apply in_rev. exact I.
Qed.

Lemma trimEnd_trail (s post : str) :
  forallb isSpace post = true -> trimEnd (s ++ post) = trimEnd s.
Proof.
  intros H. unfold trimEnd. rewrite rev_app_distr.
  rewrite trimStart_lead by (apply forallb_rev; exact H). reflexivity.
Qed.

Lemma trim_trail (s post : str) :
  forallb isSpace post = true -> trim (s ++ post) = trim s.
Proof.
  intros H. unfold trim. induction s as [|x s IH].
  - cbn [app]. rewrite (trimStart_spaces post H). reflexivity.
  - cbn [app trimStart]. destruct (isSpace x); [exact IH|].
    change (x :: s ++ post) with ((x :: s) ++ post).
    apply trimEnd_trail. exact H.
Qed.

Lemma trim_around (pre s post : str) :
  forallb isSpace pre = true -> forallb isSpace post = true ->
  trim (pre ++ s ++ post) = trim s.
Proof.
  intros Hp Hq. transitivity (trim (s ++ post)); [|apply trim_trail; exact Hq].
  unfold trim. rewrite trimStart_lead by exact Hp. reflexivity.
Qed.

(** X27. White space before and after a statement is of no account: the
    statement is trimmed before its command word is read and before it is
    parsed. *)
Theorem X27_query_trims (pre sql post : str) (st : store) :
  forallb isSpace pre = true -> forallb isSpace post = true ->
  query (pre ++ sql ++ post) st = query sql st.
Proof.
  intros Hp Hq. unfold query. rewrite (trim_around pre sql post Hp Hq).
  reflexivity.
Qed.

Lemma X27_query_trims_witness :
  query (lit "  " ++ lit "SELECT name FROM users WHERE age > 28" ++ lit " ")
        (tableStore "users" testUsers)
  = (Ok (Rows [rowOf [("name", "Bob")]%string;
               rowOf [("name", "Carol")]%string]),
     tableStore "users" testUsers).
Proof.
  refine (eq_trans (X27_query_trims (lit "  ") _ (lit " ") _ _ _) _);
    vm_compute; reflexivity.
Defined.

(** ** Layers of parentheses *)

Lemma wrapped_length (n : nat) (t : str) : n <= length (wrapped n t).
Proof.
  induction n as [|n IH]; [lia|].
  cbn [wrapped length]. rewrite length_app. cbn [length]. lia.
Qed.

Lemma wrapped_trim (n : nat) (t : str) :
  trim t = t -> trim (wrapped n t) = wrapped n t.
Proof.
  intros T. destruct n as [|n]; [exact T|].
  cbn [wrapped]. apply trim_between; reflexivity.
Qed.

Lemma unwrapLoop_wrapped (t : str) :
  trim t = t ->
  startsWithChar "("%char t && endsWithChar ")"%char t = false ->
  forall n fuel : nat, n <= fuel -> unwrapLoop fuel (wrapped n t) = t.
Proof.
  intros T H. induction n as [|n IH]; intros fuel L.
  - cbn [wrapped]. destruct fuel as [|fuel]; [reflexivity|].
    cbn [unwrapLoop]. rewrite H. reflexivity.
  - destruct fuel as [|fuel]; [lia|].
    cbn [unwrapLoop wrapped].
    change ("("%char :: wrapped n t ++ [")"%char])
      with (("("%char :: wrapped n t) ++ [")"%char]) at 2.
    rewrite endsWithChar_snoc. cbn [startsWithChar].
    rewrite chr_eqb_refl. cbn [andb].
    unfold slice_1_m1. cbn [tl]. rewrite removelast_last.
    rewrite (wrapped_trim n t T). apply IH. lia.
Qed.

(** X28. The parenthesis loop strips every outer layer: a trimmed text
    that is not itself parenthesised comes back as it is from under any
    number of layers. *)
Theorem X28_unwrap_all_layers (n : nat) (t : str) :
  trim t = t ->
  startsWithChar "("%char t && endsWithChar ")"%char t = false ->
  unwrap (wrapped n t) = t.
Proof.
  intros T H. unfold unwrap. rewrite (wrapped_trim n t T).
  apply unwrapLoop_wrapped; [exact T | exact H | apply wrapped_length].
Qed.

Lemma X28_unwrap_all_layers_witness :
  unwrap (lit "((a=1 OR (b=2)))") = lit "a=1 OR (b=2)".
Proof.
  apply (X28_unwrap_all_layers 2 (lit "a=1 OR (b=2)")); reflexivity.
Defined.

Lemma unwrapLoop_fuel (f : nat) :
  forall (s : str) (g : nat),
    length s <= f -> length s <= g -> unwrapLoop f s = unwrapLoop g s.
Proof.
  induction f as [|f IH]; intros s g Hf Hg.
  - destruct s; [|cbn in Hf; lia]. destruct g; reflexivity.
  - destruct g as [|g].
    + destruct s; [reflexivity | cbn in Hg; lia].
    + cbn [unwrapLoop].
      destruct (startsWithChar "("%char s && endsWithChar ")"%char s) eqn:E;
        [|reflexivity].
      destruct s as [|x s]; [discriminate|].
      assert (L : length (trim (slice_1_m1 (x :: s))) <= length s).
      { etransitivity; [apply length_trim | apply length_slice]. }
      cbn [length] in Hf, Hg. apply IH; lia.
Qed.

(** X29. The parenthesis loop works layer by layer and does not pair the
    parentheses: a text between an opening and a closing parenthesis is
    unwrapped as the text itself is, and a text whose trimmed form does not
    both start with an opening and end with a closing parenthesis comes
    back trimmed.  So a text such as (a=1) OR (b=2), whose first and last
    characters belong to different pairs, loses them both. *)
Theorem X29_unwrap_layer_by_layer :
  (forall t : str, unwrap ("("%char :: t ++ [")"%char]) = unwrap t)
  /\ (forall s : str,
         startsWithChar "("%char (trim s) && endsWithChar ")"%char (trim s)
         = false ->
         unwrap s = trim s).
Proof.
  split.
  - intros t. unfold unwrap.
    rewrite (trim_between "("%char ")"%char t eq_refl eq_refl).
    cbn [length unwrapLoop].
    change ("("%char :: t ++ [")"%char])
      with (("("%char :: t) ++ [")"%char]) at 2.
    rewrite endsWithChar_snoc. cbn [startsWithChar].
    rewrite chr_eqb_refl. cbn [andb].
    unfold slice_1_m1. cbn [tl]. rewrite removelast_last.
    apply unwrapLoop_fuel.
    + rewrite length_app. cbn [length]. pose proof (length_trim t). lia.
    + apply length_trim.
  - intros s H. unfold unwrap. destruct (length s); [reflexivity|].
    cbn [unwrapLoop]. rewrite H. reflexivity.
Qed.

Lemma X29_unwrap_layer_by_layer_witness :
  unwrap (lit "((a=1) OR (b=2))") = lit "a=1) OR (b=2"
  /\ unwrap (lit "  (a=1) OR b=2 ") = lit "(a=1) OR b=2".
Proof.
  split.
  - refine (eq_trans (proj1 X29_unwrap_layer_by_layer
                        (lit "(a=1) OR (b=2)")) _).
    vm_compute. reflexivity.
  - refine (eq_trans (proj2 X29_unwrap_layer_by_layer
                        (lit "  (a=1) OR b=2 ") _) _);
      vm_compute; reflexivity.
Defined.

(** ** INSERT followed by SELECT *)

(** X30. What INSERT stores, SELECT reads back: after an INSERT, a
    SELECT * on the same table without WHERE, ORDER BY and LIMIT returns
    the rows that the table held, in their order, followed by the inserted
    row as JSON keeps it. *)
Theorem X30_insert_then_select (ins sel : str) (mi ms : result) (st : store) :
  search insertRe ins = Some mi -> search selectRe sel = Some ms ->
  groupOr 2 ms = groupOr 1 mi -> trim (groupOr 1 ms) = lit "*" ->
  group 3 ms = None -> group 4 ms = None -> group 6 ms = None ->
  fst (select sel (snd (insert ins st)))
  = Ok (Rows (load st (groupOr 1 mi) ++ [jsonRow (insertedRow mi)])).
Proof.
  intros Hi Hs Ht Hc H3 H4 H6. unfold select.
  rewrite Hs, Hc, H3, H4, H6, Ht. unfold insert. rewrite Hi. cbn [snd].
  rewrite load_save, map_app, load_json. reflexivity.
Qed.

Lemma X30_insert_then_select_witness :
  fst (select (lit "SELECT * FROM users")
              (snd (insert insertSmith (tableStore "users" testUsers))))
  = Ok (Rows (testUsers
              ++ [rowOf [("id", "1"); ("name", "Smith, John")]%string])).
Proof.
  refine (eq_trans
            (X30_insert_then_select insertSmith (lit "SELECT * FROM users")
               _ _ (tableStore "users" testUsers) _ _ _ _ _ _ _) _);
    vm_compute; reflexivity.
Defined.
